(** * Polymarket board: the terminal dashboard and its web server

    A shallow embedding of [dashboard.py] and [server.py]: the adaptive
    table layout, the contender extractor, the display formatters, the
    volume ranking of the market data client, the TTL cache of the web
    server and its limit validation, with the properties the
    specification states about them. *)

From Stdlib Require Import ZArith List Bool Lia String Ascii Sorted.
From Stdlib Require Import Floats.SpecFloat.
From stdpp Require Import base option list gmap.
Import ListNotations.

Local Open Scope Z_scope.
Set Warnings "-register-all".

(** ** Adaptive layout ([dashboard.calc_layout]) *)

Module Layout.

Definition TOP_N_CONTENDERS : Z := 5.

Definition PRICE_W : Z := 5.
Definition DELTA_W : Z := 7.
Definition FIXED_COLS_W : Z := 3 + 35 + 9 + 8.
Definition MIN_NAME_W : Z := 8.
Definition EVENT_W : Z := 35.

(** The nested helper [total_width(n, name_w)]. *)
Definition total_width (n name_w : Z) : Z :=
  let seps := 3 + n * 3 in
  FIXED_COLS_W + n * (name_w + PRICE_W + DELTA_W) + seps + 2.

(** [range(TOP_N_CONTENDERS, 0, -1)]: the counts tried, largest first. *)
Definition candidate_counts : list Z :=
  map Z.of_nat (rev (seq 1 (Z.to_nat TOP_N_CONTENDERS))).

(** The [for] loop with its [break]: the first count of [ks] that fits
    at the minimum name width; [n] keeps its initial 0 when none does. *)
Fixpoint first_fit (width : Z) (ks : list Z) : Z :=
  match ks with
  | [] => 0
  | k :: ks' =>
      if total_width k MIN_NAME_W <=? width then k else first_fit width ks'
  end.

(** [calc_layout(width)]; [//] is Python's floor division, which is
    [Z.div] for the positive divisor [n]. *)
Definition calc_layout (width : Z) : Z * Z * Z :=
  let n := first_fit width candidate_counts in
  let n := if n =? 0 then 1 else n in
  let leftover := width - total_width n MIN_NAME_W in
  let name_w := MIN_NAME_W + leftover / n in
  (n, name_w, EVENT_W).

Definition count_of (r : Z * Z * Z) : Z := fst (fst r).
Definition name_w_of (r : Z * Z * Z) : Z := snd (fst r).

End Layout.

(** ** Python floats: IEEE 754 binary64 *)

Module PyFloat.

Definition prec : Z := 53.
Definition emax : Z := 1024.

Abbreviation float := spec_float.

Definition fmul : float -> float -> float := SFmul prec emax.
Definition fdiv : float -> float -> float := SFdiv prec emax.
Definition fsub : float -> float -> float := SFsub prec emax.
Definition fabs : float -> float := SFabs.
Definition fltb : float -> float -> bool := SFltb.
Definition fleb : float -> float -> bool := SFleb.

Definition is_nan (x : float) : bool :=
  match x with S754_nan => true | _ => false end.

Definition is_inf (x : float) : bool :=
  match x with S754_infinity _ => true | _ => false end.

(** The float nearest to an integer (ties to even); an integer literal
    such as [100] or [1_000_000] converts exactly. *)
Definition of_Z (z : Z) : float := binary_normalize prec emax z 0 false.

(** The float nearest to the fraction [n / d]. *)
Definition of_ratio (n : Z) (d : positive) : float :=
  match n with
  | Z0 => S754_zero false
  | Zpos p =>
      let '(q, e, l) := SFdiv_core_binary prec emax (Zpos p) 0 (Zpos d) 0 in
      binary_round_aux prec emax false q e l
  | Zneg p =>
      let '(q, e, l) := SFdiv_core_binary prec emax (Zpos p) 0 (Zpos d) 0 in
      binary_round_aux prec emax true q e l
  end.

(** The float a decimal literal [m]e[e] denotes: [0.05] is
    [of_decimal 5 (-2)]. *)
Definition of_decimal (m e : Z) : float :=
  match e with
  | Zneg p => of_ratio m (Pos.pow 10 p)
  | _ => of_Z (m * 10 ^ e)
  end.

(** [half_even n d]: the integer nearest to [n / d] for [n >= 0],
    ties to the even one. *)
Definition half_even (n : Z) (d : positive) : Z :=
  let q := n / Zpos d in
  let r := n mod Zpos d in
  match 2 * r ?= Zpos d with
  | Lt => q
  | Gt => q + 1
  | Eq => if Z.even q then q else q + 1
  end.

(** The magnitude of a finite float times [10^digits], rounded to an
    integer: the digits the format [%.<digits>f] prints. *)
Definition scaled_digits (digits : nat) (m : positive) (e : Z) : Z :=
  let n := Zpos m * 10 ^ Z.of_nat digits in
  match e with
  | Zneg p => half_even n (Pos.pow 2 p)
  | _ => n * 2 ^ e
  end.

(** The order of the floats that are not NaN, read off a triple
    compared lexicographically: the class (infinities outside, zeros in
    the middle), then exponent and mantissa, negated below zero. *)
Definition rank (x : float) : Z * Z * Z :=
  match x with
  | S754_nan => (0, 0, 0)
  | S754_zero _ => (0, 0, 0)
  | S754_infinity s => (if s then -2 else 2, 0, 0)
  | S754_finite s m e => if s then (-1, - e, Zneg m) else (1, e, Zpos m)
  end.

Definition lex_compare (a b : Z * Z * Z) : comparison :=
  let '(a1, a2, a3) := a in
  let '(b1, b2, b3) := b in
  match a1 ?= b1 with
  | Eq => match a2 ?= b2 with Eq => a3 ?= b3 | c => c end
  | c => c
  end.

(** [lex_compare a b] is not [Gt], as a proposition. *)
Definition lex_le (a b : Z * Z * Z) : Prop :=
  let '(a1, a2, a3) := a in
  let '(b1, b2, b3) := b in
  a1 < b1 \/ (a1 = b1 /\ (a2 < b2 \/ (a2 = b2 /\ a3 <= b3))).

End PyFloat.

(** ** Python values and the built-ins the code calls *)

Module Py.
Import PyFloat.

Local Open Scope string_scope.

(** What [json.loads] returns: [None], booleans, integers, floats,
    strings, lists and dicts (the items in insertion order, each key
    once). Strings are kept as their UTF-8 bytes. *)
Inductive pyval : Type :=
  | PNone
  | PBool (b : bool)
  | PInt (z : Z)
  | PFloat (f : float)
  | PStr (s : string)
  | PList (l : list pyval)
  | PDict (d : list (string * pyval)).

(** The exceptions the modelled code can meet. *)
Inductive exn : Type :=
  | JSONDecodeError
  | IndexError
  | KeyError
  | ValueError
  | TypeError
  | AttributeError
  | OverflowError
  | RecursionError.

Definition exn_eqb (a b : exn) : bool :=
  match a, b with
  | JSONDecodeError, JSONDecodeError | IndexError, IndexError
  | KeyError, KeyError | ValueError, ValueError | TypeError, TypeError
  | AttributeError, AttributeError | OverflowError, OverflowError
  | RecursionError, RecursionError => true
  | _, _ => false
  end.

(** A computation that returns or raises. *)
Inductive Result (A : Type) : Type :=
  | Ok (a : A)
  | Raise (e : exn).
Arguments Ok {A} a.
Arguments Raise {A} e.

#[global] Instance Result_ret : MRet Result := fun _ a => Ok a.
#[global] Instance Result_bind : MBind Result := fun _ _ f m =>
  match m with Ok a => f a | Raise e => Raise e end.

(** [e] is an instance of the class [h]: [JSONDecodeError] is a
    subclass of [ValueError]; the other classes stand apart. *)
Definition is_a (e h : exn) : bool :=
  exn_eqb e h
  || match e, h with JSONDecodeError, ValueError => true | _, _ => false end.

(** The clause [except (handled...)] matches [e]. *)
Definition caught (handled : list exn) (e : exn) : bool :=
  existsb (is_a e) handled.

(** [try: m except (handled...): h]. *)
Definition try_except {A} (m : Result A) (handled : list exn) (h : Result A)
  : Result A :=
  match m with
  | Ok a => Ok a
  | Raise e => if caught handled e then h else Raise e
  end.

(** Truth value of an object, as [or] and [if] test it. *)
Definition truthy (v : pyval) : bool :=
  match v with
  | PNone => false
  | PBool b => b
  | PInt z => negb (z =? 0)%Z
  | PFloat (S754_zero _) => false
  | PFloat _ => true
  | PStr EmptyString => false
  | PStr _ => true
  | PList [] => false
  | PList _ => true
  | PDict [] => false
  | PDict _ => true
  end.

(** [a or b]. *)
Definition py_or (a b : pyval) : pyval := if truthy a then a else b.

Fixpoint assoc (k : string) (d : list (string * pyval)) : option pyval :=
  match d with
  | [] => None
  | (k', v) :: d' => if String.eqb k k' then Some v else assoc k d'
  end.

(** [o.get(k)]: only a dict has the method. *)
Definition py_get (o : pyval) (k : string) : Result pyval :=
  match o with
  | PDict d => Ok (default PNone (assoc k d))
  | _ => Raise AttributeError
  end.

(** *** Strings as sequences of code points *)

(** A UTF-8 continuation byte, [0b10xxxxxx]. *)
Definition is_cont (a : ascii) : bool :=
  let n := N_of_ascii a in ((128 <=? n) && (n <? 192))%N.

Definition starts_with_cont (s : string) : bool :=
  match s with
  | String a _ => is_cont a
  | EmptyString => false
  end.

(** The code points of a string, each with its bytes. *)
Fixpoint chars (s : string) : list string :=
  match s with
  | EmptyString => []
  | String a s' =>
      let r := chars s' in
      if starts_with_cont s' then
        match r with
        | c :: r' => String a c :: r'
        | [] => [String a EmptyString]
        end
      else String a EmptyString :: r
  end.

(** Every byte of [s] is a continuation byte. *)
Fixpoint all_cont (s : string) : bool :=
  match s with
  | EmptyString => true
  | String a s' => is_cont a && all_cont s'
  end.

(** One code point's worth of bytes: a byte and the continuation bytes
    that follow it. *)
Definition is_group (g : string) : bool :=
  match g with
  | EmptyString => false
  | String _ cs => all_cont cs
  end.

Definition py_len (s : string) : Z := Z.of_nat (length (chars s)).

Definition join (l : list string) : string :=
  fold_right String.append EmptyString l.

(** [l[:k]]: a negative [k] counts from the end. *)
Definition slice_to {A} (l : list A) (k : Z) : list A :=
  if (k <? 0)%Z then firstn (Z.to_nat (Z.of_nat (length l) + k)) l
  else firstn (Z.to_nat k) l.

(** [s[:k]]. *)
Definition str_slice_to (s : string) (k : Z) : string :=
  join (slice_to (chars s) k).

(** *** Numbers as text *)

Fixpoint digits_of (fuel : nat) (n : Z) (acc : string) : string :=
  match fuel with
  | O => acc
  | S fuel' =>
      let d := ascii_of_N (48 + Z.to_N (n mod 10)) in
      if (n <? 10)%Z then String d acc
      else digits_of fuel' (n / 10) (String d acc)
  end.

(** Decimal digits of a non-negative integer. *)
Definition str_of_Znonneg (n : Z) : string :=
  digits_of (S (Z.to_nat (Z.log2 n))) n EmptyString.

Fixpoint zeros (k : nat) : string :=
  match k with O => EmptyString | S k' => String "0" (zeros k') end.

(** [n] written on exactly [w] digits, zeros on the left. *)
Definition pad_digits (w : nat) (n : Z) : string :=
  let s := str_of_Znonneg n in
  zeros (w - String.length s) ++ s.

(** [f"{x:.<digits>f}"]: the exact value of the float rounded to
    [digits] decimals, ties to even; the sign is printed also when the
    digits are all zero. *)
Definition format_f (digits : nat) (x : float) : string :=
  let fixed (s : bool) (n : Z) :=
    let p := (10 ^ Z.of_nat digits)%Z in
    (if s then "-" else "") ++ str_of_Znonneg (n / p)
    ++ match digits with
       | O => ""
       | _ => "." ++ pad_digits digits (n mod p)
       end in
  match x with
  | S754_nan => "nan"
  | S754_infinity s => if s then "-inf" else "inf"
  | S754_zero s => fixed s 0%Z
  | S754_finite s m e => fixed s (scaled_digits digits m e)
  end.

(** *** Built-ins taken as given

    [json.loads] on a text and [float] on a string are functions of the
    text alone; [str] of an object that is not a string is its [repr].
    They are parameters of everything below. [json.loads] returns the
    decoded value or raises: [JSONDecodeError] for a text that is not
    JSON, [RecursionError] for one that is nested too deep and
    [ValueError] for an integer literal with more digits than the
    interpreter converts. For [float], [None] stands for
    [ValueError]. *)
Record builtins : Type := Builtins {
  json_loads : string -> Result pyval;
  float_of_str : string -> option float;
  repr : pyval -> string;
}.

Section WithBuiltins.
Context (B : builtins).

(** [json.loads(v)]: the argument must be a string. *)
Definition py_json_loads (v : pyval) : Result pyval :=
  match v with
  | PStr s => json_loads B s
  | _ => Raise TypeError
  end.

(** [float(v)]. An integer too large for a float raises
    [OverflowError]. *)
Definition py_float (v : pyval) : Result float :=
  match v with
  | PBool b => Ok (of_Z (if b then 1 else 0))
  | PInt z => let f := of_Z z in
              if is_inf f then Raise OverflowError else Ok f
  | PFloat f => Ok f
  | PStr s =>
      match float_of_str B s with
      | Some f => Ok f
      | None => Raise ValueError
      end
  | PNone | PList _ | PDict _ => Raise TypeError
  end.

(** [str(v)]. *)
Definition py_str (v : pyval) : string :=
  match v with
  | PStr s => s
  | _ => repr B v
  end.

(** [v[0]]. The keys of a decoded dict are strings, so the integer key
    is never found. *)
Definition py_item0 (v : pyval) : Result pyval :=
  match v with
  | PList (x :: _) => Ok x
  | PList [] => Raise IndexError
  | PStr s =>
      match chars s with
      | c :: _ => Ok (PStr c)
      | [] => Raise IndexError
      end
  | PDict _ => Raise KeyError
  | PNone | PBool _ | PInt _ | PFloat _ => Raise TypeError
  end.

(** The objects a [for] loop over [v] visits: the elements of a list,
    the characters of a string, the keys of a dict. *)
Definition py_iter (v : pyval) : Result (list pyval) :=
  match v with
  | PList l => Ok l
  | PStr s => Ok (map PStr (chars s))
  | PDict d => Ok (map (fun kv => PStr (fst kv)) d)
  | PNone | PBool _ | PInt _ | PFloat _ => Raise TypeError
  end.

End WithBuiltins.

(** *** [list.sort]

    [l.sort(key=key, reverse=True)] computes the key of every element,
    reverses the list, sorts it upwards with the merge sort of CPython
    (version 3.11, [Objects/listobject.c]) and reverses the result.
    The sort compares keys with [<] only. *)
Section ListSort.
Context {A : Type} (key : A -> float).
Local Open Scope nat_scope.
Local Open Scope list_scope.

(** [ISLT(x, y)]: the keys are floats. *)
Definition islt (x y : A) : bool := fltb (key x) (key y).

(** [count_run]: the length of the run the list starts with, and
    whether it descends (each element below the one before). *)
Fixpoint run_more (descending : bool) (prev : A) (l : list A) : nat :=
  match l with
  | [] => 0
  | y :: l' =>
      if Bool.eqb (islt y prev) descending
      then S (run_more descending y l') else 0
  end.

Definition count_run (l : list A) : nat * bool :=
  match l with
  | x0 :: x1 :: l' => let d := islt x1 x0 in (2 + run_more d x1 l', d)
  | _ => (length l, false)
  end.

Definition islt_at (pivot : A) (a : list A) (p : nat) : bool :=
  match a !! p with
  | Some y => islt pivot y
  | None => false
  end.

(** The search of [binarysort] for the place of [pivot] in the sorted
    part [a], between [l] and [r]. *)
Fixpoint bisect (fuel : nat) (a : list A) (pivot : A) (l r : nat) : nat :=
  match fuel with
  | O => l
  | S fuel' =>
      let p := l + (r - l) / 2 in
      let l' := if islt_at pivot a p then l else S p in
      let r' := if islt_at pivot a p then p else r in
      if l' <? r' then bisect fuel' a pivot l' r' else l'
  end.

Definition binary_insert (sorted : list A) (pivot : A) : list A :=
  let pos := bisect (S (length sorted)) sorted pivot 0 (length sorted) in
  take pos sorted ++ pivot :: drop pos sorted.

(** [binarysort]: the elements of [rest] are inserted, one after the
    other, into the sorted part. *)
Definition binarysort (sorted rest : list A) : list A :=
  fold_left binary_insert rest sorted.

Definition before_at (before : A -> bool) (a : list A) (i : nat) : bool :=
  match a !! i with
  | Some x => before x
  | None => false
  end.

(** The galloping of [gallop_left] and [gallop_right]: the offset from
    the hint is doubled while the test holds. *)
Fixpoint gallop_ofs (fuel : nat) (continue : nat -> bool)
    (maxofs lastofs ofs : nat) : nat * nat :=
  match fuel with
  | O => (lastofs, ofs)
  | S fuel' =>
      if (ofs <? maxofs) && continue ofs
      then gallop_ofs fuel' continue maxofs ofs (2 * ofs + 1)
      else (lastofs, ofs)
  end.

(** The binary search that ends both functions. *)
Fixpoint narrow (fuel : nat) (before : A -> bool) (a : list A)
    (lo hi : nat) : nat :=
  match fuel with
  | O => hi
  | S fuel' =>
      if lo <? hi then
        let m := lo + (hi - lo) / 2 in
        if before_at before a m then narrow fuel' before a (S m) hi
        else narrow fuel' before a lo m
      else hi
  end.

(** Where the elements of [a] that come before the key end, searched
    from the index [hint]; [before x] says that [x] comes before the
    key. *)
Definition gallop (before : A -> bool) (a : list A) (hint : nat) : nat :=
  let n := length a in
  if before_at before a hint then
    let maxofs := n - hint in
    let '(lastofs, ofs) :=
      gallop_ofs (S n) (fun o => before_at before a (hint + o)) maxofs 0 1 in
    narrow (S n) before a (lastofs + hint + 1) (Nat.min ofs maxofs + hint)
  else
    let maxofs := hint + 1 in
    let '(lastofs, ofs) :=
      gallop_ofs (S n) (fun o => negb (before_at before a (hint - o)))
                 maxofs 0 1 in
    narrow (S n) before a (hint + 1 - Nat.min ofs maxofs) (hint - lastofs).

(** [gallop_right(key, a, n, hint)]: after the elements equal to the
    key. *)
Definition gallop_right (k : A) : list A -> nat -> nat :=
  gallop (fun x => negb (islt k x)).

(** [gallop_left(key, a, n, hint)]: before the elements equal to the
    key. *)
Definition gallop_left (k : A) : list A -> nat -> nat :=
  gallop (fun x => islt x k).

Definition MIN_GALLOP : nat := 7.

(** [min_gallop -= min_gallop > 1]. *)
Definition settle (mg : nat) : nat := if 1 <? mg then mg - 1 else mg.

(** What has been written so far, before the rest of the merge. *)
Definition emit (out : list A) (r : list A * nat) : list A * nat :=
  (out ++ r.1, r.2).

(** [merge_lo] after its first element: the loop that takes one
    element at a time and the loop that gallops, with the value of
    [min_gallop]; the result is the merged list and the new
    [min_gallop]. *)
Fixpoint lo_straight (fuel mg acount bcount : nat) (a b : list A)
    {struct fuel} : list A * nat :=
  match fuel, a, b with
  | S fuel', x :: a', y :: b' =>
      if islt y x then
        match b' with
        | [] => (y :: a, mg)
        | _ =>
            emit [y] (if mg <=? S bcount then lo_gallop fuel' (S mg) a b'
                      else lo_straight fuel' mg 0 (S bcount) a b')
        end
      else
        match a' with
        | [_] => (x :: b ++ a', mg)
        | _ =>
            emit [x] (if mg <=? S acount then lo_gallop fuel' (S mg) a' b
                      else lo_straight fuel' mg (S acount) 0 a' b)
        end
  | _, _, _ => (a ++ b, mg)
  end
with lo_gallop (fuel mg : nat) (a b : list A) {struct fuel}
    : list A * nat :=
  match fuel, b with
  | S fuel', y :: b1 =>
      let mg := settle mg in
      let k := gallop_right y a 0 in
      let out1 := take k a in
      let a1 := drop k a in
      match k, a1 with
      | S _, [_] => (out1 ++ b ++ a1, mg)
      | S _, [] => (out1 ++ b, mg)
      | _, _ =>
          match b1, a1 with
          | [], _ => (out1 ++ y :: a1, mg)
          | _, [] => (out1 ++ b, mg)
          | _, x :: a2 =>
              let k2 := gallop_left x b1 0 in
              let out2 := take k2 b1 in
              let b2 := drop k2 b1 in
              match k2, b2 with
              | S _, [] => (out1 ++ y :: out2 ++ a1, mg)
              | _, _ =>
                  match a2 with
                  | [_] => (out1 ++ y :: out2 ++ x :: b2 ++ a2, mg)
                  | _ =>
                      emit (out1 ++ y :: out2 ++ [x])
                        (if (MIN_GALLOP <=? k) || (MIN_GALLOP <=? k2)
                         then lo_gallop fuel' mg a2 b2
                         else lo_straight fuel' (S mg) 0 0 a2 b2)
                  end
              end
          end
      end
  | _, _ => (a ++ b, mg)
  end.

(** [merge_lo]: the run [a] is copied aside and the merge fills the
    place of both from the left. *)
Definition merge_lo (mg : nat) (a b : list A) : list A * nat :=
  match b with
  | [] => (a, mg)
  | y :: b1 =>
      match b1, a with
      | [], _ => (y :: a, mg)
      | _, [_] => (y :: b1 ++ a, mg)
      | _, _ => emit [y] (lo_straight (length a + length b) mg 0 0 a b1)
      end
  end.

(** [merge_hi] after its first element, on the two runs read from
    their ends; the result is the merged list read from its end. *)
Fixpoint hi_straight (fuel mg acount bcount : nat) (ra rb : list A)
    {struct fuel} : list A * nat :=
  match fuel, ra, rb with
  | S fuel', x :: ra', y :: rb' =>
      if islt y x then
        match ra' with
        | [] => (x :: rb, mg)
        | _ =>
            emit [x] (if mg <=? S acount then hi_gallop fuel' (S mg) ra' rb
                      else hi_straight fuel' mg (S acount) 0 ra' rb)
        end
      else
        match rb' with
        | [_] => (y :: ra ++ rb', mg)
        | _ =>
            emit [y] (if mg <=? S bcount then hi_gallop fuel' (S mg) ra rb'
                      else hi_straight fuel' mg 0 (S bcount) ra rb')
        end
  | _, _, _ => (ra ++ rb, mg)
  end
with hi_gallop (fuel mg : nat) (ra rb : list A) {struct fuel}
    : list A * nat :=
  match fuel, rb with
  | S fuel', y :: rb1 =>
      let mg := settle mg in
      let na := length ra in
      let k := na - gallop_right y (rev ra) (na - 1) in
      let out1 := take k ra in
      let ra1 := drop k ra in
      match k, ra1 with
      | S _, [] => (out1 ++ rb, mg)
      | _, _ =>
          match rb1, ra1 with
          | [_], _ => (out1 ++ y :: ra1 ++ rb1, mg)
          | _, [] => (out1 ++ rb, mg)
          | _, x :: ra2 =>
              let nb := length rb1 in
              let k2 := nb - gallop_left x (rev rb1) (nb - 1) in
              let out2 := take k2 rb1 in
              let rb2 := drop k2 rb1 in
              match k2, rb2 with
              | S _, [_] => (out1 ++ y :: out2 ++ ra1 ++ rb2, mg)
              | S _, [] => (out1 ++ y :: out2 ++ ra1, mg)
              | _, _ =>
                  match ra2 with
                  | [] => (out1 ++ y :: out2 ++ x :: rb2, mg)
                  | _ =>
                      emit (out1 ++ y :: out2 ++ [x])
                        (if (MIN_GALLOP <=? k) || (MIN_GALLOP <=? k2)
                         then hi_gallop fuel' mg ra2 rb2
                         else hi_straight fuel' (S mg) 0 0 ra2 rb2)
                  end
              end
          end
      end
  | _, _ => (ra ++ rb, mg)
  end.

(** [merge_hi]: the run [b] is copied aside and the merge fills the
    place of both from the right. *)
Definition merge_hi (mg : nat) (a b : list A) : list A * nat :=
  match rev a with
  | [] => (b, mg)
  | x :: ra1 =>
      match ra1, rev b with
      | [], _ => (b ++ [x], mg)
      | _, [y] => (rev (x :: ra1 ++ [y]), mg)
      | _, rb =>
          let r := hi_straight (length a + length b) mg 0 0 ra1 rb in
          (rev (x :: r.1), r.2)
      end
  end.

(** [merge_at]: two runs that follow each other are merged; the
    elements of [a] that are in place already and those of [b] that
    are stay out of the merge. *)
Definition merge_at (mg : nat) (a b : list A) : list A * nat :=
  match b with
  | [] => (a, mg)
  | y :: _ =>
      let k := gallop_right y a 0 in
      let a1 := drop k a in
      match last a1 with
      | None => (a ++ b, mg)
      | Some z =>
          match gallop_left z b (length b - 1) with
          | O => (a ++ b, mg)
          | nb =>
              let b1 := take nb b in
              let m := if length a1 <=? length b1 then merge_lo mg a1 b1
                       else merge_hi mg a1 b1 in
              (take k a ++ m.1 ++ drop nb b, m.2)
          end
      end
  end.

(** A run on the stack of pending runs: where it starts, its elements
    and the power of its boundary with the next run. *)
Record run : Type := Run {
  r_start : nat;
  r_items : list A;
  r_power : nat;
}.

(** [powerloop]: the first bit where the midpoints of the two runs,
    as fractions of the list, differ. *)
Fixpoint powerloop (fuel a b n result : nat) : nat :=
  match fuel with
  | O => S result
  | S fuel' =>
      if n <=? a then powerloop fuel' (2 * (a - n)) (2 * (b - n)) n (S result)
      else if n <=? b then S result
      else powerloop fuel' (2 * a) (2 * b) n (S result)
  end.

Definition power (s1 n1 n2 n : nat) : nat :=
  powerloop (S n) (2 * s1 + n1) (2 * s1 + n1 + n1 + n2) n 0.

(** The loop of [found_new_run]: the two topmost runs are merged while
    the boundary below has a higher power. The stack has its top
    first. *)
Fixpoint collapse_power (fuel p mg : nat) (stack : list run)
    : list run * nat :=
  match fuel, stack with
  | S fuel', top :: below :: rest =>
      if p <? r_power below then
        let m := merge_at mg (r_items below) (r_items top) in
        collapse_power fuel' p m.2
          (Run (r_start below) m.1 (r_power below) :: rest)
      else (stack, mg)
  | _, _ => (stack, mg)
  end.

(** [found_new_run] for a new run of [n2] elements. *)
Definition found_new_run (n2 listlen mg : nat) (stack : list run)
    : list run * nat :=
  match stack with
  | [] => ([], mg)
  | top :: _ =>
      let p := power (r_start top) (length (r_items top)) n2 listlen in
      let c := collapse_power (length stack) p mg stack in
      match c.1 with
      | t :: rest => (Run (r_start t) (r_items t) p :: rest, c.2)
      | [] => ([], c.2)
      end
  end.

(** [merge_force_collapse]: the runs left are merged, the shorter
    neighbour of the run next to the top first. *)
Fixpoint force_collapse (fuel mg : nat) (stack : list run)
    : list run * nat :=
  match fuel, stack with
  | S fuel', t :: s :: rest =>
      match rest with
      | u :: rest' =>
          if length (r_items u) <? length (r_items t) then
            let m := merge_at mg (r_items u) (r_items s) in
            force_collapse fuel' m.2
              (t :: Run (r_start u) m.1 (r_power u) :: rest')
          else
            let m := merge_at mg (r_items s) (r_items t) in
            force_collapse fuel' m.2 (Run (r_start s) m.1 (r_power s) :: rest)
      | [] =>
          let m := merge_at mg (r_items s) (r_items t) in
          force_collapse fuel' m.2 [Run (r_start s) m.1 (r_power s)]
      end
  | _, _ => (stack, mg)
  end.

(** [merge_compute_minrun]. *)
Fixpoint minrun_loop (fuel n r : nat) : nat :=
  match fuel with
  | O => n + r
  | S fuel' =>
      if 64 <=? n then minrun_loop fuel' (n / 2) (Nat.max r (n mod 2))
      else n + r
  end.

Definition merge_compute_minrun (n : nat) : nat := minrun_loop n n 0.

(** The loop over the list: the next run is found, turned round when
    it descends, extended to [minrun] elements with [binarysort] and
    pushed on the stack. *)
Fixpoint runs_loop (fuel minrun listlen lo mg : nat) (stack : list run)
    (rem : list A) : list run * nat :=
  match fuel, rem with
  | S fuel', _ :: _ =>
      let '(n, descending) := count_run rem in
      let run0 := if descending then rev (take n rem) else take n rem in
      let force := Nat.min minrun (length rem) in
      let n' := if n <? minrun then force else n in
      let items := if n <? minrun
                   then binarysort run0 (take (force - n) (drop n rem))
                   else run0 in
      let f := found_new_run n' listlen mg stack in
      runs_loop fuel' minrun listlen (lo + n') f.2
                (Run lo items 0 :: f.1) (drop n' rem)
  | _, _ => (stack, mg)
  end.

(** The sort upwards. *)
Definition timsort (l : list A) : list A :=
  match l with
  | [] | [_] => l
  | _ =>
      let n := length l in
      let r := runs_loop n (merge_compute_minrun n) n 0 MIN_GALLOP [] l in
      let c := force_collapse (length r.1) r.2 r.1 in
      concat (rev (map r_items c.1))
  end.

(** The elements on the stack, from the bottom run to the top one. *)
Definition stacked (stack : list run) : list A :=
  concat (rev (map r_items stack)).

End ListSort.

(** The positions of the keys in the order [sort(reverse=True)] leaves
    them: the keys are sorted with their positions moving along. *)
Definition sorted_positions (keys : list float) : list nat :=
  map snd (rev (timsort fst (rev (zip keys (seq 0 (length keys)))))).

(** [l.sort(key=key, reverse=True)]: the elements at the positions the
    sort leaves their keys in. *)
Definition sort_reverse {A : Type} (key : A -> float) (l : list A) : list A :=
  omap (fun i => l !! i) (sorted_positions (map key l)).
Arguments sort_reverse {A} key l : simpl never.

(** The order a stable sort has to produce when the keys are ordered:
    the descending arrangement where an element goes in front of the
    first one that is not greater. *)
Section Sort.
Context {A : Type} (key : A -> float).

Fixpoint insert_desc (x : A) (l : list A) : list A :=
  match l with
  | [] => [x]
  | y :: l' =>
      if fltb (key x) (key y) then y :: insert_desc x l' else x :: l
  end.

Definition sort_desc (l : list A) : list A := fold_right insert_desc [] l.

(** [b] may follow [a] in a list that does not increase. *)
Definition desc (a b : A) : Prop := fleb (key b) (key a) = true.

(** The keys of [l] never increase from an element to a later one. *)
Definition non_increasing (l : list A) : Prop := StronglySorted desc l.

Definition no_nan (l : list A) : Prop :=
  Forall (fun a => is_nan (key a) = false) l.

(** The elements of [l] whose key equals [v], in their order. *)
Definition with_key (v : float) (l : list A) : list A :=
  List.filter (fun a => SFeqb v (key a)) l.

(** The keys of [l] never decrease from an element to a later one:
    no element is below an earlier one. *)
Definition non_decreasing (l : list A) : Prop :=
  StronglySorted (fun a b => islt key b a = false) l.

(** The same arrangement upwards, built from the left: a new element
    goes behind the elements that are not greater. *)
Fixpoint upper_insert (x : A) (s : list A) : list A :=
  match s with
  | [] => [x]
  | y :: s' => if islt key x y then x :: s else y :: upper_insert x s'
  end.

Definition sort_asc (l : list A) : list A :=
  fold_left (fun s x => upper_insert x s) l [].

(** The stable merge of two runs that follow each other: an element of
    the second run goes first only when it is below the next element
    of the first run. *)
Fixpoint smerge (a b : list A) : list A :=
  match a with
  | [] => b
  | x :: a' =>
      (fix into b :=
         match b with
         | [] => a
         | y :: b' =>
             if islt key y x then y :: into b' else x :: smerge a' b
         end) b
  end.

(** The same merge from the right, on the runs read from their ends. *)
Fixpoint rmerge (ra rb : list A) : list A :=
  match ra with
  | [] => rb
  | x :: ra' =>
      (fix into rb :=
         match rb with
         | [] => ra
         | y :: rb' =>
             if islt key y x then x :: rmerge ra' rb else y :: into rb'
         end) rb
  end.

End Sort.

End Py.

(** ** The terminal dashboard ([dashboard.py]) *)

Module Dashboard.
Import PyFloat Py.

Local Open Scope string_scope.

(** The dict a contender is kept in: [{"name", "yes", "delta"}]. *)
Record contender : Type := Contender {
  name : pyval;
  yes : float;
  delta : pyval;
}.

(** A [rich.text.Text] as the code builds it: the text and its style. *)
Record Text : Type := MkText {
  plain : string;
  style : string;
}.

(** A cell of a table row: a plain string or a styled [Text]. *)
Inductive cell : Type :=
  | CStr (s : string)
  | CText (t : Text).

(** The result of [subprocess.run]. *)
Record completed : Type := Completed {
  returncode : Z;
  stdout : string;
  stderr : string;
}.

Definition flat_text : Text := MkText "—" "dim".

(** [fmt_price_cents(yes)]. *)
Definition fmt_price_cents (yes : float) : string :=
  let cents := fmul yes (of_Z 100) in
  if fltb cents (of_Z 1) then "<1¢"
  else format_f 0 cents ++ "¢".

(** [truncate(s, n)] on the text of [s]. *)
Definition truncate_str (s : string) (n : Z) : string :=
  if (py_len s <=? n)%Z then s else str_slice_to s (n - 1) ++ "…".

Section WithBuiltins.
Context (B : builtins).

(** The sort key of [fetch_events]:
    [lambda e: float(e.get("volume") or 0)]. *)
Definition volume_key (e : pyval) : Result float :=
  v ← py_get e "volume";
  py_float B (py_or v (PInt 0)).

(** Line 43 of [fetch_events] on a list,
    [data.sort(key=..., reverse=True)]: the events in the order the
    sort leaves them. The keys are computed for every element, in
    order, before anything moves. *)
Definition ranking (l : list pyval) : Result (list pyval) :=
  keys ← mapM volume_key l;
  mret (map fst (sort_reverse snd (zip l keys))).

(** Lines 43-44 on the decoded output [data]: the sort, then
    [return data[:limit]]; only a list has [sort]. *)
Definition sort_and_truncate (data : pyval) (limit : Z)
  : Result (list pyval) :=
  match data with
  | PList l =>
      r ← ranking l;
      mret (slice_to r limit)
  | _ => Raise AttributeError
  end.

(** The events of [l] whose volume equals [v], in their order. *)
Definition with_volume (v : float) (l : list pyval) : list pyval :=
  List.filter (fun e => match volume_key e with
                        | Ok k => SFeqb v k
                        | Raise _ => false
                        end) l.

(** The events whose sort key can be computed: a dict whose volume is
    absent or false, or a number within the floats, or a string that
    [float] accepts. *)
Definition volume_ok (e : pyval) : bool :=
  match e with
  | PDict fields =>
      match py_or (default PNone (assoc "volume" fields)) (PInt 0) with
      | PStr s => match float_of_str B s with Some _ => true | None => false end
      | PFloat _ | PBool _ => true
      | PInt z => negb (is_inf (of_Z z))
      | PNone | PList _ | PDict _ => false
      end
  | _ => false
  end.

(** [a] is ranked before [b]: both have a volume and that of [b] is
    not the larger. *)
Definition ranked (a b : pyval) : Prop :=
  exists ka kb,
    volume_key a = Ok ka /\ volume_key b = Ok kb /\ fleb kb ka = true.

(** [fetch_events(limit)] given what the upstream process returned.
    The two messages printed on the console are left out. The handler
    names [json.JSONDecodeError] only. *)
Definition fetch_events (limit : Z) (result : completed)
  : Result (list pyval) :=
  if negb (returncode result =? 0)%Z then Ok []
  else
    try_except
      (data ← py_json_loads B (PStr (stdout result));
       sort_and_truncate data limit)
      [JSONDecodeError] (Ok []).

(** [fetch_count = max(limit * 5, 100)], the number asked upstream. *)
Definition fetch_count (limit : Z) : Z := Z.max (limit * 5) 100.

(** The body of the [try] in [top_contenders], with its handler. *)
Definition yes_of_market (m : pyval) : Result float :=
  try_except
    (op ← py_get m "outcomePrices";
     prices ← py_json_loads B (py_or op (PStr "[0,1]"));
     p0 ← py_item0 prices;
     py_float B p0)
    [JSONDecodeError; IndexError; ValueError]
    (Ok (S754_zero false)).

(** The objects on which [float] returns or raises [ValueError]:
    strings, floats, booleans and the integers within the floats. *)
Definition convertible (x : pyval) : bool :=
  match x with
  | PStr _ | PFloat _ | PBool _ => true
  | PInt z => negb (is_inf (of_Z z))
  | PNone | PList _ | PDict _ => false
  end.

(** The integers beyond the floats, the objects on which [float]
    raises [OverflowError]. *)
Definition overflows (x : pyval) : bool :=
  match x with
  | PInt z => is_inf (of_Z z)
  | _ => false
  end.

(** The price texts the [try] block copes with: a text on which
    [json.loads] raises an exception the handler names, or that
    decodes to a string, to an empty list or to a list whose first
    element is convertible. *)
Definition price_text_ok (txt : string) : bool :=
  match json_loads B txt with
  | Raise e => caught [JSONDecodeError; IndexError; ValueError] e
  | Ok (PStr _) => true
  | Ok (PList []) => true
  | Ok (PList (x :: _)) => convertible x
  | Ok _ => false
  end.

(** The markets the loop copes with: a dict whose price field is
    absent or false, or a string that is such a text. *)
Definition market_ok (m : pyval) : bool :=
  match m with
  | PDict fields =>
      match py_or (default PNone (assoc "outcomePrices" fields))
                  (PStr "[0,1]") with
      | PStr txt => price_text_ok txt
      | _ => false
      end
  | _ => false
  end.

(** One turn of the loop over the markets. *)
Definition parse_market (m : pyval) : Result contender :=
  y ← yes_of_market m;
  git ← py_get m "groupItemTitle";
  q ← py_get m "question";
  d ← py_get m "oneDayPriceChange";
  mret (Contender (py_or (py_or git q) (PStr "?")) y d).

(** The list [parsed] when the loop ends. *)
Definition parsed_contenders (event : pyval) : Result (list contender) :=
  ms ← py_get event "markets";
  markets ← py_iter (py_or ms (PList []));
  mapM parse_market markets.

(** [top_contenders(event)]. *)
Definition top_contenders (event : pyval) : Result (list contender) :=
  parsed ← parsed_contenders event;
  mret (slice_to (sort_reverse yes parsed) Layout.TOP_N_CONTENDERS).

(** [fmt_vol(v)]: the handler covers the conversion only. *)
Definition fmt_vol (v : pyval) : Result string :=
  match py_float B (py_or v (PInt 0)) with
  | Raise e => if caught [ValueError; TypeError] e then Ok "—" else Raise e
  | Ok n =>
      Ok (if fleb (of_Z 1000000) n then
            "$" ++ format_f 1 (fdiv n (of_Z 1000000)) ++ "M"
          else if fleb (of_Z 1000) n then
            "$" ++ format_f 0 (fdiv n (of_Z 1000)) ++ "K"
          else "$" ++ format_f 0 n)
  end.

(** [cents = float(delta) * 100] with its handler: [None] when the
    code returns the flat placeholder from the [except] branch. *)
Definition delta_cents (delta : pyval) : Result (option float) :=
  match py_float B delta with
  | Raise e => if caught [ValueError; TypeError] e then Ok None else Raise e
  | Ok d => Ok (Some (fmul d (of_Z 100)))
  end.

(** The text [f"{arrow}{sign}{cents:.1f}"]. *)
Definition delta_text (cents : float) : string :=
  let sign := if fltb (of_Z 0) cents then "+" else "" in
  let arrow := if fltb (of_Z 0) cents then "▲" else "▼" in
  arrow ++ sign ++ format_f 1 cents.

(** [abs(cents) < 0.05]. *)
Definition below_noise (cents : float) : bool :=
  fltb (fabs cents) (of_decimal 5 (-2)).

(** [fmt_delta(delta)]. *)
Definition fmt_delta (delta : pyval) : Result Text :=
  match delta with
  | PNone => Ok flat_text
  | _ =>
      oc ← delta_cents delta;
      match oc with
      | None => Ok flat_text
      | Some cents =>
          if below_noise cents then Ok flat_text
          else
            let color := if fltb (of_Z 0) cents then "green" else "red" in
            Ok (MkText (delta_text cents) color)
      end
  end.

(** [truncate(s, n)]. *)
Definition truncate (s : pyval) (n : Z) : string :=
  truncate_str (py_str B s) n.

(** The filler [{"name": "", "yes": 0, "delta": None}]; its integer 0
    is only ever compared with 0, so the float zero stands for it. *)
Definition blank_contender : contender :=
  Contender (PStr "") (of_Z 0) PNone.

(** The [while] loop that pads [contenders] to [n_cont] entries. *)
Definition pad_contenders (n_cont : Z) (cs : list contender)
  : list contender :=
  cs ++ repeat blank_contender (Z.to_nat n_cont - length cs).

(** [fmt_price_cents(c["yes"]) if c["yes"] > 0 else ""]. *)
Definition price_cell (y : float) : string :=
  if fltb (of_Z 0) y then fmt_price_cents y else "".

(** The three cells appended for one contender. *)
Definition contender_cells (name_w : Z) (c : contender)
  : Result (list cell) :=
  let nm := truncate (name c) name_w in
  let pr := price_cell (yes c) in
  d ← fmt_delta (delta c);
  mret [CStr nm; CStr pr; CText d].

(** The row built for the event of rank [idx]. *)
Definition build_row (n_cont name_w event_w : Z) (idx : nat) (event : pyval)
  : Result (list cell) :=
  cs ← top_contenders event;
  let contenders := pad_contenders n_cont cs in
  title ← py_get event "title";
  vol ← py_get event "volume";
  fv ← fmt_vol vol;
  vol24 ← py_get event "volume24hr";
  fv24 ← fmt_vol vol24;
  groups ← mapM (contender_cells name_w) (slice_to contenders n_cont);
  mret ([CStr (str_of_Znonneg (Z.of_nat idx));
         CStr (truncate (py_or title (PStr "?")) event_w);
         CStr fv; CStr fv24] ++ concat groups)%list.

(** The rows [build_table(events)] adds, for a console of the given
    width ([console.width or 200]). The column declarations belong to
    the rendering library. *)
Definition build_table (console_width : Z) (events : list pyval)
  : Result (list (list cell)) :=
  let width := if (console_width =? 0)%Z then 200%Z else console_width in
  let '(n_cont, name_w, event_w) := Layout.calc_layout width in
  mapM (fun ie => build_row n_cont name_w event_w (S (fst ie)) (snd ie))
       (imap pair events).

(** A [rich.panel.Panel] around styled text, with the box, the border
    style and the padding the code passes. *)
Record Panel : Type := MkPanel {
  content : list Text;
  box : string;
  border_style : string;
  padding : Z * Z;
}.

(** [build_header(n, ts)]; [stamp] is [ts.strftime('%b %d  %H:%M')]. *)
Definition build_header (n : nat) (stamp : string) : Panel :=
  MkPanel
    [MkText "  POLYMARKET  " "bold black on bright_cyan";
     MkText ("  Top " ++ str_of_Znonneg (Z.of_nat n) ++ " Events by Volume  ")
            "bold bright_white";
     MkText ("  " ++ stamp ++ "  ") "dim cyan"]
    "HEAVY" "cyan" (0, 1)%Z.

(** [build_footer()]. *)
Definition build_footer : Panel :=
  MkPanel
    [MkText "  Deltas: " "dim";
     MkText "▲ up " "green";
     MkText "▼ down " "red";
     MkText "  Prices = probability in cents  " "dim";
     MkText "  [Ctrl-C] quit" "dim bright_black"]
    "SIMPLE" "bright_black" (0, 0)%Z.

(** What [render] returns: the panel of the markup
    [[red]No data available.[/]], or the group of header, table and
    footer. *)
Inductive renderable : Type :=
  | NoData (markup : string)
  | Group (header : Panel) (table : list (list cell)) (footer : Panel).

(** [render(limit)], given the time stamp, the answer of the upstream
    process and the width of the console. *)
Definition render (limit : Z) (stamp : string) (out : completed)
    (console_width : Z) : Result renderable :=
  events ← fetch_events limit out;
  match events with
  | [] => Ok (NoData "[red]No data available.[/]")
  | _ =>
      table ← build_table console_width events;
      mret (Group (build_header (length events) stamp) table build_footer)
  end.

End WithBuiltins.

End Dashboard.

(** ** The web server ([server.py]) *)

Module Server.
Import PyFloat Py.

Local Open Scope string_scope.

(** [{"text": ..., "direction": ...}]. *)
Record delta_json : Type := DeltaJson {
  text : string;
  direction : string;
}.

(** The dict [_all_contenders] keeps per market. *)
Record web_contender : Type := WebContender {
  name : pyval;
  yes : float;
  delta : pyval;
  endDate : pyval;
}.

(** What [top_contenders] keeps of such a dict: all but the end date. *)
Definition terminal_view (c : web_contender) : Dashboard.contender :=
  Dashboard.Contender (name c) (yes c) (delta c).

(** A contender object of the API response. *)
Record api_contender : Type := ApiContender {
  c_name : pyval;
  c_price : string;
  c_delta : delta_json;
  c_endDate : pyval;
}.

(** An event object of the API response. *)
Record api_event : Type := ApiEvent {
  e_rank : nat;
  e_title : pyval;
  e_volume : string;
  e_volume24h : string;
  e_volumeRaw : float;
  e_volume24hRaw : float;
  e_endDate : pyval;
  e_contenderCount : nat;
  e_contenders : list api_contender;
}.

(** The response document [{"ts", "ttl", "events"}]. *)
Record payload : Type := Payload {
  p_ts : string;
  p_ttl : Z;
  p_events : list api_event;
}.

Definition flat_json : delta_json := DeltaJson "—" "flat".

(** [x < z] for a float [x] and an integer [z], which Python decides
    on the exact values. *)
Definition flt_int (x : float) (z : Z) : bool :=
  match x with
  | S754_nan => false
  | S754_infinity s => s
  | S754_zero _ => (0 <? z)%Z
  | S754_finite s m e =>
      let sm := if s then Zneg m else Zpos m in
      match e with
      | Zneg p => (sm <? z * Zpos (Pos.pow 2 p))%Z
      | _ => (sm * 2 ^ e <? z)%Z
      end
  end.

(** The query parameter [limit] as the request carries it. *)
Inductive limit_param : Type :=
  | Absent
  | Given (n : Z)
  | NotAnInteger.

Inductive response (A : Type) : Type :=
  | Http200 (body : A)
  | Http422
  | Http500 (e : exn).
Arguments Http200 {A} body.
Arguments Http422 {A}.
Arguments Http500 {A} e.

Section WithBuiltins.
Context (B : builtins).

(** [CACHE_TTL], read from the environment when the module loads. *)
Context (CACHE_TTL : Z).

(** [fmt_delta_plain(delta)]. *)
Definition fmt_delta_plain (delta : pyval) : Result delta_json :=
  match delta with
  | PNone => Ok flat_json
  | _ =>
      oc ← Dashboard.delta_cents B delta;
      match oc with
      | None => Ok flat_json
      | Some cents =>
          if Dashboard.below_noise cents then Ok flat_json
          else
            let direction := if fltb (of_Z 0) cents then "up" else "down" in
            Ok (DeltaJson (Dashboard.delta_text cents) direction)
      end
  end.

(** One turn of the loop of [_all_contenders]; its [try] block is the
    one of [top_contenders]. *)
Definition parse_market (m : pyval) : Result web_contender :=
  y ← Dashboard.yes_of_market B m;
  git ← py_get m "groupItemTitle";
  q ← py_get m "question";
  d ← py_get m "oneDayPriceChange";
  iso ← py_get m "endDateIso";
  ed ← py_get m "endDate";
  mret (WebContender (py_or (py_or git q) (PStr "?")) y d
                     (py_or (py_or iso ed) (PStr ""))).

(** The list [parsed] when the loop ends. *)
Definition parsed_contenders (event : pyval) : Result (list web_contender) :=
  ms ← py_get event "markets";
  markets ← py_iter (py_or ms (PList []));
  mapM parse_market markets.

(** [_all_contenders(event)]. *)
Definition _all_contenders (event : pyval) : Result (list web_contender) :=
  parsed ← parsed_contenders event;
  mret (sort_reverse yes parsed).

(** One element of the list comprehension of [events_to_json]. *)
Definition contender_json (c : web_contender) : Result api_contender :=
  let price := if fltb (of_Z 0) (yes c)
               then Dashboard.fmt_price_cents (yes c) else "" in
  d ← fmt_delta_plain (delta c);
  mret (ApiContender (name c) price d (endDate c)).

(** [float(v)] under [except (ValueError, TypeError)] with 0.0. *)
Definition float_or_zero (v : pyval) : Result float :=
  try_except (py_float B v) [ValueError; TypeError] (Ok (S754_zero false)).

(** The object appended for the event of rank [idx]. *)
Definition event_json (idx : nat) (event : pyval) : Result api_event :=
  contenders_raw ← _all_contenders event;
  contenders ← mapM contender_json contenders_raw;
  vnum ← py_get event "volumeNum";
  vol ← py_get event "volume";
  volume_raw ← float_or_zero (py_or (py_or vnum vol) (PInt 0));
  vol24 ← py_get event "volume24hr";
  volume24h_raw ← float_or_zero (py_or vol24 (PInt 0));
  title ← py_get event "title";
  fv ← Dashboard.fmt_vol B vol;
  fv24 ← Dashboard.fmt_vol B vol24;
  iso ← py_get event "endDateIso";
  ed ← py_get event "endDate";
  mret (ApiEvent idx (py_or title (PStr "?")) fv fv24
                 volume_raw volume24h_raw
                 (py_or (py_or iso ed) (PStr ""))
                 (length contenders_raw) contenders).

(** [events_to_json(events)]; [ts] is the formatted current time. *)
Definition events_to_json (ts : string) (events : list pyval)
  : Result payload :=
  result ← mapM (fun ie => event_json (S (fst ie)) (snd ie))
                (imap pair events);
  mret (Payload ts CACHE_TTL result).

(** *** The cache *)

(** [_cache] and the number of upstream invocations made so far. *)
Record world : Type := World {
  cache : gmap Z (float * list pyval);
  runs : nat;
}.

(** The test [limit in _cache] followed by [now - ts < CACHE_TTL]: the
    data to return without fetching, if any. *)
Definition lookup_fresh (c : gmap Z (float * list pyval))
    (limit : Z) (now : float) : option (list pyval) :=
  match c !! limit with
  | Some (ts, data) =>
      if flt_int (fsub now ts) CACHE_TTL then Some data else None
  | None => None
  end.

(** [get_events(limit)] run from its call to its return with no other
    task in between. [now] is what [time.monotonic()] gave, [out] what
    the upstream process returns if it is run. *)
Definition get_events (limit : Z) (now : float) (out : Dashboard.completed)
    (w : world) : Result (list pyval) * world :=
  match lookup_fresh (cache w) limit now with
  | Some data => (Ok data, w)
  | None =>
      match Dashboard.fetch_events B limit out with
      | Ok data =>
          (Ok data, World (<[limit := (now, data)]> (cache w)) (S (runs w)))
      | Raise e => (Raise e, World (cache w) (S (runs w)))
      end
  end.

(** *** Concurrent callers

    The server runs its coroutines on one event loop: a coroutine runs
    alone from one [await] to the next. [get_events] awaits twice, on
    [_cache_lock] and on the executor that runs [fetch_events]. *)

(** Where a call of [get_events] stands. *)
Inductive task : Type :=
  | Waiting (limit : Z) (now : float)   (* queued on [_cache_lock] *)
  | Fetching (limit : Z) (now : float)  (* holds the lock, awaits the executor *)
  | Returned (r : Result (list pyval)).

(** The module state with the calls in progress: the tasks by
    identifier, the holder of the lock and its queue of waiters. *)
Record server : Type := ServerState {
  s_cache : gmap Z (float * list pyval);
  s_runs : nat;
  s_holder : option nat;
  s_waiters : list nat;
  s_tasks : gmap nat task;
}.

Definition initial : server := ServerState ∅ 0 None [] ∅.

(** What the loop can do next: start a call (which reads the clock),
    resume the first waiter of a released lock, or resume the holder
    with the output of the upstream process. *)
Inductive action : Type :=
  | Call (t : nat) (limit : Z) (now : float)
  | Wake
  | FetchDone (t : nat) (out : Dashboard.completed).

(** Task [t] has the lock: the body of [async with] up to its first
    [await]. A fresh entry is returned and the lock released at once;
    otherwise the fetch is handed to the executor and the lock kept. *)
Definition enter (t : nat) (limit : Z) (now : float) (s : server) : server :=
  match lookup_fresh (s_cache s) limit now with
  | Some data =>
      ServerState (s_cache s) (s_runs s) None (s_waiters s)
                  (<[t := Returned (Ok data)]> (s_tasks s))
  | None =>
      ServerState (s_cache s) (S (s_runs s)) (Some t) (s_waiters s)
                  (<[t := Fetching limit now]> (s_tasks s))
  end.

(** [asyncio.Lock.acquire] takes the lock at once only when it is free
    and nobody is queued. *)
Definition lock_free (s : server) : bool :=
  match s_holder s, s_waiters s with
  | None, [] => true
  | _, _ => false
  end.

Definition step (a : action) (s : server) : option server :=
  match a with
  | Call t limit now =>
      match s_tasks s !! t with
      | Some _ => None
      | None =>
          if lock_free s then Some (enter t limit now s)
          else Some (ServerState (s_cache s) (s_runs s) (s_holder s)
                                 (s_waiters s ++ [t])
                                 (<[t := Waiting limit now]> (s_tasks s)))
      end
  | Wake =>
      match s_holder s, s_waiters s with
      | None, t :: ws =>
          match s_tasks s !! t with
          | Some (Waiting limit now) =>
              Some (enter t limit now
                      (ServerState (s_cache s) (s_runs s) None ws (s_tasks s)))
          | _ => None
          end
      | _, _ => None
      end
  | FetchDone t out =>
      match s_tasks s !! t with
      | Some (Fetching limit now) =>
          match Dashboard.fetch_events B limit out with
          | Ok data =>
              Some (ServerState (<[limit := (now, data)]> (s_cache s))
                                (s_runs s) None (s_waiters s)
                                (<[t := Returned (Ok data)]> (s_tasks s)))
          | Raise e =>
              Some (ServerState (s_cache s) (s_runs s) None (s_waiters s)
                                (<[t := Returned (Raise e)]> (s_tasks s)))
          end
      | _ => None
      end
  end.

(** The states the server can be in. *)
Inductive reachable : server -> Prop :=
  | reachable_initial : reachable initial
  | reachable_step a s s' :
      reachable s -> step a s = Some s' -> reachable s'.

(** Running a list of actions; [None] when one of them is not enabled. *)
Fixpoint run (acts : list action) (s : server) : option server :=
  match acts with
  | [] => Some s
  | a :: acts' =>
      match step a s with
      | Some s' => run acts' s'
      | None => None
      end
  end.

Definition fetching (s : server) (t : nat) (limit : Z) : Prop :=
  exists now, s_tasks s !! t = Some (Fetching limit now).

(** What every reachable state satisfies: a task that awaits the
    executor holds the lock, and the queue of the lock lists, each
    once, tasks that wait. *)
Definition consistent (s : server) : Prop :=
  (forall t limit now,
      s_tasks s !! t = Some (Fetching limit now) -> s_holder s = Some t)
  /\ NoDup (s_waiters s)
  /\ (forall t, t ∈ s_waiters s ->
       exists limit now, s_tasks s !! t = Some (Waiting limit now)).

(** The converse bookkeeping: the holder of the lock awaits the
    executor, and a task that waits is in the queue. *)
Definition orderly (s : server) : Prop :=
  (forall t, s_holder s = Some t ->
     exists limit now, s_tasks s !! t = Some (Fetching limit now))
  /\ (forall t limit now,
       s_tasks s !! t = Some (Waiting limit now) -> t ∈ s_waiters s).

(** Every call made so far in [s] has returned in [s']. *)
Definition all_returned (s s' : server) : Prop :=
  forall t, is_Some (s_tasks s !! t) ->
    exists r, s_tasks s' !! t = Some (Returned r).

(** The action resumes a call in progress, the upstream answering
    [out]; it starts no new call. *)
Definition resumes (out : Dashboard.completed) (a : action) : Prop :=
  a = Wake \/ exists t, a = FetchDone t out.

(** The queued call [t], made at [now] for the key [k], is still to
    be served from the entry [(ts, data)]: the entry is in the cache
    and fresh for it, the holder of the lock does not fetch for [k],
    and the calls for [k] ahead of it in the queue find the entry
    fresh as well. *)
Definition awaits_entry (k : Z) (ts : float) (data : list pyval)
    (t : nat) (now : float) (s : server) : Prop :=
  s_tasks s !! t = Some (Waiting k now)
  /\ flt_int (fsub now ts) CACHE_TTL = true
  /\ s_cache s !! k = Some (ts, data)
  /\ (forall h l n, s_holder s = Some h ->
        s_tasks s !! h = Some (Fetching l n) -> l <> k)
  /\ exists pre post,
       s_waiters s = (pre ++ t :: post)%list
       /\ forall u n, u ∈ pre -> s_tasks s !! u = Some (Waiting k n) ->
            flt_int (fsub n ts) CACHE_TTL = true.

(** The number of calls of [get_events] among the actions. *)
Fixpoint calls (acts : list action) : nat :=
  match acts with
  | [] => 0
  | Call _ _ _ :: acts' => S (calls acts')
  | _ :: acts' => calls acts'
  end.

(** *** The endpoint [GET /api/events] *)

(** [limit: int = Query(10, ge=1, le=100)]: the framework supplies the
    default and answers 422 to a value that breaks a constraint. *)
Definition validate_limit (q : limit_param) : option Z :=
  match q with
  | Absent => Some 10%Z
  | Given n => if ((1 <=? n) && (n <=? 100))%Z then Some n else None
  | NotAnInteger => None
  end.

(** The body of [api_events] on an accepted limit; an exception
    becomes the status 500. *)
Definition serve_events (limit : Z) (now : float)
    (out : Dashboard.completed) (ts : string) (w : world)
  : response payload * world :=
  let '(r, w') := get_events limit now out w in
  match r ≫= events_to_json ts with
  | Ok body => (Http200 body, w')
  | Raise e => (Http500 e, w')
  end.

(** [api_events]: the handler runs on a validated limit only. *)
Definition api_events (q : limit_param) (now : float)
    (out : Dashboard.completed) (ts : string) (w : world)
  : response payload * world :=
  match validate_limit q with
  | None => (Http422, w)
  | Some limit => serve_events limit now out ts w
  end.

End WithBuiltins.

End Server.

(** ** Sample data

    Concrete built-ins and inputs for the examples: a decoder that
    knows the texts used below and rejects the one malformed text. *)

Module Samples.
Import PyFloat Py.

Local Open Scope string_scope.

Fixpoint lookup_text {A} (tbl : list (string * A)) (s : string) : option A :=
  match tbl with
  | [] => None
  | (k, v) :: tbl' => if String.eqb s k then Some v else lookup_text tbl' s
  end.

(** The double quote, for JSON texts. *)
Definition dq : string := String (ascii_of_N 34) EmptyString.

Definition half : float := of_decimal 5 (-1).
Definition three_tenths : float := of_decimal 3 (-1).
Definition nine_tenths : float := of_decimal 9 (-1).

(** The upstream output [[{"volume": "abc"}]]. *)
Definition bad_volume_stdout : string :=
  "[{" ++ dq ++ "volume" ++ dq ++ ": " ++ dq ++ "abc" ++ dq ++ "}]".

(** The upstream output [[{"volume": 5}]]. *)
Definition one_event_stdout : string :=
  "[{" ++ dq ++ "volume" ++ dq ++ ": 5}]".

Definition one_event : Dashboard.completed :=
  Dashboard.Completed 0 one_event_stdout "".

(** The text of [n] opening brackets; a thousand of them are nested
    too deep for [json.loads]. *)
Fixpoint brackets (n : nat) : string :=
  match n with
  | O => EmptyString
  | S n' => String "[" (brackets n')
  end.

Definition deep_text : string := brackets 1000.

(** JSON texts with what [json.loads] returns for them; ["oops"], not
    listed, is not JSON. *)
Definition json_table : list (string * pyval) :=
  [ ("[0,1]", PList [PInt 0; PInt 1]);
    ("[0.3, 0.7]", PList [PFloat three_tenths; PFloat (of_decimal 7 (-1))]);
    ("[0.5, 0.5]", PList [PFloat half; PFloat half]);
    ("[0.9, 0.1]", PList [PFloat nine_tenths; PFloat (of_decimal 1 (-1))]);
    ("[NaN, 1]", PList [PFloat S754_nan; PInt 1]);
    ("[null]", PList [PNone]);
    ("{}", PDict []);
    ("[]", PList []);
    (bad_volume_stdout, PList [PDict [("volume", PStr "abc")]]);
    (one_event_stdout, PList [PDict [("volume", PInt 5)]]) ].

(** Strings with the float they denote; ["abc"], not listed, denotes
    none. *)
Definition float_table : list (string * float) :=
  [ ("0.5", half); ("2500", of_Z 2500) ].

Definition sample_loads (s : string) : Result pyval :=
  match lookup_text json_table s with
  | Some v => Ok v
  | None => if String.eqb s deep_text then Raise RecursionError
            else Raise JSONDecodeError
  end.

Definition sample_builtins : builtins :=
  Builtins sample_loads (lookup_text float_table) (fun _ => "<object>").

Definition market (title prices : string) : pyval :=
  PDict [("groupItemTitle", PStr title); ("outcomePrices", PStr prices)].

(** An event with six markets: two pairs tie, one has no price list and
    one a malformed one. *)
Definition sample_event : pyval :=
  PDict [("title", PStr "Sample");
         ("volume", PInt 2500);
         ("markets",
          PList [market "A" "[0.3, 0.7]";
                 market "B" "[0.5, 0.5]";
                 market "C" "[0.3, 0.7]";
                 PDict [("groupItemTitle", PStr "D")];
                 market "E" "[0.9, 0.1]";
                 market "F" "oops"])].


(** An event whose first market has the price list [[null]]. *)
Definition null_price_event : pyval :=
  PDict [("title", PStr "Broken");
         ("markets", PList [market "A" "[null]"; market "B" "[0.5, 0.5]"])].



Definition zero : float := S754_zero false.

(** Three calls for the key 10, one second apart, and two calls for
    the keys 10 and 20 at the same time, on a fresh server with a TTL
    of 30 seconds. *)
Definition same_key_calls : list Server.action :=
  [Server.Call 1 10 (of_Z 0); Server.Call 2 10 (of_Z 1);
   Server.Call 3 10 (of_Z 2)].

Definition two_key_calls : list Server.action :=
  [Server.Call 1 10 (of_Z 0); Server.Call 2 20 (of_Z 0)].

(** Three calls, one second apart, for the keys 10, 20 and 10. *)
Definition mixed_key_calls : list Server.action :=
  [Server.Call 1 10 (of_Z 0); Server.Call 2 20 (of_Z 1);
   Server.Call 3 10 (of_Z 2)].

Definition ttl : Z := 30.

Definition after (acts : list Server.action) : option Server.server :=
  Server.run sample_builtins ttl acts Server.initial.

(** The state the calls lead to. *)
Definition state_after (acts : list Server.action) : Server.server :=
  default Server.initial (after acts).



End Samples.

(** * Properties *)

(** ** The layout *)

Lemma total_width_min (k : Z) :
  Layout.total_width k Layout.MIN_NAME_W = 60 + 23 * k.
Proof. unfold Layout.total_width, Layout.MIN_NAME_W, Layout.FIXED_COLS_W,
  Layout.PRICE_W, Layout.DELTA_W. lia. Qed.

(** The count the search settles on, by the width. *)
Lemma first_fit_cases (W : Z) :
  let n := Layout.first_fit W Layout.candidate_counts in
  (n = 0 /\ W < 83)
  \/ (1 <= n <= 5 /\ 60 + 23 * n <= W /\ (n < 5 -> W < 60 + 23 * (n + 1))).
Proof.
  cbv zeta. unfold Layout.candidate_counts. simpl.
  rewrite !total_width_min.
  repeat (match goal with
          | |- context [?a <=? ?b] => destruct (Z.leb_spec a b)
          end; [right; lia|]).
  left; lia.
Qed.

(** C1: for every width the layout keeps between 1 and 5 contenders;
    when some count between 1 and 5 fits at the minimum name width, the
    table at the returned count and name width is no wider than the
    terminal, and no larger count up to 5 fits; below the width of a
    single contender the count is 1. *)
Theorem calc_layout_count_and_width (W : Z) :
  let r := Layout.calc_layout W in
  1 <= Layout.count_of r <= Layout.TOP_N_CONTENDERS
  /\ ((exists k, 1 <= k <= Layout.TOP_N_CONTENDERS
                 /\ Layout.total_width k Layout.MIN_NAME_W <= W)
      -> Layout.total_width (Layout.count_of r) (Layout.name_w_of r) <= W
         /\ forall k, Layout.count_of r < k <= Layout.TOP_N_CONTENDERS ->
                      W < Layout.total_width k Layout.MIN_NAME_W)
  /\ (W < Layout.total_width 1 Layout.MIN_NAME_W -> Layout.count_of r = 1).
Proof.
  pose proof (first_fit_cases W) as Hc. cbv zeta in Hc |- *.
  unfold Layout.calc_layout, Layout.count_of, Layout.name_w_of,
    Layout.TOP_N_CONTENDERS.
  set (n := Layout.first_fit W Layout.candidate_counts) in *.
  cbn [fst snd]. rewrite !total_width_min.
  destruct Hc as [[-> HW] | (Hn & HW & Hmax)].
  - cbn [Z.eqb]. split; [lia|]. split; [|reflexivity].
    intros (k & Hk & Hfit). rewrite total_width_min in Hfit. lia.
  - assert ((n =? 0) = false) as -> by lia.
    split; [lia|]. split; [|lia].
    intros _. split.
    + assert (Layout.total_width n
                (Layout.MIN_NAME_W + (W - (60 + 23 * n)) / n)
              = 60 + 23 * n + n * ((W - (60 + 23 * n)) / n)) as ->.
      { unfold Layout.total_width, Layout.MIN_NAME_W, Layout.FIXED_COLS_W,
          Layout.PRICE_W, Layout.DELTA_W. lia. }
      pose proof (Z.mul_div_le (W - (60 + 23 * n)) n). lia.
    + intros k Hk. rewrite total_width_min. lia.
Qed.

(** ** The order on floats *)

Section FloatOrder.
Import PyFloat.

Lemma SFcompare_rank (x y : float) :
  is_nan x = false -> is_nan y = false ->
  SFcompare x y = Some (lex_compare (rank x) (rank y)).
Proof.
  destruct x as [sx|sx| |sx mx ex], y as [sy|sy| |sy my ey];
    try discriminate; intros _ _; simpl;
    try (destruct sx; reflexivity); try (destruct sy; reflexivity);
    try (destruct sx, sy; reflexivity).
  destruct sx, sy; simpl; try reflexivity.
  rewrite Z.compare_opp, (Z.compare_antisym ey ex).
  destruct (ey ?= ex); reflexivity.
Qed.

Lemma lex_compare_le (a b : Z * Z * Z) :
  lex_compare a b <> Gt <-> lex_le a b.
Proof.
  destruct a as [[a1 a2] a3], b as [[b1 b2] b3]. simpl.
  destruct (Z.compare_spec a1 b1), (Z.compare_spec a2 b2),
    (Z.compare_spec a3 b3); split; intros; try congruence; try lia.
Qed.

Lemma lex_compare_lt (a b : Z * Z * Z) :
  lex_compare a b = Lt <-> ~ lex_le b a.
Proof.
  destruct a as [[a1 a2] a3], b as [[b1 b2] b3]. simpl.
  destruct (Z.compare_spec a1 b1), (Z.compare_spec a2 b2),
    (Z.compare_spec a3 b3); split; intros; try congruence; try lia.
Qed.

Lemma lex_compare_ge (a b : Z * Z * Z) :
  lex_compare a b <> Lt <-> lex_le b a.
Proof.
  destruct a as [[a1 a2] a3], b as [[b1 b2] b3]. simpl.
  destruct (Z.compare_spec a1 b1), (Z.compare_spec a2 b2),
    (Z.compare_spec a3 b3); split; intros; try congruence; try lia.
Qed.

Lemma lex_compare_eq (a b : Z * Z * Z) :
  lex_compare a b = Eq <-> a = b.
Proof.
  destruct a as [[a1 a2] a3], b as [[b1 b2] b3]. simpl.
  destruct (Z.compare_spec a1 b1), (Z.compare_spec a2 b2),
    (Z.compare_spec a3 b3); split; intros; try congruence; try lia;
    match goal with H : (_, _, _) = _ |- _ => inversion H; lia end.
Qed.

Lemma fleb_rank (x y : float) :
  is_nan x = false -> is_nan y = false ->
  fleb x y = true <-> lex_le (rank x) (rank y).
Proof.
  intros Hx Hy. unfold fleb, SFleb. rewrite (SFcompare_rank _ _ Hx Hy).
  rewrite <- lex_compare_le.
  destruct (lex_compare (rank x) (rank y)); split; congruence.
Qed.

Lemma fltb_rank (x y : float) :
  is_nan x = false -> is_nan y = false ->
  fltb x y = true <-> ~ lex_le (rank y) (rank x).
Proof.
  intros Hx Hy. unfold fltb, SFltb. rewrite (SFcompare_rank _ _ Hx Hy).
  rewrite <- lex_compare_lt.
  destruct (lex_compare (rank x) (rank y)); split; congruence.
Qed.

Lemma fltb_false_rank (x y : float) :
  is_nan x = false -> is_nan y = false ->
  fltb x y = false <-> lex_le (rank y) (rank x).
Proof.
  intros Hx Hy. unfold fltb, SFltb. rewrite (SFcompare_rank _ _ Hx Hy).
  rewrite <- lex_compare_ge.
  destruct (lex_compare (rank x) (rank y)); split; congruence.
Qed.

Lemma lex_le_trans (a b c : Z * Z * Z) :
  lex_le a b -> lex_le b c -> lex_le a c.
Proof.
  destruct a as [[a1 a2] a3], b as [[b1 b2] b3], c as [[c1 c2] c3].
  simpl. lia.
Qed.

Lemma lex_le_total (a b : Z * Z * Z) : lex_le a b \/ lex_le b a.
Proof.
  destruct a as [[a1 a2] a3], b as [[b1 b2] b3]. simpl. lia.
Qed.

(** A comparison with NaN is false. *)
Lemma fltb_nan_l (x y : float) : fltb x y = true -> is_nan x = false.
Proof. destruct x; [reflexivity..|discriminate|reflexivity]. Qed.

Lemma fltb_nan_r (x y : float) : fltb x y = true -> is_nan y = false.
Proof. destruct x, y; try reflexivity; discriminate. Qed.

Lemma SFeqb_nan_l (x y : float) : SFeqb x y = true -> is_nan x = false.
Proof. destruct x; [reflexivity..|discriminate|reflexivity]. Qed.

Lemma SFeqb_nan_r (x y : float) : SFeqb x y = true -> is_nan y = false.
Proof. destruct x, y; try reflexivity; discriminate. Qed.

Lemma SFeqb_rank (x y : float) :
  SFeqb x y = true -> rank x = rank y.
Proof.
  intros H. pose proof (SFeqb_nan_l _ _ H) as Hx.
  pose proof (SFeqb_nan_r _ _ H) as Hy.
  unfold SFeqb in H. rewrite (SFcompare_rank _ _ Hx Hy) in H.
  apply lex_compare_eq.
  destruct (lex_compare (rank x) (rank y)); congruence.
Qed.

(** Two floats equal to a third are not one below the other. *)
Lemma SFeqb_not_lt (v x y : float) :
  SFeqb v x = true -> SFeqb v y = true -> fltb x y = false.
Proof.
  intros Hx Hy. destruct (fltb x y) eqn:Hlt; [|reflexivity].
  apply fltb_rank in Hlt; eauto using SFeqb_nan_r.
  apply SFeqb_rank in Hx, Hy. exfalso. apply Hlt.
  rewrite <- Hx, <- Hy. destruct (lex_le_total (rank v) (rank v)); assumption.
Qed.

End FloatOrder.

(** ** The stable descending sort *)

Section SortLemmas.
Import PyFloat Py.
Context {A : Type} (key : A -> float).

Lemma insert_desc_Permutation (x : A) (l : list A) :
  Permutation (insert_desc key x l) (x :: l).
Proof.
  induction l as [|y l IH]; simpl; [reflexivity|].
  destruct (fltb (key x) (key y)); [|reflexivity].
  rewrite IH. apply perm_swap.
Qed.

Lemma sort_desc_Permutation (l : list A) : Permutation (sort_desc key l) l.
Proof.
  induction l as [|x l IH]; simpl; [reflexivity|].
  rewrite insert_desc_Permutation. now constructor.
Qed.

Lemma desc_trans (a b c : A) :
  is_nan (key a) = false -> is_nan (key b) = false ->
  is_nan (key c) = false -> desc key a b -> desc key b c -> desc key a c.
Proof.
  unfold desc. intros Ha Hb Hc Hab Hbc.
  apply fleb_rank in Hab, Hbc; try assumption.
  apply fleb_rank; try assumption. eapply lex_le_trans; eassumption.
Qed.

Lemma insert_desc_sorted (x : A) (l : list A) :
  is_nan (key x) = false -> no_nan key l ->
  StronglySorted (desc key) l -> StronglySorted (desc key) (insert_desc key x l).
Proof.
  intros Hx Hl Hs. induction Hs as [|y l Hs IH Hy]; simpl.
  - repeat constructor.
  - inversion Hl as [|? ? Hny Hl']; subst.
    destruct (fltb (key x) (key y)) eqn:Hlt.
    + constructor; [now apply IH|].
      rewrite insert_desc_Permutation. constructor; [|assumption].
      unfold desc. apply fleb_rank; try assumption.
      apply fltb_rank in Hlt; try assumption.
      destruct (lex_le_total (rank (key x)) (rank (key y))); tauto.
    + assert (desc key x y) as Hxy.
      { unfold desc. apply fleb_rank; try assumption.
        apply fltb_false_rank in Hlt; assumption. }
      constructor; [now constructor|].
      constructor; [assumption|].
      rewrite Forall_forall in Hy, Hl'. apply Forall_forall. intros z Hz.
      eapply desc_trans; eauto.
Qed.

Lemma sort_desc_sorted (l : list A) :
  no_nan key l -> non_increasing key (sort_desc key l).
Proof.
  induction 1 as [|x l Hx Hl IH]; simpl; [constructor|].
  apply insert_desc_sorted; [assumption| |assumption].
  unfold no_nan. rewrite sort_desc_Permutation. assumption.
Qed.

(** Inserting an element leaves the elements of any one key value in
    their order, the new one in front. *)
Lemma insert_desc_filter (v : float) (x : A) (l : list A) :
  with_key key v (insert_desc key x l) = with_key key v (x :: l).
Proof.
  induction l as [|y l IH]; [reflexivity|].
  simpl insert_desc. destruct (fltb (key x) (key y)) eqn:Hlt; [|reflexivity].
  simpl in *. rewrite IH.
  destruct (SFeqb v (key x)) eqn:Hx, (SFeqb v (key y)) eqn:Hy; try reflexivity.
  rewrite (SFeqb_not_lt v _ _ Hx Hy) in Hlt. discriminate.
Qed.

Lemma sort_desc_stable (v : float) (l : list A) :
  with_key key v (sort_desc key l) = with_key key v l.
Proof.
  induction l as [|x l IH]; [reflexivity|].
  simpl sort_desc. rewrite insert_desc_filter. simpl. now rewrite IH.
Qed.

Lemma StronglySorted_firstn (R : A -> A -> Prop) (n : nat) (l : list A) :
  StronglySorted R l -> StronglySorted R (firstn n l).
Proof.
  intros Hs. revert n. induction Hs as [|x l Hs IH Hx]; intros [|n]; simpl;
    try constructor; [apply IH|].
  rewrite Forall_forall in *. intros y Hy. apply Hx.
  rewrite <- (take_drop n l). apply elem_of_app. now left.
Qed.

Lemma filter_firstn_prefix (f : A -> bool) (n : nat) (l : list A) :
  List.filter f (firstn n l) `prefix_of` List.filter f l.
Proof.
  exists (List.filter f (skipn n l)).
  rewrite <- List.filter_app, firstn_skipn. reflexivity.
Qed.

End SortLemmas.

(** ** [list.sort] rearranges *)

Section ListSortFacts.
Import PyFloat Py.
Local Open Scope nat_scope.
Context {A : Type} (key : A -> float).

Lemma binary_insert_Permutation (s : list A) (x : A) :
  binary_insert key s x ≡ₚ x :: s.
Proof.
  unfold binary_insert.
  generalize (bisect key (S (length s)) s x 0 (length s)). intros pos.
  rewrite <- (take_drop pos s) at 3. solve_Permutation.
Qed.

Lemma binarysort_Permutation (rest s : list A) :
  binarysort key s rest ≡ₚ s ++ rest.
Proof.
  unfold binarysort. revert s.
  induction rest as [|x rest IH]; intros s; simpl.
  - now rewrite app_nil_r.
  - rewrite IH, binary_insert_Permutation. solve_Permutation.
Qed.

Lemma lo_loops_Permutation (fuel : nat) :
  (forall mg ac bc a b, (lo_straight key fuel mg ac bc a b).1 ≡ₚ a ++ b)
  /\ (forall mg a b, (lo_gallop key fuel mg a b).1 ≡ₚ a ++ b).
Proof.
  induction fuel as [|fuel [IHs IHg]]; [split; reflexivity|]. split.
  - intros mg ac bc [|x a'] [|y b']; try reflexivity.
    cbn [lo_straight]. destruct (islt key y x).
    + destruct b' as [|y' b'']; [simpl; solve_Permutation|].
      destruct (mg <=? S bc); simpl; rewrite ?IHs, ?IHg; solve_Permutation.
    + destruct a' as [|x' [|x'' a'']];
        try (simpl; solve_Permutation);
        destruct (mg <=? S ac); simpl; rewrite ?IHs, ?IHg;
        solve_Permutation.
  - intros mg a [|y b1]; [reflexivity|]. cbn [lo_gallop].
    generalize (settle mg). clear mg. intros mg.
    generalize (gallop_right key y a 0). intros k.
    pose proof (take_drop k a) as E. revert E.
    generalize (take k a). intros out1.
    destruct (drop k a) as [|x a2]; intros <-.
    + destruct k; [destruct b1|]; simpl; solve_Permutation.
    + assert (forall mg',
                (match b1 with
                 | [] => (out1 ++ y :: x :: a2, mg')
                 | _ :: _ =>
                     match gallop_left key x b1 0, drop (gallop_left key x b1 0) b1 with
                     | S _, [] =>
                         (out1 ++ y :: take (gallop_left key x b1 0) b1 ++ x :: a2, mg')
                     | _, _ =>
                         match a2 with
                         | [_] =>
                             (out1 ++ y :: take (gallop_left key x b1 0) b1
                                ++ x :: drop (gallop_left key x b1 0) b1 ++ a2, mg')
                         | _ =>
                             emit (out1 ++ y :: take (gallop_left key x b1 0) b1 ++ [x])
                               (if (MIN_GALLOP <=? k)
                                   || (MIN_GALLOP <=? gallop_left key x b1 0)
                                then lo_gallop key fuel mg' a2
                                       (drop (gallop_left key x b1 0) b1)
                                else lo_straight key fuel (S mg') 0 0 a2
                                       (drop (gallop_left key x b1 0) b1))
                         end
                     end
                 end).1 ≡ₚ (out1 ++ x :: a2) ++ y :: b1) as Hrest.
      { intros mg'. destruct b1 as [|y' b1']; [simpl; solve_Permutation|].
        generalize (gallop_left key x (y' :: b1') 0). intros k2.
        pose proof (take_drop k2 (y' :: b1')) as E. revert E.
        generalize (take k2 (y' :: b1')). intros out2.
        generalize (y' :: b1'). intros b1.
        destruct (drop k2 b1) as [|z b2]; intros <-.
        - destruct k2; [|simpl; solve_Permutation].
          destruct a2 as [|x' [|x'' a2']];
            try (simpl; solve_Permutation);
            destruct (_ || _); simpl; rewrite ?IHs, ?IHg; solve_Permutation.
        - destruct k2;
            (destruct a2 as [|x' [|x'' a2']];
             try (simpl; solve_Permutation);
             destruct (_ || _); simpl; rewrite ?IHs, ?IHg;
             solve_Permutation). }
      destruct k as [|k'].
      * apply Hrest.
      * destruct a2 as [|x' a2']; [simpl; solve_Permutation|]. apply Hrest.
Qed.

Lemma merge_lo_Permutation (mg : nat) (a b : list A) :
  (merge_lo key mg a b).1 ≡ₚ a ++ b.
Proof.
  unfold merge_lo. destruct b as [|y [|y' b1]]; simpl.
  - now rewrite app_nil_r.
  - solve_Permutation.
  - destruct a as [|x [|x' a']]; unfold emit; cbn [fst];
      rewrite ?(proj1 (lo_loops_Permutation _)); solve_Permutation.
Qed.


Lemma hi_loops_Permutation (fuel : nat) :
  (forall mg ac bc ra rb, (hi_straight key fuel mg ac bc ra rb).1 ≡ₚ ra ++ rb)
  /\ (forall mg ra rb, (hi_gallop key fuel mg ra rb).1 ≡ₚ ra ++ rb).
Proof.
  induction fuel as [|fuel [IHs IHg]]; [split; reflexivity|]. split.
  - intros mg ac bc [|x ra'] [|y rb']; try reflexivity.
    cbn [hi_straight]. destruct (islt key y x).
    + destruct ra' as [|x' ra''];
        [simpl; solve_Permutation|].
      destruct (mg <=? S ac); simpl; rewrite ?IHs, ?IHg; solve_Permutation.
    + destruct rb' as [|y' [|y'' rb'']];
        try (simpl; solve_Permutation);
        destruct (mg <=? S bc); simpl; rewrite ?IHs, ?IHg;
        solve_Permutation.
  - intros mg ra [|y rb1]; [reflexivity|]. cbn [hi_gallop].
    generalize (settle mg). clear mg. intros mg.
    generalize (length ra - gallop_right key y (rev ra) (length ra - 1)).
    intros k.
    pose proof (take_drop k ra) as E. revert E.
    generalize (take k ra). intros out1.
    destruct (drop k ra) as [|x ra2]; intros <-.
    + destruct k; [destruct rb1 as [|? [|? ?]]|]; simpl; solve_Permutation.
    + assert (forall mg',
                (match rb1 with
                 | [_] => (out1 ++ y :: (x :: ra2) ++ rb1, mg')
                 | _ =>
                     match length rb1
                           - gallop_left key x (rev rb1) (length rb1 - 1),
                           drop (length rb1
                                 - gallop_left key x (rev rb1) (length rb1 - 1))
                                rb1 with
                     | S _, [_] =>
                         (out1 ++ y :: take (length rb1
                                 - gallop_left key x (rev rb1) (length rb1 - 1)) rb1
                            ++ (x :: ra2)
                            ++ drop (length rb1
                                 - gallop_left key x (rev rb1) (length rb1 - 1)) rb1,
                          mg')
                     | S _, [] =>
                         (out1 ++ y :: take (length rb1
                                 - gallop_left key x (rev rb1) (length rb1 - 1)) rb1
                            ++ x :: ra2, mg')
                     | _, _ =>
                         match ra2 with
                         | [] =>
                             (out1 ++ y :: take (length rb1
                                 - gallop_left key x (rev rb1) (length rb1 - 1)) rb1
                                ++ x :: drop (length rb1
                                 - gallop_left key x (rev rb1) (length rb1 - 1)) rb1,
                              mg')
                         | _ =>
                             emit (out1 ++ y :: take (length rb1
                                 - gallop_left key x (rev rb1) (length rb1 - 1)) rb1
                                     ++ [x])
                               (if (MIN_GALLOP <=? k)
                                   || (MIN_GALLOP <=? length rb1
                                 - gallop_left key x (rev rb1) (length rb1 - 1))
                                then hi_gallop key fuel mg' ra2
                                       (drop (length rb1
                                 - gallop_left key x (rev rb1) (length rb1 - 1)) rb1)
                                else hi_straight key fuel (S mg') 0 0 ra2
                                       (drop (length rb1
                                 - gallop_left key x (rev rb1) (length rb1 - 1)) rb1))
                         end
                     end
                 end).1 ≡ₚ (out1 ++ x :: ra2) ++ y :: rb1) as Hrest.
      { intros mg'.
        generalize (length rb1 - gallop_left key x (rev rb1) (length rb1 - 1)).
        intros k2.
        assert (forall out2 rb2, out2 ++ rb2 = rb1 ->
                  (match k2, rb2 with
                   | S _, [_] => (out1 ++ y :: out2 ++ (x :: ra2) ++ rb2, mg')
                   | S _, [] => (out1 ++ y :: out2 ++ x :: ra2, mg')
                   | _, _ =>
                       match ra2 with
                       | [] => (out1 ++ y :: out2 ++ x :: rb2, mg')
                       | _ =>
                           emit (out1 ++ y :: out2 ++ [x])
                             (if (MIN_GALLOP <=? k) || (MIN_GALLOP <=? k2)
                              then hi_gallop key fuel mg' ra2 rb2
                              else hi_straight key fuel (S mg') 0 0 ra2 rb2)
                       end
                   end).1 ≡ₚ (out1 ++ x :: ra2) ++ y :: rb1) as Hin.
        { intros out2 rb2 <-.
          destruct k2 as [|k2']; [|destruct rb2 as [|? [|? ?]]];
            try (simpl; solve_Permutation);
            (destruct ra2 as [|x' ra2'];
             try (simpl; solve_Permutation);
             destruct (_ || _); simpl; rewrite ?IHs, ?IHg;
             solve_Permutation). }
        destruct rb1 as [|y' [|y'' rb1']]; [| simpl; solve_Permutation |];
          apply Hin, take_drop. }
      destruct k as [|k']; apply Hrest.
Qed.

Lemma merge_hi_Permutation (mg : nat) (a b : list A) :
  (merge_hi key mg a b).1 ≡ₚ a ++ b.
Proof.
  unfold merge_hi. generalize (length a + length b). intros fuel.
  destruct (rev a) as [|x ra1] eqn:Ha;
    apply (f_equal (@rev A)) in Ha; rewrite rev_involutive in Ha; subst a;
    [reflexivity|].
  destruct (rev b) as [|y rb1] eqn:Hb;
    apply (f_equal (@rev A)) in Hb; rewrite rev_involutive in Hb.
  - subst b. destruct ra1 as [|x' ra1']; cbn [fst];
      rewrite <- ?Permutation_rev;
      rewrite ?(proj1 (hi_loops_Permutation _)); solve_Permutation.
  - destruct ra1 as [|x' ra1']; [subst b; solve_Permutation|].
    destruct rb1 as [|y' rb1']; subst b; cbn [fst];
      rewrite <- ?Permutation_rev;
      rewrite ?(proj1 (hi_loops_Permutation _)); solve_Permutation.
Qed.

Lemma merge_at_Permutation (mg : nat) (a b : list A) :
  (merge_at key mg a b).1 ≡ₚ a ++ b.
Proof.
  unfold merge_at. destruct b as [|y b']; [now rewrite app_nil_r|].
  generalize (gallop_right key y a 0). intros k.
  destruct (last (drop k a)) as [z|]; [|reflexivity].
  generalize (gallop_left key z (y :: b') (length (y :: b') - 1)).
  generalize (y :: b'). clear y b'. intros b nb.
  destruct nb as [|nb]; [reflexivity|]. cbn [fst].
  assert ((if length (drop k a) <=? length (take (S nb) b)
           then merge_lo key mg (drop k a) (take (S nb) b)
           else merge_hi key mg (drop k a) (take (S nb) b)).1
          ≡ₚ drop k a ++ take (S nb) b) as ->.
  { destruct (_ <=? _);
      [apply merge_lo_Permutation|apply merge_hi_Permutation]. }
  rewrite <- (take_drop k a) at 3. rewrite <- (take_drop (S nb) b) at 3.
  solve_Permutation.
Qed.

Lemma stacked_cons (r : @run A) (stack : list (@run A)) :
  stacked (r :: stack) = stacked stack ++ r_items r.
Proof.
  unfold stacked. simpl. rewrite concat_app. simpl.
  now rewrite app_nil_r.
Qed.

Lemma collapse_power_Permutation (fuel p mg : nat) (stack : list (@run A)) :
  stacked (collapse_power key fuel p mg stack).1 ≡ₚ stacked stack.
Proof.
  revert mg stack. induction fuel as [|fuel IH]; intros mg stack;
    [reflexivity|].
  destruct stack as [|top [|below rest]]; try reflexivity.
  cbn [collapse_power]. destruct (p <? r_power below); [|reflexivity].
  rewrite IH, !stacked_cons. cbn [r_items].
  rewrite merge_at_Permutation. solve_Permutation.
Qed.

Lemma found_new_run_Permutation (n2 listlen mg : nat) (stack : list (@run A)) :
  stacked (found_new_run key n2 listlen mg stack).1 ≡ₚ stacked stack.
Proof.
  unfold found_new_run. destruct stack as [|top rest]; [reflexivity|].
  generalize (power (r_start top) (length (r_items top)) n2 listlen).
  intros p.
  rewrite <- (collapse_power_Permutation (length (top :: rest)) p mg
                (top :: rest)).
  destruct (collapse_power key (length (top :: rest)) p mg (top :: rest)).1
    as [|t rest']; [reflexivity|].
  cbn [fst]. rewrite !stacked_cons. reflexivity.
Qed.

Lemma force_collapse_Permutation (fuel mg : nat) (stack : list (@run A)) :
  stacked (force_collapse key fuel mg stack).1 ≡ₚ stacked stack.
Proof.
  revert mg stack. induction fuel as [|fuel IH]; intros mg stack;
    [reflexivity|].
  destruct stack as [|t [|s rest]]; try reflexivity.
  cbn [force_collapse]. destruct rest as [|u rest'].
  - rewrite IH, !stacked_cons. cbn [r_items].
    rewrite merge_at_Permutation. solve_Permutation.
  - destruct (_ <? _); rewrite IH, !stacked_cons; cbn [r_items];
      rewrite merge_at_Permutation; solve_Permutation.
Qed.

Lemma count_run_positive (x : A) (l : list A) :
  1 <= (count_run key (x :: l)).1.
Proof. destruct l; simpl; lia. Qed.

Lemma minrun_loop_positive (fuel n r : nat) :
  1 <= n -> 1 <= minrun_loop fuel n r.
Proof.
  revert n r. induction fuel as [|fuel IH]; intros n r Hn;
    cbn [minrun_loop]; [lia|].
  destruct (64 <=? n) eqn:H64; [|lia]. apply IH.
  apply Nat.leb_le in H64.
  change 1 with (2 / 2). apply Nat.Div0.div_le_mono. lia.
Qed.

Lemma runs_loop_Permutation (fuel minrun listlen : nat) :
  1 <= minrun ->
  forall (lo mg : nat) (stack : list (@run A)) (rem : list A),
    length rem <= fuel ->
    stacked (runs_loop key fuel minrun listlen lo mg stack rem).1
    ≡ₚ stacked stack ++ rem.
Proof.
  intros Hmin.
  induction fuel as [|fuel IH]; intros lo mg stack rem Hlen.
  - destruct rem; [|simpl in Hlen; lia]. simpl. now rewrite app_nil_r.
  - destruct rem as [|x rem']; [simpl; now rewrite app_nil_r|].
    cbn [runs_loop]. pose proof (count_run_positive x rem') as Hpos.
    assert (1 <= length (x :: rem')) as Hne by (simpl; lia).
    revert Hlen Hpos Hne.
    generalize (count_run key (x :: rem')). generalize (x :: rem').
    clear x rem'. intros rem [n descending] Hlen Hpos Hne. cbn [fst] in Hpos.
    set (force := Nat.min minrun (length rem)).
    set (n' := if n <? minrun then force else n).
    set (run0 := if descending then rev (take n rem) else take n rem).
    set (items := if n <? minrun
                  then binarysort key run0 (take (force - n) (drop n rem))
                  else run0).
    assert (items ++ drop n' rem ≡ₚ rem) as Hitems.
    { subst items n'.
      assert (run0 ≡ₚ take n rem) as Hrun0.
      { subst run0. destruct descending; [|reflexivity].
        symmetry. apply Permutation_rev. }
      destruct (n <? minrun) eqn:Hn.
      - rewrite binarysort_Permutation, Hrun0.
        apply Nat.ltb_lt in Hn.
        destruct (Nat.le_gt_cases n force) as [Hle|Hgt].
        + rewrite <- (take_drop n rem) at 4.
          rewrite <- (take_drop (force - n) (drop n rem)) at 2.
          rewrite drop_drop.
          replace (n + (force - n)) with force by lia. solve_Permutation.
        + replace (force - n) with 0 by lia. rewrite take_0, app_nil_r.
          assert (length rem <= force) as Hall by (subst force; lia).
          rewrite (drop_ge rem force Hall), app_nil_r.
          rewrite take_ge by lia. reflexivity.
      - rewrite Hrun0, take_drop. reflexivity. }
    assert (1 <= n') as Hn'.
    { subst n' force. destruct (n <? minrun); lia. }
    rewrite IH.
    + rewrite stacked_cons, found_new_run_Permutation. cbn [r_items].
      rewrite <- app_assoc, Hitems. reflexivity.
    + rewrite length_drop. lia.
Qed.

Lemma timsort_Permutation (l : list A) : timsort key l ≡ₚ l.
Proof.
  unfold timsort. destruct l as [|x [|y l]]; try reflexivity.
  assert (1 <= length (x :: y :: l)) as Hlen by (simpl; lia). revert Hlen.
  generalize (x :: y :: l). clear x y l. intros l Hlen.
  fold (stacked
          (force_collapse key
             (length (runs_loop key (length l)
                        (merge_compute_minrun (length l)) (length l) 0
                        MIN_GALLOP [] l).1)
             (runs_loop key (length l) (merge_compute_minrun (length l))
                (length l) 0 MIN_GALLOP [] l).2
             (runs_loop key (length l) (merge_compute_minrun (length l))
                (length l) 0 MIN_GALLOP [] l).1).1).
  rewrite force_collapse_Permutation, runs_loop_Permutation; [reflexivity| |lia].
  apply minrun_loop_positive, Hlen.
Qed.

End ListSortFacts.

(** ** [list.sort] on ordered keys *)

Section KeyOrder.
Import PyFloat Py.
Context {A : Type} (key : A -> float).

Lemma lex_le_refl (a : Z * Z * Z) : lex_le a a.
Proof. destruct a as [[a1 a2] a3]. simpl. lia. Qed.

Lemma fltb_nan_false_l (x y : float) : is_nan x = true -> fltb x y = false.
Proof.
  intros H. destruct (fltb x y) eqn:E; [|reflexivity].
  apply fltb_nan_l in E. congruence.
Qed.

Lemma fltb_nan_false_r (x y : float) : is_nan y = true -> fltb x y = false.
Proof.
  intros H. destruct (fltb x y) eqn:E; [|reflexivity].
  apply fltb_nan_r in E. congruence.
Qed.

Lemma islt_irrefl (x : A) : islt key x x = false.
Proof.
  unfold islt. destruct (is_nan (key x)) eqn:Hx.
  - now apply fltb_nan_false_l.
  - apply fltb_false_rank; [assumption..|]. apply lex_le_refl.
Qed.

Lemma islt_asym (x y : A) : islt key x y = true -> islt key y x = false.
Proof.
  unfold islt. intros H.
  pose proof (fltb_nan_l _ _ H) as Hx. pose proof (fltb_nan_r _ _ H) as Hy.
  apply fltb_rank in H; [|assumption..].
  apply fltb_false_rank; [assumption..|].
  destruct (lex_le_total (rank (key x)) (rank (key y))); tauto.
Qed.

(** [x <= y] and [y <= z] give [x <= z] when [y] is a number. *)
Lemma not_lt_trans (x y z : A) :
  is_nan (key y) = false ->
  islt key y x = false -> islt key z y = false -> islt key z x = false.
Proof.
  unfold islt. intros Hy H1 H2.
  destruct (is_nan (key x)) eqn:Hx; [now apply fltb_nan_false_r|].
  destruct (is_nan (key z)) eqn:Hz; [now apply fltb_nan_false_l|].
  apply fltb_false_rank in H1, H2; try assumption.
  apply fltb_false_rank; try assumption.
  eapply lex_le_trans; eassumption.
Qed.

(** [x <= y] and [y < z] give [x < z] when [x] is a number. *)
Lemma not_lt_lt_trans (x y z : A) :
  is_nan (key x) = false ->
  islt key y x = false -> islt key y z = true -> islt key x z = true.
Proof.
  unfold islt. intros Hx H1 H2.
  pose proof (fltb_nan_l _ _ H2) as Hy. pose proof (fltb_nan_r _ _ H2) as Hz.
  apply fltb_false_rank in H1; try assumption.
  apply fltb_rank in H2; try assumption.
  apply fltb_rank; try assumption.
  intros H. apply H2. eapply lex_le_trans; eassumption.
Qed.

(** [x < y] and [y <= z] give [x < z] when [z] is a number. *)
Lemma lt_not_lt_trans (x y z : A) :
  is_nan (key z) = false ->
  islt key x y = true -> islt key z y = false -> islt key x z = true.
Proof.
  unfold islt. intros Hz H1 H2.
  pose proof (fltb_nan_l _ _ H1) as Hx. pose proof (fltb_nan_r _ _ H1) as Hy.
  apply fltb_false_rank in H2; try assumption.
  apply fltb_rank in H1; try assumption.
  apply fltb_rank; try assumption.
  intros H. apply H1. eapply lex_le_trans; eassumption.
Qed.

Lemma islt_trans (x y z : A) :
  islt key x y = true -> islt key y z = true -> islt key x z = true.
Proof.
  intros H1 H2. eapply lt_not_lt_trans; [|exact H1|].
  - unfold islt in H2. eapply fltb_nan_r, H2.
  - now apply islt_asym.
Qed.

End KeyOrder.

Section Searches.
Import PyFloat Py.
Local Open Scope nat_scope.
Context {A : Type} (key : A -> float).

(** A run that does not decrease splits at every key: the elements
    that are not above it, then those that are. *)
Lemma split_not_above (y : A) (a : list A) :
  non_decreasing key a -> no_nan key a ->
  exists p q, a = p ++ q
    /\ Forall (fun x => islt key y x = false) p
    /\ Forall (fun x => islt key y x = true) q.
Proof.
  intros Hs Hn. induction Hs as [|x a Hs IH Hx].
  - exists [], []. repeat split; constructor.
  - apply Forall_cons in Hn as [Hnx Hn].
    destruct (islt key y x) eqn:E.
    + exists [], (x :: a). repeat split; [constructor|].
      constructor; [exact E|].
      rewrite Forall_forall in Hx, Hn. apply Forall_forall. intros x' Hin.
      eapply lt_not_lt_trans; [|exact E|]; [apply Hn|apply Hx]; exact Hin.
    + destruct (IH Hn) as (p & q & -> & Hp & Hq).
      exists (x :: p), q. repeat split; [|exact Hq].
      constructor; assumption.
Qed.

(** The elements below a key, then those that are not. *)
Lemma split_below (x : A) (b : list A) :
  non_decreasing key b -> no_nan key b ->
  exists p q, b = p ++ q
    /\ Forall (fun y => islt key y x = true) p
    /\ Forall (fun y => islt key y x = false) q.
Proof.
  intros Hs Hn. induction Hs as [|y b Hs IH Hy].
  - exists [], []. repeat split; constructor.
  - apply Forall_cons in Hn as [Hny Hn].
    destruct (islt key y x) eqn:E.
    + destruct (IH Hn) as (p & q & -> & Hp & Hq).
      exists (y :: p), q. repeat split; [|exact Hq].
      constructor; assumption.
    + exists [], (y :: b). repeat split; [constructor|].
      constructor; [exact E|].
      rewrite Forall_forall in Hy. apply Forall_forall. intros y' Hin.
      eapply not_lt_trans; [exact Hny|exact E|]. apply Hy, Hin.
Qed.

Lemma before_at_split (P : A -> bool) (p q : list A) (i : nat) :
  Forall (fun x => P x = true) p -> Forall (fun x => P x = false) q ->
  before_at P (p ++ q) i = (i <? length p).
Proof.
  intros Hp Hq. unfold before_at.
  destruct (Nat.ltb_spec i (length p)) as [Hi|Hi].
  - rewrite lookup_app_l by exact Hi.
    destruct (lookup_lt_is_Some_2 p i Hi) as [x Hx]. rewrite Hx.
    rewrite Forall_lookup in Hp. exact (Hp _ _ Hx).
  - rewrite lookup_app_r by exact Hi.
    destruct (q !! (i - length p)) as [x|] eqn:Hx; [|reflexivity].
    rewrite Forall_lookup in Hq. exact (Hq _ _ Hx).
Qed.

Section Monotone.
Context (P : A -> bool) (a : list A) (c : nat).
Hypothesis step : forall i, before_at P a i = (i <? c).
Hypothesis bound : c <= length a.

Lemma narrow_found (fuel lo hi : nat) :
  lo <= c <= hi -> hi - lo <= fuel -> narrow fuel P a lo hi = c.
Proof.
  revert lo hi. induction fuel as [|fuel IH]; intros lo hi Hc Hf.
  - simpl. lia.
  - cbn [narrow]. destruct (Nat.ltb_spec lo hi) as [Hlt|Hge]; [|lia].
    assert (lo <= lo + (hi - lo) / 2 < hi) as Hm.
    { split; [lia|]. assert ((hi - lo) / 2 < hi - lo); [|lia].
      apply Nat.div_lt; lia. }
    rewrite step. destruct (Nat.ltb_spec (lo + (hi - lo) / 2) c).
    + apply IH; lia.
    + apply IH; lia.
Qed.

Lemma gallop_ofs_right (hint fuel lastofs ofs : nat) :
  hint < length a ->
  lastofs < ofs -> hint + lastofs < c ->
  length a - hint < fuel + ofs ->
  let r := gallop_ofs fuel (fun o => before_at P a (hint + o))
             (length a - hint) lastofs ofs in
  r.1 + hint + 1 <= c <= Nat.min r.2 (length a - hint) + hint.
Proof.
  intros Hh. revert lastofs ofs.
  induction fuel as [|fuel IH]; intros lastofs ofs Hlt Hl Hf; cbn [gallop_ofs].
  - simpl. lia.
  - destruct (Nat.ltb_spec ofs (length a - hint)) as [Ho|Ho]; cbn [andb].
    + rewrite step. destruct (Nat.ltb_spec (hint + ofs) c).
      * apply IH; lia.
      * simpl. lia.
    + simpl. lia.
Qed.

Lemma gallop_ofs_left (hint fuel lastofs ofs : nat) :
  lastofs < ofs -> lastofs <= hint -> c <= hint - lastofs ->
  hint + 1 < fuel + ofs ->
  let r := gallop_ofs fuel (fun o => negb (before_at P a (hint - o)))
             (hint + 1) lastofs ofs in
  hint + 1 - Nat.min r.2 (hint + 1) <= c <= hint - r.1.
Proof.
  revert lastofs ofs.
  induction fuel as [|fuel IH]; intros lastofs ofs Hlt Hle Hl Hf;
    cbn [gallop_ofs].
  - simpl. lia.
  - destruct (Nat.ltb_spec ofs (hint + 1)) as [Ho|Ho]; cbn [andb].
    + rewrite step. destruct (Nat.ltb_spec (hint - ofs) c); cbn [negb].
      * simpl. lia.
      * apply IH; lia.
    + simpl. lia.
Qed.

Lemma gallop_found (hint : nat) : hint < length a -> gallop P a hint = c.
Proof.
  intros Hh. unfold gallop. rewrite step.
  destruct (Nat.ltb_spec hint c) as [Hc|Hc].
  - pose proof (gallop_ofs_right hint (S (length a)) 0 1 Hh) as H.
    cbv zeta in H.
    destruct (gallop_ofs _ _ _ _ _) as [lastofs ofs]. simpl in H.
    apply narrow_found; lia.
  - pose proof (gallop_ofs_left hint (S (length a)) 0 1) as H.
    cbv zeta in H.
    destruct (gallop_ofs _ _ _ _ _) as [lastofs ofs]. simpl in H.
    apply narrow_found; lia.
Qed.

End Monotone.

Lemma gallop_split (P : A -> bool) (p q : list A) (hint : nat) :
  Forall (fun x => P x = true) p -> Forall (fun x => P x = false) q ->
  hint < length (p ++ q) -> gallop P (p ++ q) hint = length p.
Proof.
  intros Hp Hq Hh. apply gallop_found; [|rewrite length_app; lia|exact Hh].
  intros i. now apply before_at_split.
Qed.

Lemma gallop_right_split (y : A) (p q : list A) (hint : nat) :
  Forall (fun x => islt key y x = false) p ->
  Forall (fun x => islt key y x = true) q ->
  hint < length (p ++ q) -> gallop_right key y (p ++ q) hint = length p.
Proof.
  intros Hp Hq Hh. unfold gallop_right. apply gallop_split; [| |exact Hh].
  - eapply Forall_impl; [exact Hp|]. intros x Hx. cbv beta. now rewrite Hx.
  - eapply Forall_impl; [exact Hq|]. intros x Hx. cbv beta. now rewrite Hx.
Qed.

Lemma gallop_left_split (x : A) (p q : list A) (hint : nat) :
  Forall (fun y => islt key y x = true) p ->
  Forall (fun y => islt key y x = false) q ->
  hint < length (p ++ q) -> gallop_left key x (p ++ q) hint = length p.
Proof. intros Hp Hq Hh. unfold gallop_left. now apply gallop_split. Qed.

Lemma bisect_found (a : list A) (pivot : A) (c fuel l r : nat) :
  (forall i, i < length a -> islt_at key pivot a i = negb (i <? c)) ->
  l <= c <= r -> l < r -> r <= length a -> r - l <= fuel ->
  bisect key fuel a pivot l r = c.
Proof.
  intros Hstep. revert l r.
  induction fuel as [|fuel IH]; intros l r Hc Hlt Hr Hf; [lia|].
  cbn [bisect].
  assert (l <= l + (r - l) / 2 < r) as Hm.
  { split; [lia|]. assert ((r - l) / 2 < r - l); [|lia].
    apply Nat.div_lt; lia. }
  rewrite Hstep by lia.
  destruct (Nat.ltb_spec (l + (r - l) / 2) c) as [Hp|Hp]; cbn [negb].
  - destruct (Nat.ltb_spec (S (l + (r - l) / 2)) r); [apply IH; lia|lia].
  - destruct (Nat.ltb_spec l (l + (r - l) / 2)); [apply IH; lia|lia].
Qed.

End Searches.

Section StableInsert.
Import PyFloat Py.
Local Open Scope nat_scope.
Context {A : Type} (key : A -> float).

Lemma upper_insert_split (x : A) (p q : list A) :
  Forall (fun y => islt key x y = false) p ->
  Forall (fun y => islt key x y = true) q ->
  upper_insert key x (p ++ q) = p ++ x :: q.
Proof.
  intros Hp Hq. induction Hp as [|y p Hy Hp IH].
  - destruct Hq as [|y q Hy Hq]; [reflexivity|]. simpl. now rewrite Hy.
  - simpl. now rewrite Hy, IH.
Qed.

Lemma upper_insert_last (x : A) (s : list A) :
  Forall (fun y => islt key x y = false) s ->
  upper_insert key x s = s ++ [x].
Proof.
  intros Hs. rewrite <- (app_nil_r s) at 1.
  apply upper_insert_split; [exact Hs|constructor].
Qed.

Lemma upper_insert_Permutation (x : A) (s : list A) :
  upper_insert key x s ≡ₚ x :: s.
Proof.
  induction s as [|y s IH]; [reflexivity|]. simpl.
  destruct (islt key x y); [reflexivity|]. rewrite IH. apply perm_swap.
Qed.

Lemma upper_insert_sorted (x : A) (s : list A) :
  no_nan key s ->
  non_decreasing key s -> non_decreasing key (upper_insert key x s).
Proof.
  intros Hn Hs. induction Hs as [|y s Hs IH Hy]; simpl.
  - repeat constructor.
  - apply Forall_cons in Hn as [Hny Hn]. destruct (islt key x y) eqn:E.
    + constructor; [now constructor|]. constructor; [now apply islt_asym|].
      rewrite Forall_forall in Hy, Hn. apply Forall_forall. intros y' Hin.
      apply islt_asym. eapply lt_not_lt_trans; [|exact E|];
        [apply Hn|apply Hy]; exact Hin.
    + constructor; [now apply IH|].
      rewrite upper_insert_Permutation. now constructor.
Qed.

Lemma upper_insert_no_nan (x : A) (s : list A) :
  is_nan (key x) = false -> no_nan key s ->
  no_nan key (upper_insert key x s).
Proof.
  intros Hx Hs. unfold no_nan. rewrite upper_insert_Permutation.
  now constructor.
Qed.

(** [binarysort] puts the next element where the stable sort wants
    it. *)
Lemma binary_insert_upper (s : list A) (x : A) :
  non_decreasing key s -> no_nan key s -> s <> [] ->
  binary_insert key s x = upper_insert key x s.
Proof.
  intros Hs Hn Hne.
  destruct (split_not_above key x s Hs Hn) as (p & q & -> & Hp & Hq).
  unfold binary_insert.
  rewrite (bisect_found key (p ++ q) x (length p)).
  - rewrite take_app_length, drop_app_length.
    symmetry. now apply upper_insert_split.
  - intros i Hi. unfold islt_at.
    destruct (Nat.ltb_spec i (length p)) as [Hip|Hip]; cbn [negb].
    + rewrite lookup_app_l by exact Hip.
      destruct (lookup_lt_is_Some_2 p i Hip) as [y Hy]. rewrite Hy.
      rewrite Forall_lookup in Hp. exact (Hp _ _ Hy).
    + rewrite lookup_app_r by exact Hip.
      rewrite length_app in Hi.
      destruct (lookup_lt_is_Some_2 q (i - length p)) as [y Hy]; [lia|].
      rewrite Hy. rewrite Forall_lookup in Hq. exact (Hq _ _ Hy).
  - rewrite length_app. lia.
  - destruct p, q; simpl; try lia. now exfalso.
  - lia.
  - lia.
Qed.

(** Two new elements of different keys go in either order. *)
Lemma upper_insert_swap (x t : A) (s : list A) :
  islt key x t = true ->
  upper_insert key t (upper_insert key x s)
  = upper_insert key x (upper_insert key t s).
Proof.
  intros Hxt. pose proof (islt_asym key _ _ Hxt) as Htx.
  induction s as [|r s IH]; simpl.
  - now rewrite Htx, Hxt.
  - destruct (islt key x r) eqn:Hxr.
    + simpl. rewrite Htx. destruct (islt key t r) eqn:Htr; simpl.
      * now rewrite Hxt.
      * now rewrite Hxr.
    + assert (islt key t r = false) as Htr.
      { destruct (islt key t r) eqn:Htr; [|reflexivity].
        rewrite (islt_trans key _ _ _ Hxt Htr) in Hxr. discriminate. }
      rewrite Htr. simpl. now rewrite Hxr, Htr, IH.
Qed.

(** The elements of [l] put into [s] one after the other. *)
Lemma sort_asc_app (u v : list A) :
  sort_asc key (u ++ v)
  = fold_left (fun s x => upper_insert key x s) v (sort_asc key u).
Proof. unfold sort_asc. apply fold_left_app. Qed.

Lemma sort_asc_snoc (l : list A) (x : A) :
  sort_asc key (l ++ [x]) = upper_insert key x (sort_asc key l).
Proof. now rewrite sort_asc_app. Qed.

Lemma inserts_Permutation (l s : list A) :
  fold_left (fun s x => upper_insert key x s) l s ≡ₚ s ++ l.
Proof.
  revert s. induction l as [|x l IH]; intros s; simpl.
  - now rewrite app_nil_r.
  - rewrite IH, upper_insert_Permutation. solve_Permutation.
Qed.

Lemma sort_asc_Permutation (l : list A) : sort_asc key l ≡ₚ l.
Proof. unfold sort_asc. now rewrite inserts_Permutation. Qed.

Lemma inserts_sorted (l s : list A) :
  no_nan key l -> no_nan key s -> non_decreasing key s ->
  non_decreasing key (fold_left (fun s x => upper_insert key x s) l s).
Proof.
  revert s. induction l as [|x l IH]; intros s Hl Hn Hs; simpl; [exact Hs|].
  apply Forall_cons in Hl as [Hx Hl]. apply IH; [exact Hl| |].
  - now apply upper_insert_no_nan.
  - now apply upper_insert_sorted.
Qed.

Lemma sort_asc_sorted (l : list A) :
  no_nan key l -> non_decreasing key (sort_asc key l).
Proof.
  intros Hl. apply inserts_sorted; [exact Hl|constructor|constructor].
Qed.

Lemma sort_asc_no_nan (l : list A) :
  no_nan key l -> no_nan key (sort_asc key l).
Proof. unfold no_nan. now rewrite sort_asc_Permutation. Qed.

(** A sorted list is left as it is. *)
Lemma inserts_sorted_app (t s : list A) :
  non_decreasing key (s ++ t) ->
  fold_left (fun s x => upper_insert key x s) t s = s ++ t.
Proof.
  revert s. induction t as [|y t IH]; intros s Hs; simpl.
  - now rewrite app_nil_r.
  - rewrite upper_insert_last.
    + rewrite IH; rewrite <- app_assoc; [reflexivity|exact Hs].
    + unfold non_decreasing in Hs. clear IH.
      induction s as [|r s IH]; [constructor|].
      simpl in Hs. apply StronglySorted_inv in Hs as [Hs Hr].
      constructor; [|now apply IH].
      rewrite Forall_app in Hr. destruct Hr as [_ Hr].
      now apply Forall_cons in Hr as [Hr _].
Qed.

Lemma sort_asc_sorted_id (t : list A) :
  non_decreasing key t -> sort_asc key t = t.
Proof. intros Ht. unfold sort_asc. now rewrite inserts_sorted_app. Qed.

Lemma inserts_above (x : A) (t s : list A) :
  Forall (fun y => islt key x y = true) t ->
  fold_left (fun s x => upper_insert key x s) t (upper_insert key x s)
  = upper_insert key x (fold_left (fun s x => upper_insert key x s) t s).
Proof.
  intros Ht. revert s. induction Ht as [|y t Hy Ht IH]; intros s; simpl.
  - reflexivity.
  - rewrite upper_insert_swap by exact Hy. apply IH.
Qed.

(** Putting in the elements of [m] in sorted order gives the same as
    putting them in as they come. *)
Lemma inserts_sort_asc (m s : list A) :
  no_nan key m ->
  fold_left (fun s x => upper_insert key x s) (sort_asc key m) s
  = fold_left (fun s x => upper_insert key x s) m s.
Proof.
  induction m as [|x m IH] using rev_ind; intros Hm; [reflexivity|].
  unfold no_nan in Hm. rewrite Forall_app in Hm. destruct Hm as [Hm Hx].
  rewrite sort_asc_snoc, fold_left_app. simpl.
  destruct (split_not_above key x (sort_asc key m)) as (p & q & E & Hp & Hq).
  { now apply sort_asc_sorted. }
  { now apply sort_asc_no_nan. }
  rewrite <- IH by exact Hm. rewrite E.
  rewrite upper_insert_split by assumption.
  rewrite !fold_left_app. simpl. now apply inserts_above.
Qed.

Lemma sort_asc_replace (x m y : list A) :
  no_nan key m ->
  sort_asc key (x ++ sort_asc key m ++ y) = sort_asc key (x ++ m ++ y).
Proof.
  intros Hm. rewrite !sort_asc_app, !fold_left_app.
  now rewrite inserts_sort_asc.
Qed.

End StableInsert.

Section StableMerge.
Import PyFloat Py.
Local Open Scope nat_scope.
Context {A : Type} (key : A -> float).

Lemma smerge_nil_r (a : list A) : smerge key a [] = a.
Proof. now destruct a. Qed.

Lemma smerge_cons (x y : A) (a b : list A) :
  smerge key (x :: a) (y :: b)
  = if islt key y x then y :: smerge key (x :: a) b
    else x :: smerge key a (y :: b).
Proof. reflexivity. Qed.

Lemma smerge_skip_l (y : A) (p a b : list A) :
  Forall (fun x => islt key y x = false) p ->
  smerge key (p ++ a) (y :: b) = p ++ smerge key a (y :: b).
Proof.
  intros Hp. induction Hp as [|x p Hx Hp IH]; [reflexivity|].
  cbn [app]. now rewrite smerge_cons, Hx, IH.
Qed.

Lemma smerge_skip_r (x : A) (q a b : list A) :
  Forall (fun y => islt key y x = true) q ->
  smerge key (x :: a) (q ++ b) = q ++ smerge key (x :: a) b.
Proof.
  intros Hq. induction Hq as [|y q Hy Hq IH]; [reflexivity|].
  cbn [app]. now rewrite smerge_cons, Hy, IH.
Qed.

(** What is not below any element of the first run stays behind. *)
Lemma smerge_app_r (a b post : list A) :
  Forall (fun y => Forall (fun x => islt key y x = false) a) post ->
  smerge key a (b ++ post) = smerge key a b ++ post.
Proof.
  revert b post. induction a as [|x a IHa]; intros b post Hpost.
  - reflexivity.
  - induction b as [|y b IHb].
    + rewrite smerge_nil_r. cbn [app].
      destruct post as [|y post]; [now rewrite app_nil_r|].
      rewrite smerge_cons.
      apply Forall_cons in Hpost as Hy. destruct Hy as [Hy _].
      apply Forall_cons in Hy as [Hy _]. rewrite Hy.
      specialize (IHa [] (y :: post)). cbn [app] in IHa. rewrite IHa.
      * now rewrite smerge_nil_r.
      * eapply Forall_impl; [exact Hpost|]. intros y' H.
        now apply Forall_cons in H as [_ H].
    + cbn [app]. rewrite !smerge_cons. destruct (islt key y x).
      * now rewrite IHb.
      * specialize (IHa (y :: b) post). cbn [app] in IHa. rewrite IHa.
        -- reflexivity.
        -- eapply Forall_impl; [exact Hpost|]. intros y' H.
           now apply Forall_cons in H as [_ H].
Qed.

(** What is above every element of the second run stays behind. *)
Lemma smerge_app_l (a b post : list A) :
  Forall (fun x => Forall (fun y => islt key y x = true) b) post ->
  smerge key (a ++ post) b = smerge key a b ++ post.
Proof.
  revert a post. induction b as [|y b IHb]; intros a post Hpost.
  - now rewrite !smerge_nil_r.
  - induction a as [|x a IHa].
    + change (smerge key [] (y :: b)) with (y :: b). cbn [app].
      destruct post as [|x post]; [now rewrite app_nil_r|].
      rewrite smerge_cons.
      apply Forall_cons in Hpost as Hx. destruct Hx as [Hx _].
      apply Forall_cons in Hx as [Hx _]. rewrite Hx.
      specialize (IHb [] (x :: post)).
      change (smerge key [] b) with b in IHb. cbn [app] in IHb.
      rewrite IHb; [reflexivity|].
      eapply Forall_impl; [exact Hpost|]. intros x' H.
      now apply Forall_cons in H as [_ H].
    + cbn [app]. rewrite !smerge_cons. destruct (islt key y x).
      * specialize (IHb (x :: a) post). cbn [app] in IHb. rewrite IHb.
        -- reflexivity.
        -- eapply Forall_impl; [exact Hpost|]. intros x' H.
           now apply Forall_cons in H as [_ H].
      * now rewrite IHa.
Qed.

Lemma smerge_last (z : A) (b : list A) :
  Forall (fun y => islt key y z = true) b -> smerge key [z] b = b ++ [z].
Proof.
  intros Hb. pose proof (smerge_app_l [] b [z]) as H. cbn [app] in H.
  rewrite H; [reflexivity|]. now constructor.
Qed.

End StableMerge.

Section MergeLo.
Import PyFloat Py.
Local Open Scope nat_scope.
Context {A : Type} (key : A -> float).

Lemma non_decreasing_app_r (p q : list A) :
  non_decreasing key (p ++ q) -> non_decreasing key q.
Proof.
  unfold non_decreasing. induction p as [|x p IH]; [trivial|].
  simpl. intros H. apply StronglySorted_inv in H as [H _]. now apply IH.
Qed.

Lemma non_decreasing_app_l (p q : list A) :
  non_decreasing key (p ++ q) -> non_decreasing key p.
Proof.
  unfold non_decreasing. induction p as [|x p IH]; [constructor|].
  simpl. intros H. apply StronglySorted_inv in H as [H Hx].
  constructor; [now apply IH|]. rewrite Forall_app in Hx. tauto.
Qed.

Lemma non_decreasing_tail (x : A) (a : list A) :
  non_decreasing key (x :: a) -> non_decreasing key a.
Proof. apply (non_decreasing_app_r [x]). Qed.

Lemma no_nan_app (p q : list A) :
  no_nan key (p ++ q) <-> no_nan key p /\ no_nan key q.
Proof. apply Forall_app. Qed.

Lemma no_nan_tail (x : A) (a : list A) : no_nan key (x :: a) -> no_nan key a.
Proof. intros H. now apply Forall_cons in H as [_ H]. Qed.

Lemma last_app_ne (p q : list A) : q <> [] -> last (p ++ q) = last q.
Proof.
  intros Hq. rewrite last_app. destruct (last q) eqn:E; [reflexivity|].
  apply last_None in E. contradiction.
Qed.

Lemma lo_loops_smerge (fuel : nat) :
  (forall mg ac bc a b z,
     non_decreasing key a -> non_decreasing key b ->
     no_nan key a -> no_nan key b ->
     last a = Some z -> Forall (fun y => islt key y z = true) b ->
     2 <= length a -> 1 <= length b -> length a + length b <= fuel ->
     (lo_straight key fuel mg ac bc a b).1 = smerge key a b)
  /\ (forall mg a b z,
     non_decreasing key a -> non_decreasing key b ->
     no_nan key a -> no_nan key b ->
     last a = Some z -> Forall (fun y => islt key y z = true) b ->
     2 <= length a -> 1 <= length b -> length a + length b <= fuel ->
     (lo_gallop key fuel mg a b).1 = smerge key a b).
Proof.
  induction fuel as [|fuel [IHs IHg]].
  { split; intros; destruct a; simpl in *; lia. }
  split.
  - intros mg ac bc a b z Ha Hb Hna Hnb Hz Hbz La Lb Lf.
    destruct a as [|x a']; [simpl in La; lia|].
    destruct b as [|y b']; [simpl in Lb; lia|].
    cbn [lo_straight]. rewrite smerge_cons.
    destruct (islt key y x) eqn:Hyx.
    + destruct b' as [|y' b'']; [now rewrite smerge_nil_r|].
      unfold emit. cbn [fst app]. f_equal.
      apply non_decreasing_tail in Hb. apply no_nan_tail in Hnb.
      apply Forall_cons in Hbz as [_ Hbz]. simpl in Lf, La.
      destruct (mg <=? S bc);
        [apply (IHg _ _ _ z)|apply (IHs _ _ _ _ _ z)];
        try assumption; simpl; lia.
    + destruct a' as [|x' [|x'' a'']]; [simpl in La; lia| |].
      * cbn [fst]. f_equal. simpl in Hz. injection Hz as <-.
        symmetry. now apply smerge_last.
      * unfold emit. cbn [fst app]. f_equal.
        apply non_decreasing_tail in Ha. apply no_nan_tail in Hna.
        rewrite last_cons_cons in Hz. simpl in Lf.
        destruct (mg <=? S ac);
          [apply (IHg _ _ _ z)|apply (IHs _ _ _ _ _ z)];
          try assumption; simpl; lia.
  - intros mg a b z Ha Hb Hna Hnb Hz Hbz La Lb Lf.
    destruct b as [|y b1]; [simpl in Lb; lia|].
    cbn [lo_gallop]. fold (lo_straight key). cbv zeta.
    destruct (split_not_above key y a Ha Hna) as (p & q & -> & Hp & Hq).
    rewrite gallop_right_split; [|exact Hp|exact Hq|lia].
    rewrite take_app_length, drop_app_length.
    rewrite smerge_skip_l by exact Hp.
    assert (smerge key [z] (y :: b1) = (y :: b1) ++ [z]) as Hlast
      by now apply smerge_last.
    destruct q as [|x [|x' a2]].
    + destruct p as [|x0 p]; [simpl in La; lia|]. reflexivity.
    + destruct p as [|x0 p]; [simpl in La; lia|]. cbn [length fst].
      rewrite last_snoc in Hz. injection Hz as <-. now rewrite Hlast.
    + cbv beta iota.
      lazymatch goal with
      | |- (match length p with 0 => ?M | S _ => _ end).1 = ?R =>
          enough (Hm : M.1 = R) by (destruct (length p); exact Hm)
      end.
      apply Forall_cons in Hq as [Hyx Hq].
      rewrite smerge_cons, Hyx.
      destruct b1 as [|y1 b1']; [now rewrite smerge_nil_r|].
      cbv beta iota.
      apply non_decreasing_tail in Hb. apply no_nan_tail in Hnb.
      apply Forall_cons in Hbz as [_ Hbz].
      destruct (split_below key x (y1 :: b1') Hb Hnb)
        as (p2 & q2 & E & Hp2 & Hq2).
      assert (1 <= length (p2 ++ q2)) as Lb2 by (rewrite <- E; simpl; lia).
      rewrite E in *. clear E.
      rewrite gallop_left_split; [|exact Hp2|exact Hq2|lia].
      rewrite take_app_length, drop_app_length.
      rewrite smerge_skip_r by exact Hp2.
      apply non_decreasing_app_r in Hb. apply no_nan_app in Hnb as [_ Hnb].
      rewrite Forall_app in Hbz. destruct Hbz as [_ Hbz].
      apply non_decreasing_app_r, non_decreasing_tail in Ha.
      apply no_nan_app in Hna as [_ Hna]. apply no_nan_tail in Hna.
      rewrite last_app_ne, last_cons_cons in Hz by easy.
      rewrite !length_app in Lf. simpl in Lf.
      destruct q2 as [|y2 q2].
      * destruct p2 as [|y0 p2]; [simpl in Lb2; lia|].
        cbn [length fst]. now rewrite smerge_nil_r.
      * apply Forall_cons in Hq2 as [Hy2 Hq2].
        rewrite smerge_cons, Hy2. cbv beta iota.
        lazymatch goal with
        | |- (match length p2 with 0 => ?M | S _ => _ end).1 = ?R =>
            enough (Hm : M.1 = R) by (destruct (length p2); exact Hm)
        end.
        destruct a2 as [|x'' a2].
        -- cbn [fst]. simpl in Hz. injection Hz as <-.
           rewrite smerge_last by exact Hbz. reflexivity.
        -- unfold emit. cbn [fst].
           destruct ((MIN_GALLOP <=? length p) || (MIN_GALLOP <=? length p2));
             [rewrite (IHg _ _ _ z)|rewrite (IHs _ _ _ _ _ z)];
             try assumption;
             try (simpl; simpl in Lf; rewrite ?length_app in Lf; simpl in Lf;
                  lia).
           all: repeat (rewrite <- app_assoc; cbn [app]); reflexivity.
Qed.

Lemma merge_lo_smerge (mg : nat) (a b : list A) (y z : A) :
  non_decreasing key a -> non_decreasing key b ->
  no_nan key a -> no_nan key b ->
  last a = Some z -> Forall (fun y => islt key y z = true) b ->
  head b = Some y -> Forall (fun x => islt key y x = true) a ->
  (merge_lo key mg a b).1 = smerge key a b.
Proof.
  intros Ha Hb Hna Hnb Hz Hbz Hy Hay.
  destruct b as [|y' b1]; [discriminate|]. injection Hy as ->.
  destruct a as [|x a']; [discriminate|].
  apply Forall_cons in Hay as Hyx. destruct Hyx as [Hyx _].
  unfold merge_lo. rewrite smerge_cons, Hyx.
  destruct b1 as [|y1 b1]; [now rewrite smerge_nil_r|].
  apply Forall_cons in Hbz as [_ Hbz].
  destruct a' as [|x' a'].
  - simpl in Hz. injection Hz as <-. cbn [fst].
    now rewrite smerge_last.
  - unfold emit. cbn [fst app]. f_equal.
    apply (proj1 (lo_loops_smerge _) _ _ _ _ _ z); try assumption.
    + now apply non_decreasing_tail in Hb.
    + now apply no_nan_tail in Hnb.
    + simpl. lia.
    + simpl. lia.
    + simpl. lia.
Qed.

Lemma non_decreasing_snoc (a : list A) (x : A) :
  non_decreasing key (a ++ [x]) -> Forall (fun x' => islt key x x' = false) a.
Proof.
  unfold non_decreasing. induction a as [|r a IH]; [constructor|].
  simpl. intros H. apply StronglySorted_inv in H as [H Hr].
  constructor; [|now apply IH].
  rewrite Forall_app in Hr. destruct Hr as [_ Hr].
  now apply Forall_cons in Hr as [Hr _].
Qed.

(** The merge is the stable sort of the two runs. *)
Lemma smerge_upper_insert (a b : list A) (y : A) :
  non_decreasing key (y :: b) -> is_nan (key y) = false ->
  smerge key a (y :: b) = smerge key (upper_insert key y a) b.
Proof.
  intros Hb Hy. apply StronglySorted_inv in Hb as [_ Hb].
  induction a as [|x a IH].
  - cbn [upper_insert]. change (smerge key [] (y :: b)) with (y :: b).
    destruct Hb as [|y' b Hy' Hb]; [reflexivity|].
    now rewrite smerge_cons, Hy'.
  - rewrite smerge_cons. cbn [upper_insert].
    destruct (islt key y x) eqn:Hyx.
    + destruct Hb as [|y' b Hy' Hb]; [now rewrite !smerge_nil_r|].
      now rewrite (smerge_cons _ y), Hy'.
    + rewrite IH. destruct Hb as [|y' b Hy' Hb]; [now rewrite !smerge_nil_r|].
      rewrite (smerge_cons _ x).
      now rewrite (not_lt_trans key x y y' Hy Hyx Hy').
Qed.

Lemma smerge_inserts (b a : list A) :
  non_decreasing key a -> non_decreasing key b ->
  no_nan key a -> no_nan key b ->
  smerge key a b = fold_left (fun s x => upper_insert key x s) b a.
Proof.
  revert a. induction b as [|y b IH]; intros a Ha Hb Hna Hnb.
  - apply smerge_nil_r.
  - apply Forall_cons in Hnb as [Hy Hnb].
    rewrite smerge_upper_insert by assumption. cbn [fold_left].
    apply IH; [|now apply non_decreasing_tail in Hb| |exact Hnb].
    + now apply upper_insert_sorted.
    + now apply upper_insert_no_nan.
Qed.

Lemma smerge_sort_asc (a b : list A) :
  non_decreasing key a -> non_decreasing key b ->
  no_nan key a -> no_nan key b ->
  smerge key a b = sort_asc key (a ++ b).
Proof.
  intros Ha Hb Hna Hnb. rewrite sort_asc_app, sort_asc_sorted_id by exact Ha.
  now apply smerge_inserts.
Qed.

End MergeLo.

Section MergeHi.
Import PyFloat Py.
Local Open Scope nat_scope.
Context {A : Type} (key : A -> float).

Lemma rmerge_nil_r (ra : list A) : rmerge key ra [] = ra.
Proof. now destruct ra. Qed.

Lemma rmerge_cons (x y : A) (ra rb : list A) :
  rmerge key (x :: ra) (y :: rb)
  = if islt key y x then x :: rmerge key ra (y :: rb)
    else y :: rmerge key (x :: ra) rb.
Proof. reflexivity. Qed.

Lemma rmerge_skip_l (y : A) (p ra rb : list A) :
  Forall (fun x => islt key y x = true) p ->
  rmerge key (p ++ ra) (y :: rb) = p ++ rmerge key ra (y :: rb).
Proof.
  intros Hp. induction Hp as [|x p Hx Hp IH]; [reflexivity|].
  cbn [app]. now rewrite rmerge_cons, Hx, IH.
Qed.

Lemma rmerge_skip_r (x : A) (q ra rb : list A) :
  Forall (fun y => islt key y x = false) q ->
  rmerge key (x :: ra) (q ++ rb) = q ++ rmerge key (x :: ra) rb.
Proof.
  intros Hq. induction Hq as [|y q Hy Hq IH]; [reflexivity|].
  cbn [app]. now rewrite rmerge_cons, Hy, IH.
Qed.

Lemma rmerge_last (y0 : A) (ra : list A) :
  Forall (fun x => islt key y0 x = true) ra ->
  rmerge key ra [y0] = ra ++ [y0].
Proof.
  intros Hra. pose proof (rmerge_skip_l y0 ra [] [] Hra) as H.
  now rewrite app_nil_r in H.
Qed.

Lemma no_nan_rev (l : list A) : no_nan key (rev l) <-> no_nan key l.
Proof. unfold no_nan. now rewrite <- Permutation_rev. Qed.

Lemma rev_sorted_tail (x : A) (a : list A) :
  non_decreasing key (rev (x :: a)) -> non_decreasing key (rev a).
Proof. simpl. apply non_decreasing_app_l. Qed.

Lemma rev_sorted_app_r (p q : list A) :
  non_decreasing key (rev (p ++ q)) -> non_decreasing key (rev q).
Proof. rewrite rev_app_distr. apply non_decreasing_app_l. Qed.

(** A run read from its end splits at every key: the elements above
    it, then those that are not. *)
Lemma split_above_rev (y : A) (ra : list A) (hint : nat) :
  non_decreasing key (rev ra) -> no_nan key ra -> hint < length ra ->
  exists p q, ra = p ++ q
    /\ Forall (fun x => islt key y x = true) p
    /\ Forall (fun x => islt key y x = false) q
    /\ length ra - gallop_right key y (rev ra) hint = length p.
Proof.
  intros Hs Hn Hh. apply no_nan_rev in Hn.
  destruct (split_not_above key y (rev ra) Hs Hn) as (p & q & E & Hp & Hq).
  exists (rev q), (rev p). repeat split.
  - rewrite <- rev_app_distr, <- E. now rewrite rev_involutive.
  - now apply Forall_rev.
  - now apply Forall_rev.
  - rewrite E, gallop_right_split; try assumption.
    + rewrite <- (length_rev ra), E, length_app, length_rev. lia.
    + rewrite <- E, length_rev. exact Hh.
Qed.

Lemma split_not_below_rev (x : A) (rb : list A) (hint : nat) :
  non_decreasing key (rev rb) -> no_nan key rb -> hint < length rb ->
  exists p q, rb = p ++ q
    /\ Forall (fun y => islt key y x = false) p
    /\ Forall (fun y => islt key y x = true) q
    /\ length rb - gallop_left key x (rev rb) hint = length p.
Proof.
  intros Hs Hn Hh. apply no_nan_rev in Hn.
  destruct (split_below key x (rev rb) Hs Hn) as (p & q & E & Hp & Hq).
  exists (rev q), (rev p). repeat split.
  - rewrite <- rev_app_distr, <- E. now rewrite rev_involutive.
  - now apply Forall_rev.
  - now apply Forall_rev.
  - rewrite E, gallop_left_split; try assumption.
    + rewrite <- (length_rev rb), E, length_app, length_rev. lia.
    + rewrite <- E, length_rev. exact Hh.
Qed.

Lemma hi_loops_rmerge (fuel : nat) :
  (forall mg ac bc ra rb y0,
     non_decreasing key (rev ra) -> non_decreasing key (rev rb) ->
     no_nan key ra -> no_nan key rb ->
     last rb = Some y0 -> Forall (fun x => islt key y0 x = true) ra ->
     1 <= length ra -> 2 <= length rb -> length ra + length rb <= fuel ->
     (hi_straight key fuel mg ac bc ra rb).1 = rmerge key ra rb)
  /\ (forall mg ra rb y0,
     non_decreasing key (rev ra) -> non_decreasing key (rev rb) ->
     no_nan key ra -> no_nan key rb ->
     last rb = Some y0 -> Forall (fun x => islt key y0 x = true) ra ->
     1 <= length ra -> 2 <= length rb -> length ra + length rb <= fuel ->
     (hi_gallop key fuel mg ra rb).1 = rmerge key ra rb).
Proof.
  induction fuel as [|fuel [IHs IHg]].
  { split; intros; destruct ra; simpl in *; lia. }
  split.
  - intros mg ac bc ra rb y0 Ha Hb Hna Hnb Hz Hay La Lb Lf.
    destruct ra as [|x ra']; [simpl in La; lia|].
    destruct rb as [|y rb']; [simpl in Lb; lia|].
    cbn [hi_straight]. rewrite rmerge_cons.
    destruct (islt key y x) eqn:Hyx.
    + destruct ra' as [|x' ra'']; [reflexivity|].
      unfold emit. cbn [fst app]. f_equal.
      apply rev_sorted_tail in Ha. apply no_nan_tail in Hna.
      apply Forall_cons in Hay as [_ Hay]. simpl in Lf.
      destruct (mg <=? S ac);
        [apply (IHg _ _ _ y0)|apply (IHs _ _ _ _ _ y0)];
        try assumption; simpl; lia.
    + destruct rb' as [|y' [|y'' rb'']]; [simpl in Lb; lia| |].
      * cbn [fst]. f_equal. simpl in Hz. injection Hz as <-.
        symmetry. now apply rmerge_last.
      * unfold emit. cbn [fst app]. f_equal.
        apply rev_sorted_tail in Hb. apply no_nan_tail in Hnb.
        rewrite last_cons_cons in Hz. simpl in Lf.
        destruct (mg <=? S bc);
          [apply (IHg _ _ _ y0)|apply (IHs _ _ _ _ _ y0)];
          try assumption; simpl; lia.
  - intros mg ra rb y0 Ha Hb Hna Hnb Hz Hay La Lb Lf.
    destruct rb as [|y rb1]; [simpl in Lb; lia|].
    cbn [hi_gallop]. fold (hi_straight key). cbv zeta.
    destruct (split_above_rev y ra (length ra - 1) Ha Hna)
      as (p & q & E & Hp & Hq & Hk); [lia|].
    rewrite Hk. clear Hk. subst ra.
    rewrite take_app_length, drop_app_length.
    rewrite rmerge_skip_l by exact Hp.
    destruct q as [|x ra2].
    + destruct p as [|x0 p]; [simpl in La; lia|]. reflexivity.
    + cbv beta iota.
      lazymatch goal with
      | |- (match length p with 0 => ?M | S _ => _ end).1 = ?R =>
          enough (Hm : M.1 = R) by (destruct (length p); exact Hm)
      end.
      apply Forall_cons in Hq as [Hyx Hq].
      rewrite rmerge_cons, Hyx.
      apply rev_sorted_app_r in Ha. apply no_nan_app in Hna as [_ Hna].
      rewrite Forall_app in Hay. destruct Hay as [_ Hay].
      rewrite length_app in Lf.
      apply rev_sorted_tail in Hb. apply no_nan_tail in Hnb.
      destruct rb1 as [|y1 [|y1' rb1]]; [simpl in Lb; lia| |].
      * cbn [fst]. simpl in Hz. injection Hz as <-.
        now rewrite rmerge_last.
      * cbv beta iota.
        rewrite last_cons_cons in Hz.
        destruct (split_not_below_rev x (y1 :: y1' :: rb1)
                    (length (y1 :: y1' :: rb1) - 1) Hb Hnb)
          as (p2 & q2 & E & Hp2 & Hq2 & Hk); [simpl; lia|].
        rewrite Hk. clear Hk.
        assert (2 <= length (p2 ++ q2)) as Lb2 by (rewrite <- E; simpl; lia).
        rewrite E in *. clear E.
        rewrite take_app_length, drop_app_length.
        rewrite rmerge_skip_r by exact Hp2.
        apply rev_sorted_app_r in Hb. apply no_nan_app in Hnb as [_ Hnb].
        simpl in Lf. rewrite length_app in Lf, Lb2.
        destruct q2 as [|y2 [|y2' q2]].
        -- destruct p2 as [|y0' p2]; [simpl in Lb2; lia|].
           cbn [length fst]. now rewrite rmerge_nil_r.
        -- destruct p2 as [|y0' p2]; [simpl in Lb2; lia|].
           cbn [length fst]. rewrite last_snoc in Hz. injection Hz as <-.
           now rewrite rmerge_last.
        -- cbv beta iota.
           lazymatch goal with
           | |- (match length p2 with 0 => ?M | S _ => _ end).1 = ?R =>
               enough (Hm : M.1 = R) by (destruct (length p2); exact Hm)
           end.
           apply Forall_cons in Hq2 as [Hy2 Hq2].
           rewrite rmerge_cons, Hy2.
           rewrite last_app_ne in Hz by easy.
           destruct ra2 as [|x' ra2]; [reflexivity|].
           unfold emit. cbn [fst].
           apply rev_sorted_tail in Ha. apply no_nan_tail in Hna.
           apply Forall_cons in Hay as [_ Hay]. simpl in Lf.
           destruct ((MIN_GALLOP <=? length p) || (MIN_GALLOP <=? length p2));
             [rewrite (IHg _ _ _ y0)|rewrite (IHs _ _ _ _ _ y0)];
             try assumption; try (simpl; lia).
           all: repeat (rewrite <- app_assoc; cbn [app]); reflexivity.
Qed.

End MergeHi.

Section MergeAt.
Import PyFloat Py.
Local Open Scope nat_scope.
Context {A : Type} (key : A -> float).

(** Merging from the right gives the merge from the left. *)
Lemma rmerge_rev (a b : list A) :
  non_decreasing key a -> non_decreasing key b ->
  no_nan key a -> no_nan key b ->
  rmerge key (rev a) (rev b) = rev (smerge key a b).
Proof.
  revert b. induction a as [|x a IHa] using rev_ind; intros b Ha Hb Hna Hnb.
  { reflexivity. }
  induction b as [|y b IHb] using rev_ind.
  { change (rev []) with (@nil A). now rewrite smerge_nil_r, rmerge_nil_r. }
  rewrite !rev_app_distr. cbn [rev app]. rewrite rmerge_cons.
  pose proof (non_decreasing_snoc key _ _ Ha) as Hax.
  pose proof (non_decreasing_snoc key _ _ Hb) as Hby.
  apply no_nan_app in Hna as Hna'. destruct Hna' as [Hna' Hx].
  apply no_nan_app in Hnb as Hnb'. destruct Hnb' as [Hnb' Hy].
  apply Forall_cons in Hx as [Hx _]. apply Forall_cons in Hy as [Hy _].
  destruct (islt key y x) eqn:Hyx.
  - change (y :: rev b) with (rev [y] ++ rev b). rewrite <- rev_app_distr.
    rewrite IHa; try assumption; [|now apply non_decreasing_app_l in Ha].
    rewrite (smerge_app_l key a (b ++ [y]) [x]).
    + now rewrite rev_app_distr.
    + constructor; [|constructor]. apply Forall_app. split; [|now constructor].
      unfold no_nan in Hnb'.
      rewrite Forall_forall in Hby, Hnb'. apply Forall_forall. intros y' Hin.
      eapply not_lt_lt_trans; [apply Hnb', Hin|apply Hby, Hin|exact Hyx].
  - change (x :: rev a) with (rev [x] ++ rev a). rewrite <- rev_app_distr.
    rewrite IHb; try assumption; [|now apply non_decreasing_app_l in Hb].
    rewrite (smerge_app_r key (a ++ [x]) b [y]).
    + now rewrite rev_app_distr.
    + constructor; [|constructor]. apply Forall_app. split; [|now constructor].
      rewrite Forall_forall in Hax. apply Forall_forall. intros x' Hin.
      eapply not_lt_trans; [exact Hx|apply Hax, Hin|exact Hyx].
Qed.

Lemma merge_hi_smerge (mg : nat) (a b : list A) (y z : A) :
  non_decreasing key a -> non_decreasing key b ->
  no_nan key a -> no_nan key b ->
  last a = Some z -> Forall (fun y => islt key y z = true) b ->
  head b = Some y -> Forall (fun x => islt key y x = true) a ->
  (merge_hi key mg a b).1 = smerge key a b.
Proof.
  intros Ha Hb Hna Hnb Hz Hbz Hy Hay.
  apply last_Some in Hz as [a' ->].
  rewrite (smerge_app_l key a' b [z]) by (constructor; [exact Hbz|constructor]).
  unfold merge_hi. rewrite rev_app_distr. cbn [rev app].
  apply non_decreasing_app_l in Ha. apply no_nan_app in Hna as [Hna _].
  rewrite Forall_app in Hay. destruct Hay as [Hay _].
  destruct (rev a') as [|x ra] eqn:Era.
  { apply (f_equal (@rev A)) in Era. rewrite rev_involutive in Era.
    subst a'. reflexivity. }
  destruct b as [|y' b]; [discriminate|]. injection Hy as Hy. subst y'.
  destruct (rev (y :: b)) as [|y1 [|y2 rb]] eqn:Erb.
  - apply (f_equal (@length A)) in Erb. rewrite length_rev in Erb.
    discriminate.
  - apply (f_equal (@rev A)) in Erb. rewrite rev_involutive in Erb.
    simpl in Erb. injection Erb as E1 E2. subst y1 b.
    cbn [fst]. change (z :: x :: ra ++ [y]) with ([z] ++ (x :: ra) ++ [y]).
    rewrite <- Era, !rev_app_distr, rev_involutive. cbn [rev app]. f_equal.
    destruct Hay as [|x' a'' Hx' Hay]; [reflexivity|].
    now rewrite smerge_cons, Hx', smerge_nil_r.
  - cbn [fst rev]. f_equal.
    rewrite (proj1 (hi_loops_rmerge key _) _ _ _ _ _ y).
    + rewrite <- Era, <- Erb. rewrite rmerge_rev by assumption.
      now rewrite rev_involutive.
    + rewrite <- Era. now rewrite rev_involutive.
    + rewrite <- Erb. now rewrite rev_involutive.
    + rewrite <- Era. now apply no_nan_rev.
    + rewrite <- Erb. now apply no_nan_rev.
    + rewrite <- Erb. simpl. now rewrite last_snoc.
    + rewrite <- Era. now apply Forall_rev.
    + simpl. lia.
    + simpl. lia.
    + apply (f_equal (@length A)) in Era, Erb.
      rewrite length_rev in Era, Erb. rewrite length_app, Era, Erb.
      simpl. lia.
Qed.

(** [merge_at] merges two sorted runs as the stable sort does. *)
Lemma merge_at_smerge (mg : nat) (a b : list A) :
  non_decreasing key a -> non_decreasing key b ->
  no_nan key a -> no_nan key b ->
  (merge_at key mg a b).1 = smerge key a b.
Proof.
  intros Ha Hb Hna Hnb. unfold merge_at.
  destruct b as [|y b']; [now rewrite smerge_nil_r|].
  destruct a as [|x0 a0]; [reflexivity|].
  destruct (split_not_above key y (x0 :: a0) Ha Hna) as (p & q & E & Hp & Hq).
  assert (0 < length (p ++ q)) as La by (rewrite <- E; simpl; lia).
  rewrite E in *. clear E x0 a0.
  rewrite gallop_right_split; [|exact Hp|exact Hq|exact La].
  rewrite take_app_length, drop_app_length.
  rewrite smerge_skip_l by exact Hp.
  destruct (last q) as [z|] eqn:Hz.
  2:{ apply last_None in Hz. subst q. now rewrite app_nil_r. }
  apply non_decreasing_app_r in Ha. apply no_nan_app in Hna as [_ Hna].
  assert (Forall (fun x => islt key z x = false) q) as Hqz.
  { apply last_Some in Hz as [q' ->]. apply Forall_app. split.
    - now apply non_decreasing_snoc.
    - constructor; [apply islt_irrefl|constructor]. }
  assert (is_nan (key z) = false) as Hnz.
  { apply last_Some in Hz as [q' ->]. apply no_nan_app in Hna as [_ Hna].
    now apply Forall_cons in Hna as [Hna _]. }
  destruct (split_below key z (y :: b') Hb Hnb) as (p2 & q2 & E & Hp2 & Hq2).
  assert (0 < length (p2 ++ q2)) as Lb by (rewrite <- E; simpl; lia).
  assert (head (p2 ++ q2) = Some y) as Hy by now rewrite <- E.
  rewrite E in *. clear E b'.
  rewrite gallop_left_split; [|exact Hp2|exact Hq2|lia].
  assert (Forall (fun y' => Forall (fun x => islt key y' x = false) q) q2)
    as Hpost.
  { eapply Forall_impl; [exact Hq2|]. intros y' Hy'. cbv beta in Hy'.
    eapply Forall_impl; [exact Hqz|]. intros x Hx. cbv beta in Hx.
    eapply not_lt_trans; [exact Hnz|exact Hx|exact Hy']. }
  destruct (decide (p2 = [])) as [->|Hne].
  - cbn [length fst app]. cbn [app] in Hpost.
    pose proof (smerge_app_r key q [] q2 Hpost) as H.
    rewrite smerge_nil_r in H. cbn [app] in H. rewrite H.
    now rewrite app_assoc.
  - destruct (length p2) as [|n] eqn:Hn;
      [destruct p2; [contradiction|discriminate]|].
    cbv zeta. rewrite <- Hn. clear Hn n. cbn [fst].
    rewrite take_app_length, drop_app_length.
    rewrite smerge_app_r by exact Hpost.
    apply non_decreasing_app_l in Hb. apply no_nan_app in Hnb as [Hnb _].
    assert (head p2 = Some y) as Hy2 by (destruct p2; [contradiction|exact Hy]).
    destruct (length q <=? length p2).
    + now rewrite (merge_lo_smerge key mg q p2 y z).
    + now rewrite (merge_hi_smerge mg q p2 y z).
Qed.

End MergeAt.

Section Runs.
Import PyFloat Py.
Local Open Scope nat_scope.
Context {A : Type} (key : A -> float).

Lemma merge_at_sort_asc (mg : nat) (a b : list A) :
  non_decreasing key a -> non_decreasing key b ->
  no_nan key a -> no_nan key b ->
  (merge_at key mg a b).1 = sort_asc key (a ++ b).
Proof.
  intros Ha Hb Hna Hnb.
  rewrite merge_at_smerge by assumption. now apply smerge_sort_asc.
Qed.

(** A run that descends strictly, turned round, is sorted. *)
Lemma run_more_descending (l : list A) (prev : A) (s : list A) :
  fold_left (fun s x => upper_insert key x s)
    (take (run_more key true prev l) l) (prev :: s)
  = rev (take (run_more key true prev l) l) ++ prev :: s.
Proof.
  revert prev s. induction l as [|y l IH]; intros prev s; [reflexivity|].
  cbn [run_more]. destruct (islt key y prev) eqn:E; [|reflexivity].
  cbn [Bool.eqb take fold_left upper_insert]. rewrite E, IH.
  cbn [rev]. now rewrite <- app_assoc.
Qed.

Lemma run_more_ascending (l : list A) (prev : A) (s : list A) :
  is_nan (key prev) = false -> no_nan key l ->
  Forall (fun x => islt key prev x = false) s ->
  fold_left (fun s x => upper_insert key x s)
    (take (run_more key false prev l) l) s
  = s ++ take (run_more key false prev l) l.
Proof.
  revert prev s. induction l as [|y l IH]; intros prev s Hp Hl Hs.
  { simpl. now rewrite app_nil_r. }
  apply Forall_cons in Hl as [Hy Hl].
  cbn [run_more]. destruct (islt key y prev) eqn:E.
  { simpl. now rewrite app_nil_r. }
  cbn [Bool.eqb take fold_left].
  assert (Forall (fun x => islt key y x = false) s) as Hys.
  { eapply Forall_impl; [exact Hs|]. intros x Hx. cbv beta in Hx.
    eapply not_lt_trans; [exact Hp|exact Hx|exact E]. }
  rewrite upper_insert_last by exact Hys.
  rewrite IH; [now rewrite <- app_assoc|exact Hy|exact Hl|].
  apply Forall_app. split; [exact Hys|].
  constructor; [apply islt_irrefl|constructor].
Qed.

Lemma run_more_length (d : bool) (prev : A) (l : list A) :
  run_more key d prev l <= length l.
Proof.
  revert prev. induction l as [|y l IH]; intros prev; simpl; [lia|].
  destruct (Bool.eqb _ _); [|lia]. specialize (IH y). lia.
Qed.

Lemma count_run_length (l : list A) : (count_run key l).1 <= length l.
Proof.
  destruct l as [|x0 [|x1 l]]; simpl; try lia.
  pose proof (run_more_length (islt key x1 x0) x1 l). lia.
Qed.

(** [count_run] finds a run that, turned round when it descends, is
    the stable sort of the elements it is made of. *)
Lemma count_run_sort_asc (l : list A) :
  no_nan key l ->
  (if (count_run key l).2 then rev (take (count_run key l).1 l)
   else take (count_run key l).1 l)
  = sort_asc key (take (count_run key l).1 l).
Proof.
  intros Hl. destruct l as [|x0 [|x1 l]]; try reflexivity.
  apply Forall_cons in Hl as [H0 Hl]. apply Forall_cons in Hl as [H1 Hl].
  cbn [count_run fst snd]. cbn [Nat.add take].
  unfold sort_asc. cbn [fold_left upper_insert].
  destruct (islt key x1 x0) eqn:E.
  - rewrite run_more_descending. cbn [rev]. now rewrite <- !app_assoc.
  - rewrite run_more_ascending; [reflexivity|exact H1|exact Hl|].
    constructor; [exact E|]. constructor; [apply islt_irrefl|constructor].
Qed.

Lemma upper_insert_not_nil (x : A) (s : list A) : upper_insert key x s <> [].
Proof. destruct s as [|y s]; simpl; [easy|]. now destruct (islt key x y). Qed.

(** [binarysort] puts the elements in as the stable sort does. *)
Lemma binarysort_inserts (rest s : list A) :
  non_decreasing key s -> no_nan key s -> no_nan key rest -> s <> [] ->
  binarysort key s rest = fold_left (fun s x => upper_insert key x s) rest s.
Proof.
  unfold binarysort. revert s.
  induction rest as [|x rest IH]; intros s Hs Hn Hr Hne; [reflexivity|].
  apply Forall_cons in Hr as [Hx Hr].
  cbn [fold_left]. rewrite binary_insert_upper by assumption.
  apply IH; [| |exact Hr|apply upper_insert_not_nil].
  - now apply upper_insert_sorted.
  - now apply upper_insert_no_nan.
Qed.

Lemma no_nan_take (n : nat) (l : list A) : no_nan key l -> no_nan key (take n l).
Proof. apply Forall_take. Qed.

Lemma no_nan_drop (n : nat) (l : list A) : no_nan key l -> no_nan key (drop n l).
Proof. apply Forall_drop. Qed.

(** The run pushed on the stack is the stable sort of its elements. *)
Lemma new_run_sort_asc (minrun : nat) (rem : list A) :
  no_nan key rem -> rem <> [] ->
  let n := (count_run key rem).1 in
  let run0 := if (count_run key rem).2 then rev (take n rem)
              else take n rem in
  let force := Nat.min minrun (length rem) in
  (if n <? minrun
   then binarysort key run0 (take (force - n) (drop n rem))
   else run0)
  = sort_asc key (take (if n <? minrun then force else n) rem).
Proof.
  intros Hn Hne. cbv zeta.
  pose proof (count_run_sort_asc rem Hn) as Hrun.
  pose proof (count_run_length rem) as Hlen.
  assert (1 <= (count_run key rem).1) as Hpos.
  { destruct rem as [|x rem]; [contradiction|]. apply count_run_positive. }
  rewrite Hrun. clear Hrun.
  destruct (Nat.ltb_spec (count_run key rem).1 minrun) as [Hlt|Hge];
    [|reflexivity].
  set (n := (count_run key rem).1) in *.
  rewrite binarysort_inserts.
  - rewrite <- sort_asc_app, take_take_drop. f_equal. f_equal. lia.
  - apply sort_asc_sorted. now apply no_nan_take.
  - apply sort_asc_no_nan. now apply no_nan_take.
  - now apply no_nan_take, no_nan_drop.
  - intros E. apply (f_equal (@length A)) in E.
    rewrite (Permutation_length (sort_asc_Permutation key _)) in E.
    rewrite length_take in E. simpl in E.
    destruct rem; [contradiction|simpl in E; lia].
Qed.

End Runs.

Section Stack.
Import PyFloat Py.
Local Open Scope nat_scope.
Context {A : Type} (key : A -> float).

(** Merging two runs of the stack that follow each other keeps the
    runs sorted and what the stable sort makes of the stack. *)
Lemma merged_run (mg start pw : nat) (a b : @run A) :
  non_decreasing key (r_items a) /\ no_nan key (r_items a) ->
  non_decreasing key (r_items b) /\ no_nan key (r_items b) ->
  let m := Run start (merge_at key mg (r_items a) (r_items b)).1 pw in
  (non_decreasing key (r_items m) /\ no_nan key (r_items m))
  /\ r_items m = sort_asc key (r_items a ++ r_items b).
Proof.
  intros [Ha Hna] [Hb Hnb]. cbv zeta. cbn [r_items].
  rewrite merge_at_sort_asc by assumption.
  assert (no_nan key (r_items a ++ r_items b)) as Hn
    by (apply Forall_app; now split).
  repeat split.
  - now apply sort_asc_sorted.
  - now apply sort_asc_no_nan.
Qed.

Lemma collapse_power_sorted (fuel p mg : nat) (stack : list (@run A)) :
  Forall (fun r => non_decreasing key (r_items r) /\ no_nan key (r_items r))
    stack ->
  Forall (fun r => non_decreasing key (r_items r) /\ no_nan key (r_items r))
    (collapse_power key fuel p mg stack).1
  /\ sort_asc key (stacked (collapse_power key fuel p mg stack).1)
     = sort_asc key (stacked stack).
Proof.
  revert mg stack. induction fuel as [|fuel IH]; intros mg stack Hok;
    [now split|].
  destruct stack as [|top [|below rest]]; try now split.
  cbn [collapse_power]. destruct (p <? r_power below); [|now split].
  apply Forall_cons in Hok as [Htop Hok].
  apply Forall_cons in Hok as [Hbelow Hok].
  destruct (merged_run mg (r_start below) (r_power below) below top
              Hbelow Htop) as [Hm Em].
  cbv zeta in Hm, Em.
  destruct (IH (merge_at key mg (r_items below) (r_items top)).2
               (Run (r_start below)
                    (merge_at key mg (r_items below) (r_items top)).1
                    (r_power below) :: rest)) as [H1 H2].
  { now constructor. }
  split; [exact H1|]. rewrite H2, !stacked_cons, Em.
  pose proof (sort_asc_replace key (stacked rest)
                (r_items below ++ r_items top) []) as H.
  rewrite !app_nil_r in H. rewrite H, <- ?app_assoc; [reflexivity|].
  apply Forall_app. split; [apply Hbelow|apply Htop].
Qed.

Lemma found_new_run_sorted (n2 listlen mg : nat) (stack : list (@run A)) :
  Forall (fun r => non_decreasing key (r_items r) /\ no_nan key (r_items r))
    stack ->
  Forall (fun r => non_decreasing key (r_items r) /\ no_nan key (r_items r))
    (found_new_run key n2 listlen mg stack).1
  /\ sort_asc key (stacked (found_new_run key n2 listlen mg stack).1)
     = sort_asc key (stacked stack).
Proof.
  intros Hok. unfold found_new_run.
  destruct stack as [|top rest]; [now split|].
  generalize (power (r_start top) (length (r_items top)) n2 listlen).
  intros p.
  destruct (collapse_power_sorted (length (top :: rest)) p mg (top :: rest)
              Hok) as [H1 H2].
  rewrite <- H2.
  destruct (collapse_power key (length (top :: rest)) p mg (top :: rest)).1
    as [|t rest']; [now split|].
  cbn [fst]. apply Forall_cons in H1 as [Ht H1].
  split; [now constructor|]. now rewrite !stacked_cons.
Qed.

Lemma force_collapse_sorted (fuel mg : nat) (stack : list (@run A)) :
  Forall (fun r => non_decreasing key (r_items r) /\ no_nan key (r_items r))
    stack ->
  Forall (fun r => non_decreasing key (r_items r) /\ no_nan key (r_items r))
    (force_collapse key fuel mg stack).1
  /\ sort_asc key (stacked (force_collapse key fuel mg stack).1)
     = sort_asc key (stacked stack).
Proof.
  revert mg stack. induction fuel as [|fuel IH]; intros mg stack Hok;
    [now split|].
  destruct stack as [|t [|s rest]]; try now split.
  cbn [force_collapse].
  apply Forall_cons in Hok as [Ht Hok]. apply Forall_cons in Hok as [Hs Hok].
  assert (forall x m y z : list A, no_nan key m ->
            sort_asc key (((x ++ sort_asc key m) ++ y) ++ z)
            = sort_asc key ((((x ++ m) ++ y)) ++ z)) as Hrep.
  { intros x m y z Hm. rewrite <- !app_assoc.
    now apply sort_asc_replace. }
  destruct rest as [|u rest'].
  - destruct (merged_run mg (r_start s) (r_power s) s t Hs Ht) as [Hm Em].
    cbv zeta in Hm, Em.
    destruct (IH (merge_at key mg (r_items s) (r_items t)).2
                 [Run (r_start s) (merge_at key mg (r_items s) (r_items t)).1
                      (r_power s)]) as [H1 H2].
    { now constructor. }
    split; [exact H1|]. rewrite H2, !stacked_cons, Em.
    unfold stacked at 1 2. cbn [map rev concat app].
    now rewrite sort_asc_sorted_id
      by (apply sort_asc_sorted, Forall_app; split; [apply Hs|apply Ht]).
  - apply Forall_cons in Hok as [Hu Hok].
    destruct (length (r_items u) <? length (r_items t)).
    + destruct (merged_run mg (r_start u) (r_power u) u s Hu Hs) as [Hm Em].
      cbv zeta in Hm, Em.
      destruct (IH (merge_at key mg (r_items u) (r_items s)).2
                   (t :: Run (r_start u)
                           (merge_at key mg (r_items u) (r_items s)).1
                           (r_power u) :: rest')) as [H1 H2].
      { constructor; [exact Ht|]. now constructor. }
      split; [exact H1|]. rewrite H2, !stacked_cons, Em.
      pose proof (Hrep (stacked rest') (r_items u ++ r_items s)
                    (r_items t) []) as H.
      rewrite !app_nil_r in H. rewrite H, <- ?app_assoc; [reflexivity|].
      apply Forall_app. split; [apply Hu|apply Hs].
    + destruct (merged_run mg (r_start s) (r_power s) s t Hs Ht) as [Hm Em].
      cbv zeta in Hm, Em.
      destruct (IH (merge_at key mg (r_items s) (r_items t)).2
                   (Run (r_start s)
                        (merge_at key mg (r_items s) (r_items t)).1
                        (r_power s) :: u :: rest')) as [H1 H2].
      { constructor; [exact Hm|]. now constructor. }
      split; [exact H1|]. rewrite H2, !stacked_cons, Em.
      pose proof (Hrep (stacked rest' ++ r_items u)
                    (r_items s ++ r_items t) [] []) as H.
      rewrite !app_nil_r in H. rewrite H, <- ?app_assoc; [reflexivity|].
      apply Forall_app. split; [apply Hs|apply Ht].
Qed.

(** With as much fuel as there are runs one run is left. *)
Lemma force_collapse_length (fuel mg : nat) (stack : list (@run A)) :
  length stack <= S fuel ->
  length (force_collapse key fuel mg stack).1 <= 1.
Proof.
  revert mg stack. induction fuel as [|fuel IH]; intros mg stack Hlen.
  - exact Hlen.
  - destruct stack as [|t [|s rest]]; [simpl; lia|simpl; lia|].
    cbn [force_collapse]. destruct rest as [|u rest'].
    + apply IH. simpl. lia.
    + destruct (_ <? _); apply IH; simpl in *; lia.
Qed.

Lemma runs_loop_sorted (fuel minrun listlen : nat) :
  1 <= minrun ->
  forall (lo mg : nat) (stack : list (@run A)) (rem : list A),
    length rem <= fuel ->
    Forall (fun r => non_decreasing key (r_items r) /\ no_nan key (r_items r))
      stack ->
    no_nan key rem ->
    Forall (fun r => non_decreasing key (r_items r) /\ no_nan key (r_items r))
      (runs_loop key fuel minrun listlen lo mg stack rem).1
    /\ sort_asc key
         (stacked (runs_loop key fuel minrun listlen lo mg stack rem).1)
       = sort_asc key (stacked stack ++ rem).
Proof.
  intros Hmin.
  induction fuel as [|fuel IH]; intros lo mg stack rem Hlen Hok Hn.
  - destruct rem; [|simpl in Hlen; lia]. simpl. now rewrite app_nil_r.
  - destruct rem as [|x rem']; [simpl; now rewrite app_nil_r|].
    cbn [runs_loop].
    pose proof (new_run_sort_asc key minrun (x :: rem') Hn) as Hrun.
    pose proof (count_run_positive key x rem') as Hpos.
    assert (1 <= length (x :: rem')) as Hne by (simpl; lia).
    assert (x :: rem' <> []) as Hne' by easy. specialize (Hrun Hne').
    clear Hne'. cbv zeta in Hrun.
    revert Hlen Hpos Hne Hn Hrun.
    generalize (count_run key (x :: rem')). generalize (x :: rem').
    clear x rem'. intros rem [n descending] Hlen Hpos Hne Hn Hrun.
    cbn [fst snd] in Hpos, Hrun. rewrite Hrun. clear Hrun.
    set (n' := if n <? minrun then Nat.min minrun (length rem) else n).
    assert (1 <= n') as Hn'.
    { subst n'. destruct (n <? minrun); lia. }
    destruct (found_new_run_sorted n' listlen mg stack Hok) as [F1 F2].
    destruct (IH (lo + n') (found_new_run key n' listlen mg stack).2
                 (Run lo (sort_asc key (take n' rem)) 0
                  :: (found_new_run key n' listlen mg stack).1)
                 (drop n' rem)) as [H1 H2].
    + rewrite length_drop. lia.
    + constructor; [|exact F1]. cbn [r_items]. split.
      * now apply sort_asc_sorted, no_nan_take.
      * now apply sort_asc_no_nan, no_nan_take.
    + now apply no_nan_drop.
    + split; [exact H1|]. rewrite H2, stacked_cons. cbn [r_items].
      rewrite <- app_assoc, sort_asc_replace by now apply no_nan_take.
      rewrite take_drop, !sort_asc_app. now rewrite F2.
Qed.

(** On keys that are ordered the merge sort is the stable sort. *)
Lemma timsort_sort_asc (l : list A) :
  no_nan key l -> timsort key l = sort_asc key l.
Proof.
  intros Hn. unfold timsort. destruct l as [|x [|y l]]; try reflexivity.
  assert (1 <= length (x :: y :: l)) as Hlen by (simpl; lia).
  revert Hlen Hn. generalize (x :: y :: l). clear x y l. intros l Hlen Hn.
  destruct (runs_loop_sorted (length l) (merge_compute_minrun (length l))
              (length l) (minrun_loop_positive _ _ _ Hlen) 0 MIN_GALLOP [] l)
    as [R1 R2]; [lia|constructor|exact Hn|].
  set (r := runs_loop key (length l) (merge_compute_minrun (length l))
              (length l) 0 MIN_GALLOP [] l) in *.
  destruct (force_collapse_sorted (length r.1) r.2 r.1 R1) as [C1 C2].
  pose proof (force_collapse_length (length r.1) r.2 r.1) as CL.
  fold (stacked (force_collapse key (length r.1) r.2 r.1).1).
  destruct (force_collapse key (length r.1) r.2 r.1).1 as [|c [|c' cs]].
  - change (@stacked A []) with (sort_asc key (@stacked A [])).
    rewrite C2, R2. reflexivity.
  - apply Forall_cons in C1 as [[Hc _] _].
    rewrite <- (sort_asc_sorted_id key (stacked [c])).
    + rewrite C2, R2. reflexivity.
    + unfold stacked. simpl. now rewrite app_nil_r.
  - simpl in CL. lia.
Qed.

End Stack.

Section SortReverseOrdered.
Import PyFloat Py.
Local Open Scope nat_scope.

(** The sort upwards of the mirrored list is the mirror of the sort
    downwards. *)
Lemma upper_insert_rev {A : Type} (key : A -> float) (x : A) (s : list A) :
  non_decreasing key s -> no_nan key s ->
  rev (upper_insert key x s) = insert_desc key x (rev s).
Proof.
  intros Hs Hn.
  destruct (split_not_above key x s Hs Hn) as (p & q & -> & Hp & Hq).
  rewrite upper_insert_split by assumption.
  rewrite !rev_app_distr. cbn [rev]. rewrite <- app_assoc. cbn [app].
  apply Forall_rev in Hq. apply Forall_rev in Hp.
  induction Hq as [|y q' Hy Hq IH].
  - cbn [app]. destruct Hp as [|y p' Hy Hp]; [reflexivity|].
    cbn [insert_desc]. unfold islt in Hy. now rewrite Hy.
  - cbn [app insert_desc]. unfold islt in Hy. now rewrite Hy, IH.
Qed.

Lemma sort_asc_rev {A : Type} (key : A -> float) (l : list A) :
  no_nan key l -> rev (sort_asc key (rev l)) = sort_desc key l.
Proof.
  intros Hn. induction l as [|x l IH]; [reflexivity|].
  apply Forall_cons in Hn as [Hx Hn].
  cbn [rev]. rewrite sort_asc_snoc, upper_insert_rev.
  - now rewrite IH.
  - now apply sort_asc_sorted, no_nan_rev.
  - now apply sort_asc_no_nan, no_nan_rev.
Qed.

End SortReverseOrdered.

Section SortReverse.
Import PyFloat Py.
Local Open Scope nat_scope.

Lemma sorted_positions_Permutation (keys : list float) :
  sorted_positions keys ≡ₚ seq 0 (length keys).
Proof.
  unfold sorted_positions.
  rewrite <- Permutation_rev, timsort_Permutation, <- Permutation_rev.
  rewrite snd_zip; [reflexivity|]. rewrite length_seq. lia.
Qed.

Lemma lookup_all_positions {A : Type} (l1 l2 : list A) :
  omap (fun i => (l1 ++ l2) !! i) (seq (length l1) (length l2)) = l2.
Proof.
  revert l1. induction l2 as [|x l2 IH]; intros l1; [reflexivity|].
  simpl. rewrite lookup_app_r by lia. rewrite Nat.sub_diag. simpl.
  f_equal. specialize (IH (l1 ++ [x])).
  rewrite <- app_assoc, length_app in IH. simpl in IH.
  rewrite Nat.add_1_r in IH. exact IH.
Qed.

Lemma sort_reverse_Permutation {A : Type} (key : A -> float) (l : list A) :
  sort_reverse key l ≡ₚ l.
Proof.
  unfold sort_reverse. rewrite sorted_positions_Permutation, length_map.
  pose proof (lookup_all_positions [] l) as H. simpl in H. now rewrite H.
Qed.

Lemma sort_reverse_length {A : Type} (key : A -> float) (l : list A) :
  length (sort_reverse key l) = length l.
Proof. apply Permutation_length, sort_reverse_Permutation. Qed.

(** The sort looks at the keys only. *)
Lemma sort_reverse_map {X Y : Type} (k1 : X -> float) (k2 : Y -> float)
    (h : X -> Y) (l : list X) :
  (forall x, k2 (h x) = k1 x) ->
  sort_reverse k2 (map h l) = map h (sort_reverse k1 l).
Proof.
  intros Hk. unfold sort_reverse.
  assert (map k2 (map h l) = map k1 l) as ->.
  { rewrite map_map. apply map_ext. exact Hk. }
  induction (sorted_positions (map k1 l)) as [|i idx IH]; [reflexivity|].
  cbn [omap list_omap]. rewrite IH.
  pose proof (list_lookup_fmap h l i) as E.
  change (h <$> l) with (map h l) in E. rewrite E.
  destruct (l !! i); reflexivity.
Qed.

Lemma insert_desc_map {X Y : Type} (k1 : X -> float) (k2 : Y -> float)
    (h : X -> Y) (x : X) (l : list X) :
  (forall a, k2 (h a) = k1 a) ->
  insert_desc k2 (h x) (map h l) = map h (insert_desc k1 x l).
Proof.
  intros Hk. induction l as [|y l IH]; [reflexivity|].
  simpl. rewrite !Hk. destruct (fltb (k1 x) (k1 y)); [|reflexivity].
  simpl. now rewrite IH.
Qed.

Lemma sort_desc_map {X Y : Type} (k1 : X -> float) (k2 : Y -> float)
    (h : X -> Y) (l : list X) :
  (forall a, k2 (h a) = k1 a) ->
  sort_desc k2 (map h l) = map h (sort_desc k1 l).
Proof.
  intros Hk. induction l as [|x l IH]; [reflexivity|].
  simpl. rewrite IH. now apply insert_desc_map.
Qed.

(** The elements of a list with their positions. *)
Lemma zip_positions {A : Type} (pre l : list A) :
  Forall (fun p => (pre ++ l) !! p.2 = Some p.1)
    (zip l (seq (length pre) (length l))).
Proof.
  revert pre. induction l as [|x l IH]; intros pre; [constructor|].
  cbn [length seq zip zip_with]. constructor.
  - cbn [fst snd]. rewrite lookup_app_r by lia.
    now rewrite Nat.sub_diag.
  - specialize (IH (pre ++ [x])).
    rewrite <- app_assoc, length_app in IH. cbn [app length] in IH.
    now rewrite Nat.add_1_r in IH.
Qed.

Lemma zip_keys {A : Type} (key : A -> float) (l : list A) (idx : list nat) :
  zip (map key l) idx = map (fun p => (key p.1, p.2)) (zip l idx).
Proof.
  revert idx. induction l as [|x l IH]; intros [|i idx]; try reflexivity.
  cbn [map zip zip_with]. f_equal. apply IH.
Qed.

(** With ordered keys the sort gives the stable descending
    arrangement. *)
Lemma sort_reverse_no_nan {A : Type} (key : A -> float) (l : list A) :
  no_nan key l -> sort_reverse key l = sort_desc key l.
Proof.
  intros Hn. unfold sort_reverse, sorted_positions.
  rewrite length_map, zip_keys.
  set (l' := zip l (seq 0 (length l))).
  assert (no_nan (fun p : A * nat => key p.1) l') as Hn'.
  { unfold no_nan. apply Forall_forall. intros [a i] Hin.
    apply elem_of_zip_l in Hin. cbn [fst].
    unfold no_nan in Hn. rewrite Forall_forall in Hn. now apply Hn. }
  rewrite timsort_sort_asc.
  2:{ apply no_nan_rev. unfold no_nan. apply Forall_map.
      exact Hn'. }
  rewrite sort_asc_rev.
  2:{ unfold no_nan. apply Forall_map. exact Hn'. }
  rewrite (sort_desc_map (fun p : A * nat => key p.1) fst
             (fun p => (key p.1, p.2))) by reflexivity.
  rewrite map_map. cbn [snd].
  assert (l = map fst l') as El.
  { subst l'. symmetry. apply fst_zip. rewrite length_seq. lia. }
  replace (sort_desc key l) with (sort_desc key (map fst l'))
    by now rewrite <- El.
  rewrite (sort_desc_map (fun p : A * nat => key p.1) key fst) by reflexivity.
  assert (Forall (fun p => l !! p.2 = Some p.1)
            (sort_desc (fun p : A * nat => key p.1) l')) as Hpos.
  { rewrite sort_desc_Permutation. apply (zip_positions [] l). }
  induction Hpos as [|p sd Hp Hpos IH]; [reflexivity|].
  cbn [map omap list_omap]. rewrite Hp, IH. reflexivity.
Qed.

End SortReverse.




(** ** The contender extractors *)

Section Extractors.
Import PyFloat Py.
Context (B : builtins).



End Extractors.




(** ** The cache *)

Section Cache.
Import PyFloat Py.
Context (B : builtins) (CACHE_TTL : Z).

(** The entry of a key is fresh at [now]: it exists and its age
    [now - ts] is below the TTL. *)
Lemma lookup_fresh_Some (c : gmap Z (float * list pyval)) (limit : Z)
    (now : float) (data : list pyval) :
  Server.lookup_fresh CACHE_TTL c limit now = Some data
  <-> exists ts, c !! limit = Some (ts, data)
                 /\ Server.flt_int (fsub now ts) CACHE_TTL = true.
Proof.
  unfold Server.lookup_fresh. destruct (c !! limit) as [[ts d]|].
  - destruct (Server.flt_int (fsub now ts) CACHE_TTL) eqn:Hage; split.
    + intros [= ->]. eauto.
    + intros (ts' & [= -> ->] & _). reflexivity.
    + discriminate.
    + intros (ts' & [= -> ->] & H). congruence.
  - split; [discriminate|]. intros (ts & H & _). discriminate.
Qed.


End Cache.



(** ** Concurrent callers of the cache *)

Section Concurrent.
Import PyFloat Py Server.
Context (B : builtins) (CACHE_TTL : Z).

Local Abbreviation step := (Server.step B CACHE_TTL).
Local Abbreviation run := (Server.run B CACHE_TTL).
Local Abbreviation reachable := (Server.reachable B CACHE_TTL).
Local Abbreviation enter := (Server.enter CACHE_TTL).

Lemma enter_consistent (t : nat) (limit : Z) (now : float) (s : server) :
  consistent s -> s_holder s = None -> t ∉ s_waiters s ->
  consistent (enter t limit now s).
Proof.
  intros (Hf & Hnd & Hw) Hh Ht. unfold Server.enter.
  destruct (lookup_fresh CACHE_TTL (s_cache s) limit now);
    (split; [|split]); simpl; try assumption.
  - intros t' l' n'. rewrite lookup_insert. case_decide; [discriminate|].
    intros Hfe. apply Hf in Hfe. congruence.
  - intros t' Hin. rewrite lookup_insert_ne; [auto|]. congruence.
  - intros t' l' n'. rewrite lookup_insert. case_decide; [congruence|].
    intros Hfe. apply Hf in Hfe. congruence.
  - intros t' Hin. rewrite lookup_insert_ne; [auto|]. congruence.
Qed.

Lemma step_consistent (a : action) (s s' : server) :
  consistent s -> step a s = Some s' -> consistent s'.
Proof.
  intros Hc Hs. pose proof Hc as (Hf & Hnd & Hw).
  destruct a as [t limit now| |t out]; simpl in Hs.
  - destruct (s_tasks s !! t) eqn:Ht; [discriminate|].
    assert (t ∉ s_waiters s) as Hnw.
    { intros Hin. destruct (Hw t Hin) as (? & ? & ?). congruence. }
    destruct (lock_free s) eqn:Hl; injection Hs as <-.
    + apply enter_consistent; [assumption| |assumption].
      unfold lock_free in Hl. destruct (s_holder s); [discriminate|reflexivity].
    + (split; [|split]); simpl.
      * intros t' l' n'. rewrite lookup_insert. case_decide; [discriminate|].
        apply Hf.
      * apply NoDup_app. split; [assumption|]. split; [|apply NoDup_singleton].
        intros x Hx ->%list_elem_of_singleton. contradiction.
      * intros t' [Hin| ->%list_elem_of_singleton]%elem_of_app.
        -- rewrite lookup_insert_ne; [auto|]. congruence.
        -- rewrite lookup_insert_eq. eauto.
  - destruct (s_holder s) eqn:Hh; [discriminate|].
    destruct (s_waiters s) as [|t ws] eqn:Hws; [discriminate|].
    destruct (s_tasks s !! t) as [[limit now|? ?|?]|] eqn:Ht; try discriminate.
    injection Hs as <-. apply NoDup_cons in Hnd as [Hnt Hnd].
    apply enter_consistent; simpl; [|reflexivity|assumption].
    (split; [|split]); simpl.
    + intros t' l' n' Hfe. apply Hf in Hfe. congruence.
    + assumption.
    + intros t' Hin. apply Hw. now right.
  - destruct (s_tasks s !! t) as [[? ?|limit now|?]|] eqn:Ht; try discriminate.
    assert (t ∉ s_waiters s) as Hnw.
    { intros Hin. destruct (Hw t Hin) as (? & ? & ?). congruence. }
    pose proof (Hf _ _ _ Ht) as Hh.
    destruct (Dashboard.fetch_events B limit out); injection Hs as <-;
      (split; [|split]); simpl; try assumption.
    all: try (intros t' l' n'; rewrite lookup_insert; case_decide;
              [discriminate|]; intros Hfe; apply Hf in Hfe; congruence).
    all: intros t' Hin; rewrite lookup_insert_ne; [auto|]; congruence.
Qed.

Lemma initial_consistent : consistent initial.
Proof.
  (split; [|split]); simpl.
  - intros t l n. rewrite lookup_empty. discriminate.
  - constructor.
  - intros t Hin. inversion Hin.
Qed.

Lemma reachable_consistent (s : server) : reachable s -> consistent s.
Proof.
  induction 1 as [|a s s' _ IH Hs]; [apply initial_consistent|].
  eapply step_consistent; eassumption.
Qed.

Lemma run_reachable (acts : list action) (s s' : server) :
  reachable s -> run acts s = Some s' -> reachable s'.
Proof.
  revert s. induction acts as [|a acts IH]; simpl; intros s Hr Hs.
  - now injection Hs as <-.
  - destruct (step a s) as [s1|] eqn:H1; [|discriminate].
    eapply IH; [|eassumption]. eapply reachable_step; eassumption.
Qed.

(** Once the lock is free and the entry of [limit] is in the cache,
    resuming the queued callers one after the other serves each of
    those that called within the TTL from the cache. *)
Lemma wake_all_fresh (limit : Z) (ts : float) (data : list pyval)
    (ws : list nat) :
  forall s : server,
    s_holder s = None -> s_waiters s = ws -> NoDup ws ->
    s_cache s !! limit = Some (ts, data) ->
    (forall t, t ∈ ws ->
       exists now, s_tasks s !! t = Some (Waiting limit now)
                   /\ flt_int (fsub now ts) CACHE_TTL = true) ->
    exists s',
      run (repeat Wake (length ws)) s = Some s'
      /\ s_runs s' = s_runs s
      /\ s_cache s' = s_cache s
      /\ s_holder s' = None
      /\ (forall t, t ∈ ws -> s_tasks s' !! t = Some (Returned (Ok data)))
      /\ (forall t, t ∉ ws -> s_tasks s' !! t = s_tasks s !! t).
Proof.
  induction ws as [|t ws IH]; intros s Hh Hws Hnd Hc Hall.
  - exists s. simpl. repeat split; try assumption; try reflexivity.
    intros t Hin. inversion Hin.
  - apply NoDup_cons in Hnd as [Hnt Hnd].
    destruct (Hall t) as (now & Ht & Hage); [now left|].
    assert (lookup_fresh CACHE_TTL (s_cache s) limit now = Some data) as Hl.
    { unfold lookup_fresh. rewrite Hc, Hage. reflexivity. }
    set (s1 := ServerState (s_cache s) (s_runs s) None ws
                           (<[t := Returned (Ok data)]> (s_tasks s))).
    assert (step Wake s = Some s1) as Hstep.
    { simpl. rewrite Hh, Hws, Ht. unfold Server.enter. simpl.
      rewrite Hl. reflexivity. }
    destruct (IH s1) as (s' & Hrun & Hr & Hc' & Hh' & Hin & Hout);
      try reflexivity; try assumption.
    { intros t' Hin. destruct (Hall t') as (now' & Ht' & Hage');
        [now right|].
      exists now'. split; [|assumption]. simpl.
      rewrite lookup_insert_ne; [assumption|]. congruence. }
    exists s'. cbn [length repeat Server.run]. rewrite Hstep.
    repeat split; try assumption.
    + intros t' [->|Hin']%elem_of_cons; [|auto].
      rewrite (Hout t Hnt). simpl. apply lookup_insert_eq.
    + intros t' Hn. apply not_elem_of_cons in Hn as [Hne Hn].
      rewrite (Hout t' Hn). simpl. now apply lookup_insert_ne.
Qed.

(** A call that nothing interleaves with is [get_events]: the call,
    followed by the end of its fetch when it had to fetch. *)
Lemma get_events_as_steps (t : nat) (limit : Z) (now : float)
    (out : Dashboard.completed) (s : server) :
  lock_free s = true -> s_tasks s !! t = None ->
  let r := get_events B CACHE_TTL limit now out
             (World (s_cache s) (s_runs s)) in
  exists acts s',
    (acts = [Call t limit now] \/ acts = [Call t limit now; FetchDone t out])
    /\ run acts s = Some s'
    /\ s_tasks s' !! t = Some (Returned (fst r))
    /\ World (s_cache s') (s_runs s') = snd r.
Proof.
  intros Hfree Ht. cbv zeta. unfold get_events. simpl.
  destruct (lookup_fresh CACHE_TTL (s_cache s) limit now) as [data|] eqn:Hl.
  - exists [Call t limit now]. eexists. split; [now left|].
    simpl. rewrite Ht, Hfree. unfold Server.enter. rewrite Hl.
    split; [reflexivity|]. simpl. split; [apply lookup_insert_eq|reflexivity].
  - exists [Call t limit now; FetchDone t out]. simpl.
    rewrite Ht, Hfree. unfold Server.enter. rewrite Hl. simpl.
    rewrite lookup_insert_eq.
    destruct (Dashboard.fetch_events B limit out) as [data|e];
      eexists; (split; [now right|]); (split; [reflexivity|]); simpl;
      (split; [apply lookup_insert_eq|reflexivity]).
Qed.

End Concurrent.

(** *** The lock does not wedge *)

Section Progress.
Import PyFloat Py Server.
Context (B : builtins) (CACHE_TTL : Z).

Local Abbreviation step := (Server.step B CACHE_TTL).
Local Abbreviation run := (Server.run B CACHE_TTL).
Local Abbreviation reachable := (Server.reachable B CACHE_TTL).
Local Abbreviation enter := (Server.enter CACHE_TTL).

Lemma enter_orderly (t : nat) (limit : Z) (now : float) (s : server) :
  s_holder s = None ->
  (forall t' l n, t' <> t ->
     s_tasks s !! t' = Some (Waiting l n) -> t' ∈ s_waiters s) ->
  orderly (enter t limit now s).
Proof.
  intros Hh Hw. unfold Server.enter.
  destruct (lookup_fresh CACHE_TTL (s_cache s) limit now) as [data|];
    split; simpl.
  - discriminate.
  - intros t' l n. rewrite lookup_insert. case_decide; [discriminate|].
    apply Hw. congruence.
  - intros t' [= <-]. rewrite lookup_insert_eq. eauto.
  - intros t' l n. rewrite lookup_insert. case_decide; [discriminate|].
    apply Hw. congruence.
Qed.

Lemma step_orderly (a : action) (s s' : server) :
  consistent s -> orderly s -> step a s = Some s' -> orderly s'.
Proof.
  intros (Hf & Hnd & Hq) (Hh & Hw) Hs.
  destruct a as [t limit now| |t out]; simpl in Hs.
  - destruct (s_tasks s !! t) eqn:Ht; [discriminate|].
    destruct (lock_free s) eqn:Hl; injection Hs as <-.
    + apply enter_orderly.
      * unfold lock_free in Hl. destruct (s_holder s); [discriminate|reflexivity].
      * intros t' l n _. apply Hw.
    + split; simpl.
      * intros t' Ht'. rewrite lookup_insert. case_decide as Heq.
        -- subst t'. destruct (Hh t Ht') as (? & ? & ?). congruence.
        -- apply Hh. assumption.
      * intros t' l n. rewrite lookup_insert, elem_of_app.
        case_decide as Heq.
        -- intros _. right. subst. now left.
        -- intros Ht'. left. eapply Hw. eassumption.
  - destruct (s_holder s) eqn:Hhold; [discriminate|].
    destruct (s_waiters s) as [|t ws] eqn:Hws; [discriminate|].
    destruct (s_tasks s !! t) as [[limit now|? ?|?]|] eqn:Ht; try discriminate.
    injection Hs as <-. apply enter_orderly; simpl; [reflexivity|].
    intros t' l n Hne Ht'. apply Hw in Ht'.
    apply elem_of_cons in Ht' as [->|Hin]; [contradiction|assumption].
  - destruct (s_tasks s !! t) as [[? ?|limit now|?]|] eqn:Ht; try discriminate.
    destruct (Dashboard.fetch_events B limit out); injection Hs as <-;
      split; simpl; try discriminate;
      intros t' l n; rewrite lookup_insert; case_decide; try discriminate;
      apply Hw.
Qed.

Lemma initial_orderly : orderly initial.
Proof.
  split; simpl; [discriminate|].
  intros t l n. rewrite lookup_empty. discriminate.
Qed.

Lemma reachable_orderly (s : server) : reachable s -> orderly s.
Proof.
  induction 1 as [|a s s' Hr IH Hs]; [apply initial_orderly|].
  eapply step_orderly; [|eassumption|eassumption].
  eapply reachable_consistent. eassumption.
Qed.

(** A step leaves the calls that returned as they are and forgets no
    call. *)
Lemma step_keeps_tasks (a : action) (s s' : server) :
  step a s = Some s' ->
  (forall t r, s_tasks s !! t = Some (Returned r) ->
     s_tasks s' !! t = Some (Returned r))
  /\ (forall t, is_Some (s_tasks s !! t) -> is_Some (s_tasks s' !! t)).
Proof.
  intros Hs.
  assert (forall t k (m : gmap nat task),
             (forall r, m !! t <> Some (Returned r)) ->
             (forall t' r, m !! t' = Some (Returned r) ->
                <[t := k]> m !! t' = Some (Returned r))
             /\ (forall t', is_Some (m !! t') ->
                   is_Some (<[t := k]> m !! t'))) as Hins.
  { intros t k m Hnr. split.
    - intros t' r Ht'. rewrite lookup_insert_ne; [assumption|].
      intros ->. eapply Hnr. eassumption.
    - intros t' Ht'. rewrite lookup_insert. case_decide; [eauto|assumption]. }
  destruct a as [t limit now| |t out]; simpl in Hs.
  - destruct (s_tasks s !! t) eqn:Ht; [discriminate|].
    unfold Server.enter in Hs.
    destruct (lock_free s), (lookup_fresh CACHE_TTL (s_cache s) limit now);
      injection Hs as <-; simpl; apply Hins; intros r; congruence.
  - destruct (s_holder s); [discriminate|].
    destruct (s_waiters s) as [|t ws]; [discriminate|].
    destruct (s_tasks s !! t) as [[limit now|? ?|?]|] eqn:Ht; try discriminate.
    unfold Server.enter in Hs. simpl in Hs.
    destruct (lookup_fresh CACHE_TTL (s_cache s) limit now);
      injection Hs as <-; simpl; apply Hins; intros r; congruence.
  - destruct (s_tasks s !! t) as [[? ?|limit now|?]|] eqn:Ht; try discriminate.
    destruct (Dashboard.fetch_events B limit out); injection Hs as <-;
      simpl; apply Hins; intros r; congruence.
Qed.

Lemma run_app (acts1 acts2 : list action) (s s1 : server) :
  run acts1 s = Some s1 -> run (acts1 ++ acts2) s = run acts2 s1.
Proof.
  revert s. induction acts1 as [|a acts1 IH]; simpl; intros s H.
  - now injection H as <-.
  - destruct (step a s); [now apply IH|discriminate].
Qed.

Lemma all_returned_step (a : action) (s s1 s' : server) :
  step a s = Some s1 -> all_returned s1 s' -> all_returned s s'.
Proof.
  intros Hs H1 t Ht. apply H1.
  eapply (proj2 (step_keeps_tasks a s s1 Hs)). exact Ht.
Qed.

(** The holder of the lock can always be resumed; it then releases the
    lock and leaves the queue as it is. *)
Lemma holder_releases (out : Dashboard.completed) (s : server) (t : nat) :
  orderly s -> s_holder s = Some t ->
  exists s2, step (FetchDone t out) s = Some s2
             /\ s_holder s2 = None /\ s_waiters s2 = s_waiters s.
Proof.
  intros (Hh & _) Ht. destruct (Hh t Ht) as (limit & now & Hf).
  simpl. rewrite Hf.
  destruct (Dashboard.fetch_events B limit out); eexists;
    (split; [reflexivity|]); split; reflexivity.
Qed.

(** The first waiter of a free lock can always be resumed and leaves
    the queue. *)
Lemma head_wakes (s : server) (t : nat) (ws : list nat) :
  consistent s -> s_holder s = None -> s_waiters s = t :: ws ->
  exists s1, step Wake s = Some s1 /\ s_waiters s1 = ws.
Proof.
  intros (_ & _ & Hq) Hh Hws.
  destruct (Hq t) as (limit & now & Ht); [rewrite Hws; now left|].
  simpl. rewrite Hh, Hws, Ht. eexists. split; [reflexivity|].
  unfold Server.enter. simpl.
  destruct (lookup_fresh CACHE_TTL (s_cache s) limit now); reflexivity.
Qed.

Lemma drains (out : Dashboard.completed) (n : nat) :
  forall s : server,
    length (s_waiters s) = n -> reachable s ->
    exists acts s',
      run acts s = Some s' /\ lock_free s' = true /\ all_returned s s'
      /\ Forall (resumes out) acts.
Proof.
  induction n as [|n IH].
  - assert (forall s : server,
               length (s_waiters s) = 0%nat -> reachable s ->
               s_holder s = None ->
               exists acts s',
                 run acts s = Some s' /\ lock_free s' = true
                 /\ all_returned s s' /\ Forall (resumes out) acts) as Hfree.
    { intros s Hlen Hr Hh. exists [], s.
      apply length_zero_iff_nil in Hlen.
      pose proof (reachable_consistent _ _ _ Hr) as (Hf & _ & _).
      pose proof (reachable_orderly _ Hr) as (_ & Hw).
      split; [reflexivity|]. split; [|split; [|constructor]].
      - unfold lock_free. rewrite Hh, Hlen. reflexivity.
      - intros t [[l w|l w|r] Ht].
        + apply Hw in Ht. rewrite Hlen in Ht. inversion Ht.
        + apply Hf in Ht. congruence.
        + eauto. }
    intros s Hlen Hr. destruct (s_holder s) as [t|] eqn:Hh; [|now apply Hfree].
    destruct (holder_releases out s t (reachable_orderly _ Hr) Hh)
      as (s2 & Hs2 & Hh2 & Hw2).
    destruct (Hfree s2) as (acts & s' & Hrun & Hl & Hall & Hres).
    + congruence.
    + eapply reachable_step; eassumption.
    + assumption.
    + exists (FetchDone t out :: acts), s'. cbn [Server.run]. rewrite Hs2.
      split; [assumption|]. split; [assumption|]. split.
      * eapply all_returned_step; eassumption.
      * constructor; [right; eauto|assumption].
  - assert (forall s : server,
               length (s_waiters s) = S n -> reachable s ->
               s_holder s = None ->
               exists acts s',
                 run acts s = Some s' /\ lock_free s' = true
                 /\ all_returned s s' /\ Forall (resumes out) acts) as Hfree.
    { intros s Hlen Hr Hh.
      destruct (s_waiters s) as [|t ws] eqn:Hws; [discriminate|].
      destruct (head_wakes s t ws (reachable_consistent _ _ _ Hr) Hh Hws)
        as (s1 & Hs1 & Hw1).
      destruct (IH s1) as (acts & s' & Hrun & Hl & Hall & Hres).
      - simpl in Hlen. congruence.
      - eapply reachable_step; eassumption.
      - exists (Wake :: acts), s'. cbn [Server.run]. rewrite Hs1.
        split; [assumption|]. split; [assumption|]. split.
        + eapply all_returned_step; eassumption.
        + constructor; [now left|assumption]. }
    intros s Hlen Hr. destruct (s_holder s) as [t|] eqn:Hh; [|now apply Hfree].
    destruct (holder_releases out s t (reachable_orderly _ Hr) Hh)
      as (s2 & Hs2 & Hh2 & Hw2).
    destruct (Hfree s2) as (acts & s' & Hrun & Hl & Hall & Hres).
    + congruence.
    + eapply reachable_step; eassumption.
    + assumption.
    + exists (FetchDone t out :: acts), s'. cbn [Server.run]. rewrite Hs2.
      split; [assumption|]. split; [assumption|]. split.
      * eapply all_returned_step; eassumption.
      * constructor; [right; eauto|assumption].
Qed.

End Progress.

(** *** Callers queued behind a fetch *)

Section SharedResult.
Import PyFloat Py Server.
Context (B : builtins) (CACHE_TTL : Z).

Local Abbreviation step := (Server.step B CACHE_TTL).
Local Abbreviation run := (Server.run B CACHE_TTL).
Local Abbreviation reachable := (Server.reachable B CACHE_TTL).
Local Abbreviation awaits := (Server.awaits_entry CACHE_TTL).

(** A call that waits for the entry keeps waiting for it, whatever the
    loop does, until it is resumed; it then returns the entry. *)
Lemma step_awaits (k : Z) (ts : float) (data : list pyval) (t : nat)
    (now : float) (a : action) (s s' : server) :
  consistent s -> awaits k ts data t now s -> step a s = Some s' ->
  s_tasks s' !! t = Some (Returned (Ok data)) \/ awaits k ts data t now s'.
Proof.
  intros (Hf & Hnd & Hq) (Ht & Hfresh & Hc & Hh & pre & post & Hws & Hpre) Hs.
  assert (forall u, u ∈ pre -> is_Some (s_tasks s !! u)) as Hpre_some.
  { intros u Hu. destruct (Hq u) as (l & n & Hu'); [|eauto].
    rewrite Hws. apply elem_of_app. now left. }
  destruct a as [t' limit' now'| |h out]; simpl in Hs.
  - destruct (s_tasks s !! t') eqn:Ht'; [discriminate|].
    assert (lock_free s = false) as Hl.
    { unfold lock_free. rewrite Hws.
      destruct (s_holder s), pre; reflexivity. }
    rewrite Hl in Hs. injection Hs as <-. right.
    unfold Server.awaits_entry.
    assert (t <> t') as Hne by congruence.
    split; [simpl; now rewrite lookup_insert_ne|].
    split; [exact Hfresh|]. split; [exact Hc|]. split.
    + simpl. intros h l n Hhold. rewrite lookup_insert.
      case_decide; [discriminate|]. now apply Hh.
    + exists pre, (post ++ [t'])%list. simpl. split.
      * rewrite Hws, <- app_assoc. reflexivity.
      * intros u n Hu. rewrite lookup_insert. case_decide as Heq.
        -- subst u. destruct (Hpre_some t' Hu). congruence.
        -- now apply Hpre.
  - destruct (s_holder s) eqn:Hhold; [discriminate|].
    destruct (s_waiters s) as [|u ws] eqn:Hwaiters; [discriminate|].
    destruct (s_tasks s !! u) as [[l n|? ?|?]|] eqn:Hu; try discriminate.
    injection Hs as <-. unfold Server.enter. simpl.
    destruct pre as [|u' pre'].
    + injection Hws as -> ->. rewrite Ht in Hu. injection Hu as <- <-.
      left. unfold lookup_fresh. rewrite Hc, Hfresh. simpl.
      apply lookup_insert_eq.
    + injection Hws as <- ->. right.
      assert (t <> u) as Hne.
      { intros <-. apply NoDup_cons in Hnd as [Hnin _]. apply Hnin.
        apply elem_of_app. right. now left. }
      assert (forall v, v ∈ pre' -> v <> u) as Hpre_ne.
      { intros v Hv <-. apply NoDup_cons in Hnd as [Hnin _]. apply Hnin.
        apply elem_of_app. now left. }
      unfold Server.awaits_entry.
      destruct (lookup_fresh CACHE_TTL (s_cache s) l n) as [d|] eqn:Hl; simpl.
      * split; [now rewrite lookup_insert_ne|].
        split; [exact Hfresh|]. split; [exact Hc|].
        split; [discriminate|].
        exists pre', post. split; [reflexivity|].
        intros v n' Hv. rewrite lookup_insert_ne by (apply not_eq_sym; auto).
        apply Hpre. now right.
      * assert (l <> k) as Hlk.
        { intros ->. assert (flt_int (fsub n ts) CACHE_TTL = true) as Hn
            by (apply (Hpre u n); [now left|exact Hu]).
          unfold lookup_fresh in Hl. rewrite Hc, Hn in Hl. discriminate. }
        split; [now rewrite lookup_insert_ne|].
        split; [exact Hfresh|]. split; [exact Hc|]. split.
        -- intros h l' n' [= <-]. rewrite lookup_insert_eq.
           intros [= <- <-]. exact Hlk.
        -- exists pre', post. split; [reflexivity|].
           intros v n' Hv.
           rewrite lookup_insert_ne by (apply not_eq_sym; auto).
           apply Hpre. now right.
  - destruct (s_tasks s !! h) as [[? ?|l n|?]|] eqn:Hhe; try discriminate.
    pose proof (Hf h l n Hhe) as Hhold.
    pose proof (Hh h l n Hhold Hhe) as Hlk.
    assert (t <> h) as Hne by congruence.
    right. unfold Server.awaits_entry.
    destruct (Dashboard.fetch_events B l out) as [d|e]; injection Hs as <-;
      (split; [simpl; now rewrite lookup_insert_ne|]);
      (split; [exact Hfresh|]);
      (split; [simpl; rewrite ?lookup_insert_ne by exact Hlk; exact Hc|]);
      (split; [discriminate|]);
      exists pre, post; (split; [exact Hws|]);
      intros v n' Hv; simpl; rewrite lookup_insert;
      (case_decide; [discriminate|]); now apply Hpre.
Qed.

Lemma run_awaits (k : Z) (ts : float) (data : list pyval) (t : nat)
    (now : float) (acts : list action) :
  forall s s' : server,
    reachable s ->
    s_tasks s !! t = Some (Returned (Ok data)) \/ awaits k ts data t now s ->
    run acts s = Some s' ->
    s_tasks s' !! t = Some (Returned (Ok data)) \/ awaits k ts data t now s'.
Proof.
  induction acts as [|a acts IH]; intros s s' Hr Hinv Hrun; simpl in Hrun.
  - now injection Hrun as <-.
  - destruct (Server.step B CACHE_TTL a s) as [s1|] eqn:Hs; [|discriminate].
    apply (IH s1 s'); [eapply reachable_step; eassumption| |exact Hrun].
    destruct Hinv as [Hret|Haw].
    + left. eapply (proj1 (step_keeps_tasks B CACHE_TTL a s s1 Hs)).
      exact Hret.
    + eapply step_awaits; [|exact Haw|exact Hs].
      eapply reachable_consistent. exact Hr.
Qed.

(** When the fetch for [k] returns, the queued calls for [k] that find
    its entry fresh, with those ahead of them, wait for that entry. *)
Lemma fetch_done_awaits (s : server) (f : nat) (k : Z) (ts : float)
    (out : Dashboard.completed) (data : list pyval) (i t : nat)
    (now : float) :
  reachable s ->
  s_tasks s !! f = Some (Fetching k ts) ->
  Dashboard.fetch_events B k out = Ok data ->
  s_waiters s !! i = Some t ->
  s_tasks s !! t = Some (Waiting k now) ->
  (forall u n, u ∈ take (S i) (s_waiters s) ->
     s_tasks s !! u = Some (Waiting k n) ->
     flt_int (fsub n ts) CACHE_TTL = true) ->
  exists s1,
    step (FetchDone f out) s = Some s1
    /\ reachable s1
    /\ s_runs s1 = s_runs s
    /\ s_tasks s1 !! f = Some (Returned (Ok data))
    /\ awaits k ts data t now s1.
Proof.
  intros Hr Hfe Hout Hi Ht Hall.
  set (s1 := ServerState (<[k := (ts, data)]> (s_cache s)) (s_runs s) None
                         (s_waiters s)
                         (<[f := Returned (Ok data)]> (s_tasks s))).
  assert (step (FetchDone f out) s = Some s1) as Hstep.
  { simpl. rewrite Hfe, Hout. reflexivity. }
  exists s1. split; [exact Hstep|].
  split; [eapply reachable_step; eassumption|]. split; [reflexivity|].
  split; [simpl; apply lookup_insert_eq|].
  assert (t <> f) as Hne by congruence. unfold Server.awaits_entry.
  split; [simpl; now rewrite lookup_insert_ne|]. split.
  { apply (Hall t now); [|exact Ht].
    apply elem_of_take. exists i. split; [exact Hi|lia]. }
  split; [simpl; apply lookup_insert_eq|]. split; [discriminate|].
  exists (take i (s_waiters s)), (drop (S i) (s_waiters s)). split.
  - simpl. symmetry. apply take_drop_middle. exact Hi.
  - intros u n Hu. simpl. rewrite lookup_insert.
    case_decide; [discriminate|]. apply Hall.
    apply elem_of_take in Hu as (j & Hj & Hlt).
    apply elem_of_take. exists j. split; [exact Hj|lia].
Qed.

End SharedResult.

(** The state two simultaneous calls for different keys lead to: the
    first fetches, the second is queued behind it, has started nothing
    upstream and cannot be resumed. *)
Lemma fetch_blocks_other_key :
  exists s,
    Samples.after Samples.two_key_calls = Some s
    /\ Server.s_tasks s !! 1%nat
       = Some (Server.Fetching 10 (PyFloat.of_Z 0))
    /\ Server.s_tasks s !! 2%nat
       = Some (Server.Waiting 20 (PyFloat.of_Z 0))
    /\ Server.s_runs s = 1%nat
    /\ Server.step Samples.sample_builtins Samples.ttl Server.Wake s = None.
Proof.
  eexists. split; [vm_compute; reflexivity|].
  repeat split; vm_compute; reflexivity.
Qed.

(** C3, as the code has it: the callers share one lock, so in every
    state the server can reach at most one upstream fetch is in flight,
    whatever the keys; a call made while a fetch is in flight, for the
    same key or another, starts no fetch and is queued, and no queued
    caller is resumed before the fetch is done; when the fetch returns,
    the fetching caller and every queued caller for its key that called
    less than the TTL after it return its result, with no further
    upstream invocation. When the queue holds such callers only,
    resuming them one after the other serves them all and leaves the
    number of upstream runs as it is. In a queue that also holds
    callers for other keys, such a caller, the callers for its key
    ahead of it being such callers too, is never made to fetch,
    whatever the loop does next (callers for other keys resumed, their
    fetches ended with any answer, new calls made), and has returned
    that result once the calls in progress are resumed. *)
Theorem one_fetch_in_flight (B : Py.builtins) (CACHE_TTL : Z)
    (s : Server.server) :
  Server.reachable B CACHE_TTL s ->
  (forall t1 t2 k1 k2,
      Server.fetching s t1 k1 -> Server.fetching s t2 k2 -> t1 = t2)
  /\ (forall f k t k' now,
        Server.fetching s f k -> Server.s_tasks s !! t = None ->
        exists s',
          Server.step B CACHE_TTL (Server.Call t k' now) s = Some s'
          /\ Server.s_tasks s' !! t = Some (Server.Waiting k' now)
          /\ Server.s_runs s' = Server.s_runs s
          /\ Server.step B CACHE_TTL Server.Wake s' = None)
  /\ (forall f k ts out data,
        Server.s_tasks s !! f = Some (Server.Fetching k ts) ->
        Dashboard.fetch_events B k out = Py.Ok data ->
        (forall t, t ∈ Server.s_waiters s ->
           exists now,
             Server.s_tasks s !! t = Some (Server.Waiting k now)
             /\ Server.flt_int (PyFloat.fsub now ts) CACHE_TTL = true) ->
        exists s',
          Server.run B CACHE_TTL
            (Server.FetchDone f out
               :: repeat Server.Wake (length (Server.s_waiters s))) s
          = Some s'
          /\ Server.s_runs s' = Server.s_runs s
          /\ Server.s_tasks s' !! f = Some (Server.Returned (Py.Ok data))
          /\ forall t, t ∈ Server.s_waiters s ->
               Server.s_tasks s' !! t = Some (Server.Returned (Py.Ok data)))
  /\ (forall f k ts out data,
        Server.s_tasks s !! f = Some (Server.Fetching k ts) ->
        Dashboard.fetch_events B k out = Py.Ok data ->
        exists s1,
          Server.step B CACHE_TTL (Server.FetchDone f out) s = Some s1
          /\ Server.s_runs s1 = Server.s_runs s
          /\ Server.s_tasks s1 !! f = Some (Server.Returned (Py.Ok data))
          /\ forall i t now,
               Server.s_waiters s !! i = Some t ->
               Server.s_tasks s !! t = Some (Server.Waiting k now) ->
               (forall u n, u ∈ take (S i) (Server.s_waiters s) ->
                  Server.s_tasks s !! u = Some (Server.Waiting k n) ->
                  Server.flt_int (PyFloat.fsub n ts) CACHE_TTL = true) ->
               (forall acts s',
                   Server.run B CACHE_TTL acts s1 = Some s' ->
                   Server.s_tasks s' !! t = Some (Server.Waiting k now)
                   \/ Server.s_tasks s' !! t
                      = Some (Server.Returned (Py.Ok data)))
               /\ forall out', exists acts s',
                    Server.run B CACHE_TTL acts s1 = Some s'
                    /\ Forall (Server.resumes out') acts
                    /\ Server.s_tasks s' !! t
                       = Some (Server.Returned (Py.Ok data))).
Proof.
  intros Hr. pose proof (reachable_consistent _ _ _ Hr) as (Hf & Hnd & Hw).
  split; [|split; [|split]].
  - intros t1 t2 k1 k2 [n1 H1] [n2 H2].
    apply Hf in H1, H2. congruence.
  - intros f k t k' now [nf Hfe] Ht. apply Hf in Hfe.
    exists (Server.ServerState
              (Server.s_cache s) (Server.s_runs s) (Server.s_holder s)
              (Server.s_waiters s ++ [t])
              (<[t := Server.Waiting k' now]> (Server.s_tasks s))).
    split; [|split; [|split]].
    + simpl. rewrite Ht. unfold Server.lock_free. rewrite Hfe. reflexivity.
    + simpl. apply lookup_insert_eq.
    + reflexivity.
    + simpl. rewrite Hfe. reflexivity.
  - intros f k ts out data Hfe Hout Hall.
    assert (f ∉ Server.s_waiters s) as Hnf.
    { intros Hin. destruct (Hw f Hin) as (? & ? & ?). congruence. }
    set (s1 := Server.ServerState
                 (<[k := (ts, data)]> (Server.s_cache s)) (Server.s_runs s)
                 None (Server.s_waiters s)
                 (<[f := Server.Returned (Py.Ok data)]> (Server.s_tasks s))).
    assert (Server.step B CACHE_TTL (Server.FetchDone f out) s = Some s1)
      as Hstep.
    { simpl. rewrite Hfe, Hout. reflexivity. }
    destruct (wake_all_fresh B CACHE_TTL k ts data (Server.s_waiters s) s1)
      as (s' & Hrun & Hruns & _ & _ & Hin & Hout');
      try reflexivity; try assumption.
    { simpl. apply lookup_insert_eq. }
    { intros t Hin. destruct (Hall t Hin) as (now & Ht & Hage).
      exists now. split; [|assumption]. simpl.
      rewrite lookup_insert_ne; [assumption|]. congruence. }
    exists s'. cbn [Server.run]. rewrite Hstep.
    repeat split; try assumption.
    rewrite (Hout' f Hnf). simpl. apply lookup_insert_eq.
  - intros f k ts out data Hfe Hout.
    set (s1 := Server.ServerState
                 (<[k := (ts, data)]> (Server.s_cache s)) (Server.s_runs s)
                 None (Server.s_waiters s)
                 (<[f := Server.Returned (Py.Ok data)]> (Server.s_tasks s))).
    assert (Server.step B CACHE_TTL (Server.FetchDone f out) s = Some s1)
      as Hstep.
    { simpl. rewrite Hfe, Hout. reflexivity. }
    exists s1. split; [exact Hstep|]. split; [reflexivity|].
    split; [simpl; apply lookup_insert_eq|].
    intros i t now Hi Ht Hfresh.
    destruct (fetch_done_awaits B CACHE_TTL s f k ts out data i t now
                Hr Hfe Hout Hi Ht Hfresh)
      as (s1' & Hstep' & Hr1 & _ & _ & Haw).
    assert (s1' = s1) as -> by congruence.
    assert (forall acts s',
               Server.run B CACHE_TTL acts s1 = Some s' ->
               Server.s_tasks s' !! t = Some (Server.Waiting k now)
               \/ Server.s_tasks s' !! t
                  = Some (Server.Returned (Py.Ok data))) as Hsafe.
    { intros acts s' Hrun.
      destruct (run_awaits B CACHE_TTL k ts data t now acts s1 s' Hr1
                  (or_intror Haw) Hrun) as [Hret|Hwait];
        [now right|left; apply Hwait]. }
    split; [exact Hsafe|]. intros out'.
    destruct (drains B CACHE_TTL out' (length (Server.s_waiters s1)) s1
                eq_refl Hr1) as (acts & s' & Hrun & _ & Hall & Hres).
    exists acts, s'. split; [exact Hrun|]. split; [exact Hres|].
    destruct (Hall t) as [r Hret].
    { destruct Haw as [Ht1 _]. rewrite Ht1. eauto. }
    destruct (Hsafe acts s' Hrun) as [Hwait|Hdone]; [congruence|exact Hdone].
Qed.

Lemma after_same_key_calls :
  Samples.after Samples.same_key_calls
  = Some (Samples.state_after Samples.same_key_calls).
Proof. vm_compute. reflexivity. Qed.

Lemma after_mixed_key_calls :
  Samples.after Samples.mixed_key_calls
  = Some (Samples.state_after Samples.mixed_key_calls).
Proof. vm_compute. reflexivity. Qed.

Lemma one_fetch_in_flight_sample :
  (Server.reachable Samples.sample_builtins Samples.ttl
     (Samples.state_after Samples.same_key_calls)
   /\ (forall t1 t2 k1 k2,
         Server.fetching (Samples.state_after Samples.same_key_calls) t1 k1 ->
         Server.fetching (Samples.state_after Samples.same_key_calls) t2 k2 ->
         t1 = t2)
   /\ exists s',
        Server.run Samples.sample_builtins Samples.ttl
          (Server.FetchDone 1 Samples.one_event
             :: repeat Server.Wake
                  (length (Server.s_waiters
                             (Samples.state_after Samples.same_key_calls))))
          (Samples.state_after Samples.same_key_calls)
        = Some s'
        /\ Server.s_runs s'
           = Server.s_runs (Samples.state_after Samples.same_key_calls))
  /\ (Server.reachable Samples.sample_builtins Samples.ttl
        (Samples.state_after Samples.mixed_key_calls)
      /\ exists s1,
           Server.step Samples.sample_builtins Samples.ttl
             (Server.FetchDone 1 Samples.one_event)
             (Samples.state_after Samples.mixed_key_calls) = Some s1
           /\ forall acts s',
                Server.run Samples.sample_builtins Samples.ttl acts s1
                = Some s' ->
                Server.s_tasks s' !! 3%nat
                = Some (Server.Waiting 10 (PyFloat.of_Z 2))
                \/ Server.s_tasks s' !! 3%nat
                   = Some (Server.Returned
                             (Py.Ok [Py.PDict [("volume"%string, Py.PInt 5)]]))).
Proof.
  assert (Server.reachable Samples.sample_builtins Samples.ttl
            (Samples.state_after Samples.same_key_calls)) as Hr.
  { eapply run_reachable; [apply Server.reachable_initial|].
    exact after_same_key_calls. }
  assert (Server.reachable Samples.sample_builtins Samples.ttl
            (Samples.state_after Samples.mixed_key_calls)) as Hm.
  { eapply run_reachable; [apply Server.reachable_initial|].
    exact after_mixed_key_calls. }
  split; (split; [assumption|]).
  - destruct (one_fetch_in_flight Samples.sample_builtins Samples.ttl _ Hr)
      as (H1 & _ & H3 & _).
    split; [exact H1|].
    destruct (H3 1%nat 10 (PyFloat.of_Z 0) Samples.one_event
                 [Py.PDict [("volume"%string, Py.PInt 5)]])
      as (s' & Hrun & Hruns & _).
    + vm_compute. reflexivity.
    + vm_compute. reflexivity.
    + assert (Server.s_waiters (Samples.state_after Samples.same_key_calls)
              = [2; 3]%nat) as -> by (vm_compute; reflexivity).
      intros t Hin.
      apply elem_of_cons in Hin as [->|Hin];
        [|apply list_elem_of_singleton in Hin as ->].
      * exists (PyFloat.of_Z 1). split; vm_compute; reflexivity.
      * exists (PyFloat.of_Z 2). split; vm_compute; reflexivity.
    + exists s'. split; assumption.
  - destruct (one_fetch_in_flight Samples.sample_builtins Samples.ttl _ Hm)
      as (_ & _ & _ & H4).
    destruct (H4 1%nat 10 (PyFloat.of_Z 0) Samples.one_event
                 [Py.PDict [("volume"%string, Py.PInt 5)]])
      as (s1 & Hstep & _ & _ & Hq).
    + vm_compute. reflexivity.
    + vm_compute. reflexivity.
    + exists s1. split; [exact Hstep|].
      apply (Hq 1%nat 3%nat (PyFloat.of_Z 2)).
      * vm_compute. reflexivity.
      * vm_compute. reflexivity.
      * assert (take 2 (Server.s_waiters
                          (Samples.state_after Samples.mixed_key_calls))
                = [2; 3]%nat) as -> by (vm_compute; reflexivity).
        intros u n Hin.
        apply elem_of_cons in Hin as [->|Hin];
          [|apply list_elem_of_singleton in Hin as ->].
        -- vm_compute. intros Hx. discriminate Hx.
        -- vm_compute. intros [= <-]. reflexivity.
Defined.

(** ** The formatters *)

Section Formatters.
Import PyFloat Py.
Local Open Scope string_scope.
Context (B : builtins).

Lemma fltb_zero_asym (x : float) :
  fltb x (of_Z 0) = true -> fltb (of_Z 0) x = false.
Proof. destruct x as [s|s| |s m e]; try destruct s; cbv; congruence. Qed.

Lemma delta_cents_Ok (delta : pyval) (d : float) :
  py_float B delta = Ok d ->
  Dashboard.delta_cents B delta = Ok (Some (fmul d (of_Z 100))).
Proof. unfold Dashboard.delta_cents. intros ->. reflexivity. Qed.

Lemma delta_cents_unparsable (delta : pyval) :
  py_float B delta = Raise ValueError \/ py_float B delta = Raise TypeError ->
  Dashboard.delta_cents B delta = Ok None.
Proof. unfold Dashboard.delta_cents. intros [-> | ->]; reflexivity. Qed.

Lemma fmt_delta_of_cents (delta : pyval) (cents : float) :
  delta <> PNone ->
  Dashboard.delta_cents B delta = Ok (Some cents) ->
  Dashboard.fmt_delta B delta
  = Ok (if Dashboard.below_noise cents then Dashboard.flat_text
        else Dashboard.MkText (Dashboard.delta_text cents)
               (if fltb (of_Z 0) cents then "green" else "red"))
  /\ Server.fmt_delta_plain B delta
     = Ok (if Dashboard.below_noise cents then Server.flat_json
           else Server.DeltaJson (Dashboard.delta_text cents)
                  (if fltb (of_Z 0) cents then "up" else "down")).
Proof.
  intros Hn Hc. unfold Dashboard.fmt_delta, Server.fmt_delta_plain.
  rewrite Hc. simpl.
  destruct delta; try contradiction;
    destruct (Dashboard.below_noise cents); split; reflexivity.
Qed.

Lemma fmt_delta_unparsable (delta : pyval) :
  Dashboard.delta_cents B delta = Ok None ->
  Dashboard.fmt_delta B delta = Ok Dashboard.flat_text
  /\ Server.fmt_delta_plain B delta = Ok Server.flat_json.
Proof.
  intros Hc. unfold Dashboard.fmt_delta, Server.fmt_delta_plain.
  rewrite Hc. destruct delta; split; reflexivity.
Qed.

End Formatters.

(** For the input 0.003 the change is 0.3 cents, which is not below
    0.05: both formatters print an up-arrow. *)
Lemma fmt_delta_three_thousandths :
  Dashboard.fmt_delta Samples.sample_builtins
    (Py.PFloat (PyFloat.of_decimal 3 (-3)))
  = Py.Ok (Dashboard.MkText "▲+0.3" "green")
  /\ Server.fmt_delta_plain Samples.sample_builtins
       (Py.PFloat (PyFloat.of_decimal 3 (-3)))
     = Py.Ok (Server.DeltaJson "▲+0.3" "up")
  /\ Dashboard.MkText "▲+0.3" "green" <> Dashboard.flat_text.
Proof. repeat split; try (vm_compute; reflexivity). discriminate. Qed.

(** C5, with the examples the code gives: a change that is [None], or
    that [float] rejects, or whose size in cents is below 0.05, is
    shown as the flat placeholder; otherwise a positive change is shown
    as an up-arrow, a plus sign and the cents to one decimal, a
    negative one as a down-arrow and the cents to one decimal with
    their minus sign. The input 0.003 is 0.3 cents and yields the
    up-arrow with +0.3; 0.0003 yields the placeholder, 0.01 the
    up-arrow with +1.0 and -0.02 the down-arrow with -2.0. *)
Theorem fmt_delta_rule (B : Py.builtins) (delta : Py.pyval) :
  ((delta = Py.PNone
    \/ Py.py_float B delta = Py.Raise Py.ValueError
    \/ Py.py_float B delta = Py.Raise Py.TypeError) ->
   Dashboard.fmt_delta B delta = Py.Ok Dashboard.flat_text
   /\ Server.fmt_delta_plain B delta = Py.Ok Server.flat_json)
  /\ (forall d, delta <> Py.PNone -> Py.py_float B delta = Py.Ok d ->
      let cents := PyFloat.fmul d (PyFloat.of_Z 100) in
      let small :=
        PyFloat.fltb (PyFloat.fabs cents) (PyFloat.of_decimal 5 (-2)) in
      (small = true ->
       Dashboard.fmt_delta B delta = Py.Ok Dashboard.flat_text
       /\ Server.fmt_delta_plain B delta = Py.Ok Server.flat_json)
      /\ (small = false -> PyFloat.fltb (PyFloat.of_Z 0) cents = true ->
          Dashboard.fmt_delta B delta
          = Py.Ok (Dashboard.MkText ("▲+" ++ Py.format_f 1 cents) "green")
          /\ Server.fmt_delta_plain B delta
             = Py.Ok (Server.DeltaJson ("▲+" ++ Py.format_f 1 cents) "up"))
      /\ (small = false -> PyFloat.fltb cents (PyFloat.of_Z 0) = true ->
          Dashboard.fmt_delta B delta
          = Py.Ok (Dashboard.MkText ("▼" ++ Py.format_f 1 cents) "red")
          /\ Server.fmt_delta_plain B delta
             = Py.Ok (Server.DeltaJson ("▼" ++ Py.format_f 1 cents) "down")))
  /\ (Dashboard.fmt_delta B (Py.PFloat (PyFloat.of_decimal 3 (-3)))
      = Py.Ok (Dashboard.MkText "▲+0.3" "green")
      /\ Dashboard.fmt_delta B (Py.PFloat (PyFloat.of_decimal 3 (-4)))
         = Py.Ok Dashboard.flat_text
      /\ Dashboard.fmt_delta B (Py.PFloat (PyFloat.of_decimal 1 (-2)))
         = Py.Ok (Dashboard.MkText "▲+1.0" "green")
      /\ Dashboard.fmt_delta B (Py.PFloat (PyFloat.of_decimal (-2) (-2)))
         = Py.Ok (Dashboard.MkText "▼-2.0" "red")).
Proof.
  split; [|split].
  - intros [-> | H]; [split; reflexivity|].
    apply fmt_delta_unparsable, delta_cents_unparsable, H.
  - intros d Hn Hd. cbv zeta.
    destruct (fmt_delta_of_cents B delta _ Hn (delta_cents_Ok B delta d Hd))
      as [-> ->].
    unfold Dashboard.below_noise, Dashboard.delta_text.
    split; [|split].
    + intros ->. split; reflexivity.
    + intros -> ->. split; reflexivity.
    + intros -> Hneg. rewrite (fltb_zero_asym _ Hneg). split; reflexivity.
  - repeat split; vm_compute; reflexivity.
Qed.

Lemma fmt_delta_rule_sample :
  Dashboard.fmt_delta Samples.sample_builtins (Py.PStr "abc")
  = Py.Ok Dashboard.flat_text
  /\ Server.fmt_delta_plain Samples.sample_builtins (Py.PStr "abc")
     = Py.Ok Server.flat_json.
Proof.
  apply (proj1 (fmt_delta_rule Samples.sample_builtins (Py.PStr "abc"))).
  right. left. vm_compute. reflexivity.
Defined.

Section VolumeFormatter.
Local Open Scope string_scope.

(** 2500 formats as "$2K": 2.5 lies midway and rounds to the even
    digit; [None] counts as 0 and formats as "$0". *)
Lemma fmt_vol_tie_and_none :
  Dashboard.fmt_vol Samples.sample_builtins (Py.PInt 2500) = Py.Ok "$2K"
  /\ Dashboard.fmt_vol Samples.sample_builtins Py.PNone = Py.Ok "$0".
Proof. split; vm_compute; reflexivity. Qed.

(** C6, as the code has it: a false value ([None], zero, an empty
    string or list) counts as 0; a value [float] rejects yields the
    em-dash placeholder; otherwise a volume of at least 1,000,000 is
    shown in millions to one decimal, one of at least 1,000 in
    thousands to no decimal, any other to no decimal, each rounded to
    the nearest with ties to the even digit. So 1_500_000 yields
    "$1.5M", 2_500 yields "$2K", 999 yields "$999", [None] yields "$0"
    and a list or a string that is no number yields the placeholder. *)
Theorem fmt_vol_rule (B : Py.builtins) (v : Py.pyval) :
  (forall n, Py.py_float B (Py.py_or v (Py.PInt 0)) = Py.Ok n ->
     let millions := PyFloat.fleb (PyFloat.of_Z 1000000) n in
     let thousands := PyFloat.fleb (PyFloat.of_Z 1000) n in
     (millions = true ->
      Dashboard.fmt_vol B v
      = Py.Ok ("$" ++ Py.format_f 1 (PyFloat.fdiv n (PyFloat.of_Z 1000000))
                   ++ "M"))
     /\ (millions = false -> thousands = true ->
         Dashboard.fmt_vol B v
         = Py.Ok ("$" ++ Py.format_f 0 (PyFloat.fdiv n (PyFloat.of_Z 1000))
                      ++ "K"))
     /\ (millions = false -> thousands = false ->
         Dashboard.fmt_vol B v = Py.Ok ("$" ++ Py.format_f 0 n)))
  /\ ((Py.py_float B (Py.py_or v (Py.PInt 0)) = Py.Raise Py.ValueError
       \/ Py.py_float B (Py.py_or v (Py.PInt 0)) = Py.Raise Py.TypeError) ->
      Dashboard.fmt_vol B v = Py.Ok "—")
  /\ (Py.truthy v = false -> Dashboard.fmt_vol B v = Py.Ok "$0")
  /\ (Dashboard.fmt_vol B (Py.PInt 1500000) = Py.Ok "$1.5M"
      /\ Dashboard.fmt_vol B (Py.PInt 2500) = Py.Ok "$2K"
      /\ Dashboard.fmt_vol B (Py.PInt 999) = Py.Ok "$999"
      /\ Dashboard.fmt_vol B Py.PNone = Py.Ok "$0"
      /\ Dashboard.fmt_vol B (Py.PList [Py.PInt 1]) = Py.Ok "—").
Proof.
  split; [|split; [|split]].
  - intros n Hn. cbv zeta. unfold Dashboard.fmt_vol. rewrite Hn.
    split; [|split].
    + intros ->. reflexivity.
    + intros -> ->. reflexivity.
    + intros -> ->. reflexivity.
  - unfold Dashboard.fmt_vol. intros [-> | ->]; reflexivity.
  - unfold Dashboard.fmt_vol, Py.py_or. intros ->. reflexivity.
  - repeat split; vm_compute; reflexivity.
Qed.

Lemma fmt_vol_rule_sample :
  Dashboard.fmt_vol Samples.sample_builtins (Py.PStr "abc") = Py.Ok "—".
Proof.
  apply (proj1 (proj2 (fmt_vol_rule Samples.sample_builtins (Py.PStr "abc")))).
  left. vm_compute. reflexivity.
Defined.

End VolumeFormatter.

(** ** The market data client *)

Section ParseFailures.
Local Open Scope string_scope.

(** C7, at the input where the code departs from it: when an event of
    the decoded output carries a non-empty string for its volume that
    [float] rejects, the sort key raises [ValueError]; the handler of
    [fetch_events] covers [JSONDecodeError] only, so the fetch raises
    instead of counting the volume as 0. *)
Theorem fetch_events_raises_on_text_volume (B : Py.builtins) (limit : Z)
    (out : Dashboard.completed) (txt : string)
    (fields : list (string * Py.pyval)) (others : list Py.pyval) :
  Dashboard.returncode out = 0 ->
  Py.json_loads B (Dashboard.stdout out)
  = Py.Ok (Py.PList (Py.PDict (("volume", Py.PStr txt) :: fields) :: others)) ->
  txt <> EmptyString ->
  Py.float_of_str B txt = None ->
  Dashboard.fetch_events B limit out = Py.Raise Py.ValueError.
Proof.
  intros Hrc Hjson Htxt Hfloat.
  assert (Dashboard.volume_key B
            (Py.PDict (("volume", Py.PStr txt) :: fields))
          = Py.Raise Py.ValueError) as Hkey.
  { unfold Dashboard.volume_key. simpl.
    destruct txt as [|a txt]; [contradiction|].
    unfold Py.py_or. simpl. rewrite Hfloat. reflexivity. }
  unfold Dashboard.fetch_events. rewrite Hrc.
  change (negb (0 =? 0)%Z) with false. cbv iota.
  unfold Py.try_except, Py.py_json_loads. rewrite Hjson.
  unfold Dashboard.sort_and_truncate, Dashboard.ranking.
  cbn [mbind Py.Result_bind mapM]. rewrite Hkey. reflexivity.
Qed.

Lemma fetch_events_raises_sample :
  Dashboard.fetch_events Samples.sample_builtins 10
    (Dashboard.Completed 0 Samples.bad_volume_stdout EmptyString)
  = Py.Raise Py.ValueError.
Proof.
  apply (fetch_events_raises_on_text_volume Samples.sample_builtins 10
           (Dashboard.Completed 0 Samples.bad_volume_stdout EmptyString)
           "abc" [] []).
  - reflexivity.
  - vm_compute. reflexivity.
  - discriminate.
  - vm_compute. reflexivity.
Defined.

(** C8, at the input where the code departs from it: when the price
    list of the first market decodes to a list that starts with
    [null], [float] raises [TypeError], which the handler of the
    extractors does not name, so both extractors raise and no market
    of the event is processed. *)
Theorem extractors_raise_on_null_price (B : Py.builtins)
    (event m : Py.pyval) (others more : list Py.pyval) (txt : string) :
  Py.py_get event "markets" = Py.Ok (Py.PList (m :: others)) ->
  Py.py_get m "outcomePrices" = Py.Ok (Py.PStr txt) ->
  txt <> EmptyString ->
  Py.json_loads B txt = Py.Ok (Py.PList (Py.PNone :: more)) ->
  Dashboard.top_contenders B event = Py.Raise Py.TypeError
  /\ Server._all_contenders B event = Py.Raise Py.TypeError.
Proof.
  intros Hms Hop Htxt Hjson.
  assert (Dashboard.yes_of_market B m = Py.Raise Py.TypeError) as Hyes.
  { unfold Dashboard.yes_of_market. rewrite Hop. simpl.
    unfold Py.py_or. destruct txt; [contradiction|]. simpl.
    rewrite Hjson. reflexivity. }
  assert (Dashboard.parse_market B m = Py.Raise Py.TypeError) as Hd.
  { unfold Dashboard.parse_market. rewrite Hyes. reflexivity. }
  assert (Server.parse_market B m = Py.Raise Py.TypeError) as Hs.
  { unfold Server.parse_market. rewrite Hyes. reflexivity. }
  split.
  - unfold Dashboard.top_contenders, Dashboard.parsed_contenders.
    rewrite Hms. unfold Py.py_or. simpl. rewrite Hd. reflexivity.
  - unfold Server._all_contenders, Server.parsed_contenders.
    rewrite Hms. unfold Py.py_or. simpl. rewrite Hs. reflexivity.
Qed.

Lemma extractors_raise_sample :
  Dashboard.top_contenders Samples.sample_builtins Samples.null_price_event
  = Py.Raise Py.TypeError
  /\ Server._all_contenders Samples.sample_builtins Samples.null_price_event
     = Py.Raise Py.TypeError.
Proof.
  apply (extractors_raise_on_null_price Samples.sample_builtins
           Samples.null_price_event (Samples.market "A" "[null]")
           [Samples.market "B" "[0.5, 0.5]"] [] "[null]").
  - reflexivity.
  - reflexivity.
  - discriminate.
  - vm_compute. reflexivity.
Defined.

End ParseFailures.

(** ** The snapshot endpoint *)

Lemma serve_events_not_422 (B : Py.builtins) (CACHE_TTL limit : Z)
    (now : PyFloat.float) (out : Dashboard.completed) (ts : string)
    (w : Server.world) :
  fst (Server.serve_events B CACHE_TTL limit now out ts w) <> Server.Http422.
Proof.
  unfold Server.serve_events.
  destruct (Server.get_events B CACHE_TTL limit now out w) as [r w'].
  destruct (r ≫= Server.events_to_json B CACHE_TTL ts); discriminate.
Qed.

(** The limits 0 and 500 are answered with the status 422 and nothing
    is fetched, where the limits 1 and 100 they would be clamped to are
    served. *)
Lemma api_events_rejects_out_of_range :
  let w := Server.World ∅ 0 in
  let ask q :=
    Server.api_events Samples.sample_builtins Samples.ttl q
      (PyFloat.of_Z 0) Samples.one_event "ts" w in
  ask (Server.Given 0) = (Server.Http422, w)
  /\ ask (Server.Given 500) = (Server.Http422, w)
  /\ ask (Server.Given 0) <> ask (Server.Given 1)
  /\ ask (Server.Given 500) <> ask (Server.Given 100).
Proof.
  cbv zeta. repeat split; try reflexivity.
  - intros H. apply (f_equal fst) in H. symmetry in H. revert H.
    apply serve_events_not_422.
  - intros H. apply (f_equal fst) in H. symmetry in H. revert H.
    apply serve_events_not_422.
Qed.

(** C9, as the code has it: a request without a limit is served with
    the limit 10, a request with a limit between 1 and 100 is served
    with that limit, and a request with any other limit, or one that is
    no integer, is answered with the status 422: nothing is fetched and
    the cache is left as it is. *)
Theorem api_events_limit (B : Py.builtins) (CACHE_TTL : Z)
    (now : PyFloat.float) (out : Dashboard.completed) (ts : string)
    (w : Server.world) :
  Server.api_events B CACHE_TTL Server.Absent now out ts w
  = Server.serve_events B CACHE_TTL 10 now out ts w
  /\ (forall n, 1 <= n <= 100 ->
      Server.api_events B CACHE_TTL (Server.Given n) now out ts w
      = Server.serve_events B CACHE_TTL n now out ts w)
  /\ (forall n, n < 1 \/ 100 < n ->
      Server.api_events B CACHE_TTL (Server.Given n) now out ts w
      = (Server.Http422, w))
  /\ Server.api_events B CACHE_TTL Server.NotAnInteger now out ts w
     = (Server.Http422, w).
Proof.
  unfold Server.api_events. repeat split.
  - intros n Hn. simpl.
    assert ((1 <=? n) && (n <=? 100) = true) as -> by lia. reflexivity.
  - intros n Hn. simpl.
    assert ((1 <=? n) && (n <=? 100) = false) as -> by lia. reflexivity.
Qed.

Lemma api_events_limit_sample :
  Server.api_events Samples.sample_builtins Samples.ttl (Server.Given 20)
    (PyFloat.of_Z 0) Samples.one_event "ts" (Server.World ∅ 0)
  = Server.serve_events Samples.sample_builtins Samples.ttl 20
      (PyFloat.of_Z 0) Samples.one_event "ts" (Server.World ∅ 0).
Proof.
  apply (proj1 (proj2 (api_events_limit Samples.sample_builtins Samples.ttl
                         (PyFloat.of_Z 0) Samples.one_event "ts"
                         (Server.World ∅ 0)))).
  lia.
Defined.

(** ** The price field *)

Section Prices.
Import PyFloat Py.
Local Open Scope nat_scope.
Context (B : builtins).

(** A loop that returns has returned at every turn. *)
Lemma mapM_Ok {X Y : Type} (f : X -> Result Y) (l : list X) (ys : list Y) :
  mapM f l = Ok ys -> Forall2 (fun x y => f x = Ok y) l ys.
Proof.
  revert ys. induction l as [|x l IH]; simpl; intros ys H.
  - injection H as <-. constructor.
  - destruct (f x) as [y|e] eqn:Hx; [|discriminate]. simpl in H.
    destruct (mapM f l) as [k|e]; [|discriminate]. simpl in H.
    injection H as <-. constructor; [assumption|]. now apply IH.
Qed.

Lemma mapM_enumerated_Ok {X Y : Type} (k : nat -> X -> Result Y)
    (l : list X) :
  forall (f : nat -> nat) (ys : list Y),
    mapM (fun ie => k (fst ie) (snd ie)) (imap (fun i x => (f i, x)) l)
    = Ok ys ->
    Forall2 (fun x y => exists i, k i x = Ok y) l ys.
Proof.
  induction l as [|x l IH]; intros f ys H.
  - injection H as <-. constructor.
  - simpl in H. destruct (k (f 0) x) as [y|e] eqn:Hx; [|discriminate].
    simpl in H.
    destruct (mapM (fun ie => k (fst ie) (snd ie))
                   (imap ((fun i x => (f i, x)) ∘ S) l)) as [r|e] eqn:Hr;
      [|discriminate].
    simpl in H. injection H as <-.
    constructor; [eauto|]. apply (IH (f ∘ S)). exact Hr.
Qed.

(** The price cell is the second of the three cells of a contender. *)
Lemma concat_groups_price (name_w : Z) (cs : list Dashboard.contender)
    (groups : list (list Dashboard.cell)) :
  Forall2 (fun c g => Dashboard.contender_cells B name_w c = Ok g) cs groups ->
  forall i c, cs !! i = Some c ->
    concat groups !! (3 * i + 1)
    = Some (Dashboard.CStr (Dashboard.price_cell (Dashboard.yes c))).
Proof.
  induction 1 as [|c0 g cs groups Hc _ IH]; intros i c Hi; [discriminate|].
  unfold Dashboard.contender_cells in Hc.
  destruct (Dashboard.fmt_delta B (Dashboard.delta c0)) as [d|e];
    [|discriminate].
  simpl in Hc. injection Hc as <-.
  destruct i as [|i]; simpl in Hi.
  - injection Hi as <-. reflexivity.
  - replace (3 * S i + 1) with (3 + (3 * i + 1)) by lia.
    simpl. apply IH. assumption.
Qed.

Lemma build_row_price (n_cont name_w event_w : Z) (idx : nat)
    (event : pyval) (row : list Dashboard.cell) :
  Dashboard.build_row B n_cont name_w event_w idx event = Ok row ->
  exists cs,
    Dashboard.top_contenders B event = Ok cs
    /\ forall i c,
         slice_to (Dashboard.pad_contenders n_cont cs) n_cont !! i = Some c ->
         row !! (4 + 3 * i + 1)
         = Some (Dashboard.CStr (Dashboard.price_cell (Dashboard.yes c))).
Proof.
  unfold Dashboard.build_row. intros H.
  destruct (Dashboard.top_contenders B event) as [cs|e]; [|discriminate].
  simpl in H. exists cs. split; [reflexivity|].
  destruct (py_get event "title") as [title|e]; [|discriminate]. simpl in H.
  destruct (py_get event "volume") as [vol|e]; [|discriminate]. simpl in H.
  destruct (Dashboard.fmt_vol B vol) as [fv|e]; [|discriminate]. simpl in H.
  destruct (py_get event "volume24hr") as [vol24|e]; [|discriminate].
  simpl in H.
  destruct (Dashboard.fmt_vol B vol24) as [fv24|e]; [|discriminate].
  simpl in H.
  destruct (mapM (Dashboard.contender_cells B name_w)
                 (slice_to (Dashboard.pad_contenders n_cont cs) n_cont))
    as [groups|e] eqn:Hg; [|discriminate].
  simpl in H. injection H as <-. intros i c Hi.
  replace (4 + 3 * i + 1) with (4 + (3 * i + 1)) by lia.
  simpl. eapply concat_groups_price; [|eassumption].
  apply mapM_Ok. exact Hg.
Qed.

Lemma event_json_price (idx : nat) (event : pyval)
    (e : Server.api_event) :
  Server.event_json B idx event = Ok e ->
  exists raw,
    Server._all_contenders B event = Ok raw
    /\ Forall2 (fun c j => Server.c_price j
                           = Dashboard.price_cell (Server.yes c))
               raw (Server.e_contenders e).
Proof.
  unfold Server.event_json. intros H.
  destruct (Server._all_contenders B event) as [raw|x]; [|discriminate].
  simpl in H. exists raw. split; [reflexivity|].
  destruct (mapM (Server.contender_json B) raw) as [cs|x] eqn:Hcs;
    [|discriminate].
  simpl in H.
  repeat match type of H with
         | context [mbind _ ?m] =>
             destruct m; [|discriminate]; simpl in H
         end.
  injection H as <-. simpl.
  apply mapM_Ok in Hcs. eapply Forall2_impl; [exact Hcs|].
  intros c j Hj. unfold Server.contender_json in Hj.
  destruct (Server.fmt_delta_plain B (Server.delta c)); [|discriminate].
  simpl in Hj. injection Hj as <-. reflexivity.
Qed.

End Prices.

(** C10: the price of a contender is the empty string unless its
    yes-probability is strictly positive, in which case it is the
    price in cents; so a yes-probability of zero or below, the default
    0.0 of a parse failure included, never shows the sentinel "<1¢".
    This holds for the price cell of every contender of every row of
    the terminal table and for the price of every contender object of
    the API response. *)
Theorem price_blank_unless_positive (B : Py.builtins) :
  (forall y, PyFloat.fltb (PyFloat.of_Z 0) y = true ->
     Dashboard.price_cell y = Dashboard.fmt_price_cents y)
  /\ (forall y, PyFloat.fltb (PyFloat.of_Z 0) y = false ->
      Dashboard.price_cell y = EmptyString)
  /\ (forall y, PyFloat.fleb y (PyFloat.of_Z 0) = true ->
      Dashboard.price_cell y = EmptyString)
  /\ (forall console_width events rows,
      Dashboard.build_table B console_width events = Py.Ok rows ->
      let width := if console_width =? 0 then 200 else console_width in
      let n_cont := Layout.count_of (Layout.calc_layout width) in
      Forall2
        (fun event row =>
           exists cs,
             Dashboard.top_contenders B event = Py.Ok cs
             /\ forall (i : nat) c,
                  Py.slice_to (Dashboard.pad_contenders n_cont cs) n_cont !! i
                  = Some c ->
                  row !! (4 + 3 * i + 1)%nat
                  = Some (Dashboard.CStr
                            (Dashboard.price_cell (Dashboard.yes c))))
        events rows)
  /\ (forall CACHE_TTL ts events p,
      Server.events_to_json B CACHE_TTL ts events = Py.Ok p ->
      Forall2
        (fun event e =>
           exists raw,
             Server._all_contenders B event = Py.Ok raw
             /\ Forall2
                  (fun c j => Server.c_price j
                              = Dashboard.price_cell (Server.yes c))
                  raw (Server.e_contenders e))
        events (Server.p_events p)).
Proof.
  split; [|split; [|split; [|split]]].
  - intros y Hy. unfold Dashboard.price_cell. rewrite Hy. reflexivity.
  - intros y Hy. unfold Dashboard.price_cell. rewrite Hy. reflexivity.
  - intros y Hy. unfold Dashboard.price_cell.
    destruct y as [s|s| |s m e]; try destruct s; try discriminate;
      reflexivity.
  - intros console_width events rows H. cbv zeta.
    unfold Dashboard.build_table in H.
    destruct (Layout.calc_layout _) as [[n_cont name_w] event_w].
    apply (mapM_enumerated_Ok
             (fun i => Dashboard.build_row B n_cont name_w event_w (S i))
             events (fun i => i)) in H.
    eapply Forall2_impl; [exact H|].
    intros event row [i Hrow]. eapply build_row_price. exact Hrow.
  - intros CACHE_TTL ts events p H. unfold Server.events_to_json in H.
    destruct (mapM _ _) as [result|e] eqn:Hr; [|discriminate].
    simpl in H. injection H as <-. simpl.
    apply (mapM_enumerated_Ok (fun i => Server.event_json B (S i))
             events (fun i => i)) in Hr.
    eapply Forall2_impl; [exact Hr|].
    intros event e [i He]. eapply event_json_price. exact He.
Qed.

Lemma price_blank_unless_positive_sample :
  Dashboard.price_cell Samples.zero = EmptyString.
Proof.
  apply (proj1 (proj2 (proj2
           (price_blank_unless_positive Samples.sample_builtins)))).
  reflexivity.
Defined.

(** ** Further properties of the formatters, the client and the cache *)

Section Further.
Local Open Scope string_scope.

(** X1: the yes-probability of a market is the float of the first
    element of its decoded price list; it is 0.0 when the field is
    absent (the text [[0,1]] is decoded instead), when [json.loads]
    raises [JSONDecodeError] or [ValueError] on the text, when the list
    is empty and when its first element is a string that is no number;
    a [RecursionError] of [json.loads] is not handled. *)
Theorem yes_of_market_defaults (B : Py.builtins)
    (fields : list (string * Py.pyval)) :
  let m := Py.PDict fields in
  let zero := S754_zero false in
  (Py.assoc "outcomePrices" fields = None ->
   Py.json_loads B "[0,1]" = Py.Ok (Py.PList [Py.PInt 0; Py.PInt 1]) ->
   Dashboard.yes_of_market B m = Py.Ok zero)
  /\ (forall txt,
      Py.assoc "outcomePrices" fields = Some (Py.PStr txt) ->
      txt <> EmptyString ->
      (Py.json_loads B txt = Py.Raise Py.JSONDecodeError ->
       Dashboard.yes_of_market B m = Py.Ok zero)
      /\ (Py.json_loads B txt = Py.Raise Py.ValueError ->
          Dashboard.yes_of_market B m = Py.Ok zero)
      /\ (Py.json_loads B txt = Py.Raise Py.RecursionError ->
          Dashboard.yes_of_market B m = Py.Raise Py.RecursionError)
      /\ (Py.json_loads B txt = Py.Ok (Py.PList []) ->
          Dashboard.yes_of_market B m = Py.Ok zero)
      /\ (forall s rest,
          Py.json_loads B txt = Py.Ok (Py.PList (Py.PStr s :: rest)) ->
          Py.float_of_str B s = None ->
          Dashboard.yes_of_market B m = Py.Ok zero)
      /\ (forall x rest y,
          Py.json_loads B txt = Py.Ok (Py.PList (x :: rest)) ->
          Py.py_float B x = Py.Ok y ->
          Dashboard.yes_of_market B m = Py.Ok y)).
Proof.
  cbv zeta. unfold Dashboard.yes_of_market, Py.py_get. split.
  - intros -> Hj. simpl. rewrite Hj. reflexivity.
  - intros txt -> Htxt. simpl. unfold Py.py_or.
    destruct txt as [|a txt]; [contradiction|]. simpl.
    split; [|split; [|split; [|split; [|split]]]].
    + intros ->. reflexivity.
    + intros ->. reflexivity.
    + intros ->. reflexivity.
    + intros ->. reflexivity.
    + intros s rest -> Hs. simpl. rewrite Hs. reflexivity.
    + intros x rest y -> Hx. simpl. rewrite Hx. reflexivity.
Qed.

Lemma fetch_events_failed_run (B : Py.builtins) (limit : Z)
    (out : Dashboard.completed) :
  Dashboard.returncode out <> 0 ->
  Dashboard.fetch_events B limit out = Py.Ok [].
Proof.
  unfold Dashboard.fetch_events. intros Hrc.
  apply Z.eqb_neq in Hrc. rewrite Hrc. reflexivity.
Qed.

(** X2: when the width admits some count, the width left over after
    the name columns are widened is what the integer division could
    not share out: less than one unit per contender. *)
Theorem calc_layout_leftover (W : Z) :
  Layout.total_width 1 Layout.MIN_NAME_W <= W ->
  let r := Layout.calc_layout W in
  0 <= W - Layout.total_width (Layout.count_of r) (Layout.name_w_of r)
    < Layout.count_of r.
Proof.
  intros Hfit. rewrite total_width_min in Hfit. cbv zeta.
  pose proof (first_fit_cases W) as Hc. cbv zeta in Hc.
  unfold Layout.calc_layout, Layout.count_of, Layout.name_w_of.
  set (n := Layout.first_fit W Layout.candidate_counts) in *.
  cbn [fst snd]. rewrite !total_width_min.
  destruct Hc as [[-> HW] | (Hn & HW & _)]; [lia|].
  assert ((n =? 0)%Z = false) as -> by lia.
  assert (Layout.total_width n (Layout.MIN_NAME_W + (W - (60 + 23 * n)) / n)
          = 60 + 23 * n + n * ((W - (60 + 23 * n)) / n)) as ->.
  { unfold Layout.total_width, Layout.MIN_NAME_W, Layout.FIXED_COLS_W,
      Layout.PRICE_W, Layout.DELTA_W. lia. }
  pose proof (Z.mul_div_le (W - (60 + 23 * n)) n).
  pose proof (Z.mul_succ_div_gt (W - (60 + 23 * n)) n). lia.
Qed.

Lemma calc_layout_leftover_sample :
  let r := Layout.calc_layout 200 in
  0 <= 200 - Layout.total_width (Layout.count_of r) (Layout.name_w_of r)
    < Layout.count_of r.
Proof. apply calc_layout_leftover. vm_compute. discriminate. Defined.

(** X3: a fetch that fails upstream is cached like any other: on a
    miss the empty list is returned and stored under the key with the
    time of the call, after one upstream invocation. *)
Theorem get_events_caches_failure (B : Py.builtins) (CACHE_TTL limit : Z)
    (now : PyFloat.float) (out : Dashboard.completed) (w : Server.world) :
  Server.lookup_fresh CACHE_TTL (Server.cache w) limit now = None ->
  Dashboard.returncode out <> 0 ->
  Server.get_events B CACHE_TTL limit now out w
  = (Py.Ok [],
     Server.World (<[limit := (now, [])]> (Server.cache w))
                  (S (Server.runs w))).
Proof.
  intros Hmiss Hrc. unfold Server.get_events. rewrite Hmiss.
  rewrite (fetch_events_failed_run B limit out Hrc). reflexivity.
Qed.

Lemma get_events_caches_failure_sample :
  Server.get_events Samples.sample_builtins Samples.ttl 10 (PyFloat.of_Z 0)
    (Dashboard.Completed 1 "" "no such market") (Server.World ∅ 0)
  = (Py.Ok [],
     Server.World (<[10 := (PyFloat.of_Z 0, [])]> ∅) 1).
Proof.
  apply get_events_caches_failure; [reflexivity|discriminate].
Defined.

End Further.

(** ** The ranking by volume *)

Section Ranking.
Import PyFloat Py.
Context (B : builtins).

Lemma zip_with_keys (l : list pyval) (keys : list float) :
  Forall2 (fun e k => Dashboard.volume_key B e = Ok k) l keys ->
  Forall (fun ek => Dashboard.volume_key B (fst ek) = Ok (snd ek))
         (zip l keys).
Proof. induction 1; simpl; constructor; assumption. Qed.

Lemma zip_no_nan (l : list pyval) (keys : list float) :
  Forall (fun k => is_nan k = false) keys ->
  no_nan snd (zip l keys).
Proof.
  intros Hk. revert l. unfold no_nan.
  induction Hk as [|k keys Hn _ IH]; intros [|e l]; simpl;
    try constructor; [exact Hn|apply IH].
Qed.

Lemma ranked_map_fst (zl : list (pyval * float)) :
  StronglySorted (desc snd) zl ->
  Forall (fun ek => Dashboard.volume_key B (fst ek) = Ok (snd ek)) zl ->
  StronglySorted (Dashboard.ranked B) (map fst zl).
Proof.
  induction 1 as [|ek zl Hs IH Hall]; intros Hk; simpl; [constructor|].
  inversion Hk as [|? ? Hek Hk']; subst.
  constructor; [now apply IH|].
  rewrite Forall_forall in Hall, Hk'. apply Forall_forall.
  intros b Hb. apply list_elem_of_fmap in Hb as (ek' & -> & Hin).
  exists (snd ek), (snd ek'). split; [assumption|]. split; [now apply Hk'|].
  apply Hall. assumption.
Qed.

(** The events of a given volume are those whose key it is. *)
Lemma with_volume_map_fst (v : float) (zl : list (pyval * float)) :
  Forall (fun ek => Dashboard.volume_key B (fst ek) = Ok (snd ek)) zl ->
  Dashboard.with_volume B v (map fst zl) = map fst (with_key snd v zl).
Proof.
  unfold Dashboard.with_volume, with_key.
  induction 1 as [|ek zl Hek _ IH]; [reflexivity|].
  cbn [map List.filter]. rewrite Hek, IH.
  destruct (SFeqb v (snd ek)); reflexivity.
Qed.

(** With volumes that are numbers the ranking is the stable descending
    arrangement of the events. *)
Lemma ranking_sorted (l : list pyval) (keys : list float) :
  mapM (Dashboard.volume_key B) l = Ok keys ->
  Forall (fun k => is_nan k = false) keys ->
  Dashboard.ranking B l = Ok (map fst (sort_desc snd (zip l keys)))
  /\ Permutation (map fst (sort_desc snd (zip l keys))) l
  /\ StronglySorted (Dashboard.ranked B) (map fst (sort_desc snd (zip l keys)))
  /\ forall v, Dashboard.with_volume B v (map fst (sort_desc snd (zip l keys)))
               = Dashboard.with_volume B v l.
Proof.
  intros Hkeys Hn.
  assert (Forall (fun ek => Dashboard.volume_key B (fst ek) = Ok (snd ek))
                 (zip l keys)) as Hz by (apply zip_with_keys, mapM_Ok, Hkeys).
  assert (map fst (zip l keys) = l) as Hfst.
  { apply fst_zip. apply mapM_Ok, Forall2_length in Hkeys. lia. }
  split; [|split; [|split]].
  - unfold Dashboard.ranking. rewrite Hkeys. cbn [mbind Result_bind mret Result_ret].
    rewrite (sort_reverse_no_nan snd (zip l keys) (zip_no_nan l keys Hn)).
    reflexivity.
  - rewrite (sort_desc_Permutation snd (zip l keys)), Hfst. reflexivity.
  - apply ranked_map_fst.
    + apply sort_desc_sorted, zip_no_nan, Hn.
    + rewrite sort_desc_Permutation. exact Hz.
  - intros v. rewrite with_volume_map_fst.
    + rewrite sort_desc_stable, <- with_volume_map_fst, Hfst by exact Hz.
      reflexivity.
    + rewrite sort_desc_Permutation. exact Hz.
Qed.

End Ranking.

(** X4: when the volume of every event of the decoded output converts
    to a number (none is NaN), the ranking of the client is a
    rearrangement of the events where the volume never increases from
    an event to a later one and events of equal volume keep their
    order; the client returns the first [limit] events of it, or all
    but the last [-limit] for a negative limit. *)
Theorem sort_and_truncate_ranked (B : Py.builtins) (l : list Py.pyval)
    (keys : list PyFloat.float) (limit : Z) :
  mapM (Dashboard.volume_key B) l = Py.Ok keys ->
  Forall (fun k => PyFloat.is_nan k = false) keys ->
  exists ranking r,
    Dashboard.ranking B l = Py.Ok ranking
    /\ Dashboard.sort_and_truncate B (Py.PList l) limit = Py.Ok r
    /\ Permutation ranking l
    /\ StronglySorted (Dashboard.ranked B) ranking
    /\ (forall v, Dashboard.with_volume B v ranking
                  = Dashboard.with_volume B v l)
    /\ (0 <= limit -> r = take (Z.to_nat limit) ranking)
    /\ (limit < 0 ->
        r = take (length l - Z.to_nat (- limit))%nat ranking).
Proof.
  intros Hkeys Hn.
  destruct (ranking_sorted B l keys Hkeys Hn) as (Hr & Hperm & Hs & Hst).
  eexists. eexists. split; [exact Hr|].
  split; [unfold Dashboard.sort_and_truncate; rewrite Hr; reflexivity|].
  split; [exact Hperm|]. split; [exact Hs|]. split; [exact Hst|].
  unfold Py.slice_to. split; intros Hl.
  - assert ((limit <? 0) = false) as -> by lia. reflexivity.
  - assert ((limit <? 0) = true) as -> by lia. f_equal.
    rewrite (Permutation_length Hperm). lia.
Qed.

Lemma sort_and_truncate_ranked_sample :
  exists ranking r,
    Dashboard.ranking Samples.sample_builtins
      [Py.PDict []; Samples.sample_event] = Py.Ok ranking
    /\ Dashboard.sort_and_truncate Samples.sample_builtins
         (Py.PList [Py.PDict []; Samples.sample_event]) 1 = Py.Ok r
    /\ Permutation ranking [Py.PDict []; Samples.sample_event]
    /\ StronglySorted (Dashboard.ranked Samples.sample_builtins) ranking
    /\ r = take (Z.to_nat 1) ranking.
Proof.
  destruct (sort_and_truncate_ranked Samples.sample_builtins
              [Py.PDict []; Samples.sample_event]
              [PyFloat.of_Z 0; PyFloat.of_Z 2500] 1)
    as (ranking & r & H1 & H2 & H3 & H4 & _ & H6 & _).
  - vm_compute. reflexivity.
  - repeat constructor.
  - exists ranking, r. repeat split; try assumption. apply H6. lia.
Defined.

(** ** More on the layout *)

(** X5: a wider terminal never shows fewer contenders; the name
    columns have at least the minimum width exactly when one contender
    fits (83 columns); below that the single name column is cut to
    what is left, so the table is exactly as wide as the terminal and
    the name width is zero or negative from 75 columns down. *)
Theorem calc_layout_monotone_and_narrow (W1 W2 : Z) :
  (W1 <= W2 ->
   Layout.count_of (Layout.calc_layout W1)
   <= Layout.count_of (Layout.calc_layout W2))
  /\ (Layout.MIN_NAME_W <= Layout.name_w_of (Layout.calc_layout W1)
      <-> Layout.total_width 1 Layout.MIN_NAME_W <= W1)
  /\ (W1 < Layout.total_width 1 Layout.MIN_NAME_W ->
      Layout.name_w_of (Layout.calc_layout W1) = W1 - 75
      /\ Layout.total_width 1 (Layout.name_w_of (Layout.calc_layout W1)) = W1).
Proof.
  pose proof (first_fit_cases W1) as H1. pose proof (first_fit_cases W2) as H2.
  cbv zeta in H1, H2.
  unfold Layout.calc_layout, Layout.count_of, Layout.name_w_of.
  set (n1 := Layout.first_fit W1 Layout.candidate_counts) in *.
  set (n2 := Layout.first_fit W2 Layout.candidate_counts) in *.
  cbn [fst snd]. rewrite !total_width_min.
  split; [|split].
  - intros Hle.
    destruct H1 as [[-> H1] | (Hn1 & H1 & Hm1)],
             H2 as [[-> H2] | (Hn2 & H2 & Hm2)]; cbn [Z.eqb].
    + lia.
    + assert ((n2 =? 0) = false) as -> by lia. lia.
    + assert ((n1 =? 0) = false) as -> by lia. lia.
    + assert ((n1 =? 0) = false) as -> by lia.
      assert ((n2 =? 0) = false) as -> by lia.
      destruct (Z.le_gt_cases n1 n2) as [|Hgt]; [assumption|].
      assert (n2 < 5) as Hlt by lia. specialize (Hm2 Hlt). nia.
  - destruct H1 as [[-> H1] | (Hn1 & H1 & Hm1)]; cbn [Z.eqb].
    + unfold Layout.MIN_NAME_W. rewrite Z.div_1_r. lia.
    + assert ((n1 =? 0) = false) as -> by lia.
      unfold Layout.MIN_NAME_W.
      pose proof (Z.div_pos (W1 - (60 + 23 * n1)) n1). lia.
  - intros Hnarrow.
    destruct H1 as [[-> H1] | (Hn1 & H1 & Hm1)]; [|lia]. cbn [Z.eqb].
    unfold Layout.total_width, Layout.MIN_NAME_W, Layout.FIXED_COLS_W,
      Layout.PRICE_W, Layout.DELTA_W.
    rewrite Z.div_1_r. lia.
Qed.

(** ** More on the formatters *)

Section FormatterErrors.
Import PyFloat Py.
Local Open Scope string_scope.
Context (B : builtins).

(** [float] raises one of three exceptions, the overflow only for an
    integer beyond the floats. *)
Lemma py_float_raises (v : pyval) (e : exn) :
  py_float B v = Raise e ->
  e = ValueError \/ e = TypeError
  \/ (e = OverflowError /\ exists z, v = PInt z /\ is_inf (of_Z z) = true).
Proof.
  destruct v as [|b|z|f|s|l|d]; simpl; try (intros [= <-]; tauto);
    try discriminate.
  - destruct (is_inf (of_Z z)) eqn:Hz; [|discriminate].
    intros [= <-]. right. right. eauto.
  - destruct (float_of_str B s); [discriminate|]. intros [= <-]. tauto.
Qed.

Lemma big_int_truthy (z : Z) : is_inf (of_Z z) = true -> truthy (PInt z) = true.
Proof. destruct z; [discriminate|reflexivity..]. Qed.

End FormatterErrors.

(** X6: the two delta formatters agree: on every input either both
    return, with the same text and with the style and the direction
    that go together (dim and flat, green and up, red and down), or
    both raise [OverflowError]; and the flat direction comes with the
    placeholder text only. *)
Theorem fmt_delta_variants_agree (B : Py.builtins) (delta : Py.pyval) :
  match Dashboard.fmt_delta B delta, Server.fmt_delta_plain B delta with
  | Py.Ok t, Py.Ok j =>
      Dashboard.plain t = Server.text j
      /\ ((Dashboard.style t = "dim"%string
           /\ Server.direction j = "flat"%string
           /\ Server.text j = "—"%string)
          \/ (Dashboard.style t = "green"%string
              /\ Server.direction j = "up"%string)
          \/ (Dashboard.style t = "red"%string
              /\ Server.direction j = "down"%string))
  | Py.Raise e, Py.Raise e' => e = Py.OverflowError /\ e' = Py.OverflowError
  | _, _ => False
  end.
Proof.
  unfold Dashboard.fmt_delta, Server.fmt_delta_plain, Dashboard.delta_cents.
  destruct delta as [|b|z|f|s|l|d]; try (simpl; tauto);
    match goal with
    | |- context [Py.py_float B ?v] =>
        destruct (Py.py_float B v) as [x|e] eqn:Hf
    end;
    try (apply py_float_raises in Hf
           as [-> | [-> | (-> & _)]]; simpl; tauto);
    simpl; destruct (Dashboard.below_noise _); simpl; try tauto;
    destruct (PyFloat.fltb _ _); simpl; tauto.
Qed.

(** X7: the volume formatter and the two delta formatters raise on
    one kind of input only, an integer too large for a float, and then
    the exception is [OverflowError]; every other input is formatted. *)
Theorem formatters_raise_on_big_int_only (B : Py.builtins) (v : Py.pyval) :
  let big := exists z, v = Py.PInt z /\ PyFloat.is_inf (PyFloat.of_Z z) = true in
  (big -> Dashboard.fmt_vol B v = Py.Raise Py.OverflowError
          /\ Dashboard.fmt_delta B v = Py.Raise Py.OverflowError
          /\ Server.fmt_delta_plain B v = Py.Raise Py.OverflowError)
  /\ (forall e, Dashboard.fmt_vol B v = Py.Raise e -> big)
  /\ (forall e, Dashboard.fmt_delta B v = Py.Raise e -> big)
  /\ (forall e, Server.fmt_delta_plain B v = Py.Raise e -> big).
Proof.
  cbv zeta. split; [|split; [|split]].
  - intros (z & -> & Hz).
    unfold Dashboard.fmt_vol, Dashboard.fmt_delta, Server.fmt_delta_plain,
      Dashboard.delta_cents, Py.py_or.
    rewrite (big_int_truthy z Hz). simpl. rewrite Hz. repeat split.
  - intros e. unfold Dashboard.fmt_vol.
    destruct (Py.py_float B (Py.py_or v (Py.PInt 0))) as [n|e'] eqn:Hf;
      [discriminate|].
    apply py_float_raises in Hf as [-> | [-> | (-> & z & Hv & Hz)]];
      try discriminate.
    intros _. exists z. split; [|assumption].
    unfold Py.py_or in Hv. destruct (Py.truthy v); [assumption|].
    injection Hv as <-. discriminate.
  - intros e. unfold Dashboard.fmt_delta, Dashboard.delta_cents.
    destruct v as [|b|z|f|s|l|d]; try discriminate;
      match goal with
      | |- context [Py.py_float B ?v] =>
          destruct (Py.py_float B v) as [x|e'] eqn:Hf
      end;
      try (simpl; destruct (Dashboard.below_noise _); discriminate);
      apply py_float_raises in Hf as [-> | [-> | (-> & z' & Hv & Hz)]];
      try discriminate; intros _; eauto.
  - intros e. unfold Server.fmt_delta_plain, Dashboard.delta_cents.
    destruct v as [|b|z|f|s|l|d]; try discriminate;
      match goal with
      | |- context [Py.py_float B ?v] =>
          destruct (Py.py_float B v) as [x|e'] eqn:Hf
      end;
      try (simpl; destruct (Dashboard.below_noise _); discriminate);
      apply py_float_raises in Hf as [-> | [-> | (-> & z' & Hv & Hz)]];
      try discriminate; intros _; eauto.
Qed.

(** ** More on the cache *)

(** X8: what a call stored is what the next calls get: after a call
    that had to fetch and whose fetch returned, any call for the same
    key made less than the TTL after it returns the same events, makes
    no upstream invocation and leaves the cache as it is, whatever the
    upstream would answer by then. *)
Theorem get_events_then_hit (B : Py.builtins) (CACHE_TTL limit : Z)
    (now now' : PyFloat.float) (out out' : Dashboard.completed)
    (w : Server.world) (data : list Py.pyval) :
  Server.lookup_fresh CACHE_TTL (Server.cache w) limit now = None ->
  Dashboard.fetch_events B limit out = Py.Ok data ->
  Server.flt_int (PyFloat.fsub now' now) CACHE_TTL = true ->
  let w1 := snd (Server.get_events B CACHE_TTL limit now out w) in
  Server.runs w1 = S (Server.runs w)
  /\ Server.get_events B CACHE_TTL limit now' out' w1 = (Py.Ok data, w1).
Proof.
  intros Hmiss Hfetch Hage. cbv zeta.
  assert (Server.get_events B CACHE_TTL limit now out w
          = (Py.Ok data,
             Server.World (<[limit := (now, data)]> (Server.cache w))
                          (S (Server.runs w)))) as ->.
  { unfold Server.get_events. rewrite Hmiss, Hfetch. reflexivity. }
  cbn [snd Server.runs]. split; [reflexivity|].
  unfold Server.get_events.
  assert (Server.lookup_fresh CACHE_TTL
            (Server.cache
               (Server.World (<[limit := (now, data)]> (Server.cache w))
                             (S (Server.runs w)))) limit now'
          = Some data) as ->; [|reflexivity].
  apply lookup_fresh_Some. exists now. split; [|assumption].
  cbn [Server.cache]. apply lookup_insert_eq.
Qed.

Lemma get_events_then_hit_sample :
  let w1 := snd (Server.get_events Samples.sample_builtins Samples.ttl 10
                   (PyFloat.of_Z 0) Samples.one_event (Server.World ∅ 0)) in
  Server.runs w1 = 1%nat
  /\ Server.get_events Samples.sample_builtins Samples.ttl 10
       (PyFloat.of_Z 29) (Dashboard.Completed 1 "" "") w1
     = (Py.Ok [Py.PDict [("volume"%string, Py.PInt 5)]], w1).
Proof.
  apply (get_events_then_hit Samples.sample_builtins Samples.ttl 10
           (PyFloat.of_Z 0) (PyFloat.of_Z 29) Samples.one_event
           (Dashboard.Completed 1 "" "") (Server.World ∅ 0)).
  - reflexivity.
  - vm_compute. reflexivity.
  - vm_compute. reflexivity.
Defined.

(** ** Progress of the queued callers *)


(** X9: the lock never wedges the callers. In every state the server
    can reach, if the lock is held or someone is queued then a call in
    progress can be resumed; and resuming calls, without any new call
    and whatever the upstream answers, leads to a state where the lock
    is free, nobody is queued and every call made so far has returned. *)
Theorem calls_in_progress_complete (B : Py.builtins) (CACHE_TTL : Z)
    (s : Server.server) (out : Dashboard.completed) :
  Server.reachable B CACHE_TTL s ->
  (Server.lock_free s = false ->
   exists a s1, Server.resumes out a
                /\ Server.step B CACHE_TTL a s = Some s1)
  /\ exists acts s',
       Server.run B CACHE_TTL acts s = Some s'
       /\ Server.lock_free s' = true
       /\ Server.all_returned s s'
       /\ Forall (Server.resumes out) acts.
Proof.
  intros Hr. split.
  - intros Hl. unfold Server.lock_free in Hl.
    destruct (Server.s_holder s) as [t|] eqn:Hh.
    + destruct (holder_releases B CACHE_TTL out s t
                  (reachable_orderly B CACHE_TTL s Hr) Hh) as (s2 & Hs2 & _).
      exists (Server.FetchDone t out), s2. split; [right; eauto|assumption].
    + destruct (Server.s_waiters s) as [|t ws] eqn:Hws; [discriminate|].
      destruct (head_wakes B CACHE_TTL s t ws
                  (reachable_consistent B CACHE_TTL s Hr) Hh Hws)
        as (s1 & Hs1 & _).
      exists Server.Wake, s1. split; [now left|assumption].
  - eapply drains; [reflexivity|assumption].
Qed.

Lemma calls_in_progress_complete_sample :
  let s := Samples.state_after Samples.same_key_calls in
  Server.lock_free s = false
  /\ exists acts s',
       Server.run Samples.sample_builtins Samples.ttl acts s = Some s'
       /\ Server.lock_free s' = true
       /\ Server.all_returned s s'
       /\ Forall (Server.resumes Samples.one_event) acts.
Proof.
  cbv zeta. split; [vm_compute; reflexivity|].
  apply (calls_in_progress_complete Samples.sample_builtins Samples.ttl
           (Samples.state_after Samples.same_key_calls) Samples.one_event).
  eapply run_reachable; [apply Server.reachable_initial|].
  exact after_same_key_calls.
Defined.

(** ** The two extractors together *)

Section TwoExtractors.
Import PyFloat Py.
Context (B : builtins).

Lemma parse_market_agree (m : pyval) :
  match Server.parse_market B m with
  | Ok c => Dashboard.parse_market B m = Ok (Server.terminal_view c)
  | Raise e => Dashboard.parse_market B m = Raise e
  end.
Proof.
  unfold Server.parse_market, Dashboard.parse_market.
  destruct (Dashboard.yes_of_market B m) as [y|e]; [|reflexivity].
  destruct m; reflexivity.
Qed.

Lemma mapM_agree {X Y Y' : Type} (f : X -> Result Y) (g : X -> Result Y')
    (h : Y -> Y') (l : list X) :
  (forall x, match f x with
             | Ok y => g x = Ok (h y)
             | Raise e => g x = Raise e
             end) ->
  match mapM f l with
  | Ok ys => mapM g l = Ok (map h ys)
  | Raise e => mapM g l = Raise e
  end.
Proof.
  intros Hfg. induction l as [|x l IH]; [reflexivity|].
  simpl. specialize (Hfg x).
  destruct (f x) as [y|e]; rewrite Hfg; [|reflexivity]. simpl.
  destruct (mapM f l) as [ys|e]; rewrite IH; reflexivity.
Qed.

Lemma mapM_length {X Y : Type} (f : X -> Result Y) (l : list X)
    (ys : list Y) :
  mapM f l = Ok ys -> length ys = length l.
Proof.
  intros H. apply mapM_Ok in H. symmetry. eapply Forall2_length. exact H.
Qed.

(** A list of markets gives one web contender per market. *)
Lemma all_contenders_length (event : pyval) (ms : list pyval)
    (all : list Server.web_contender) :
  Server._all_contenders B event = Ok all ->
  py_get event "markets" = Ok (PList ms) ->
  length all = length ms.
Proof.
  unfold Server._all_contenders, Server.parsed_contenders.
  intros H Hms. rewrite Hms in H. simpl in H.
  assert (py_iter (py_or (PList ms) (PList [])) = Ok ms) as Hit
    by (destruct ms; reflexivity).
  rewrite Hit in H. simpl in H.
  destruct (mapM (Server.parse_market B) ms) as [parsed|e] eqn:Hp;
    [|discriminate].
  simpl in H. injection H as <-.
  rewrite sort_reverse_length.
  apply (mapM_length _ _ _ Hp).
Qed.

End TwoExtractors.

(** X10: the bounded extractor is the unbounded one cut to five: on
    every event either both raise the same exception, or the terminal
    gets the first five of the web contenders, each without its end
    date; a list of markets gives one web contender per market. *)
Theorem top_contenders_of_all (B : Py.builtins) (event : Py.pyval) :
  match Server._all_contenders B event with
  | Py.Ok all =>
      Dashboard.top_contenders B event
      = Py.Ok (firstn 5 (map Server.terminal_view all))
      /\ (forall ms, Py.py_get event "markets" = Py.Ok (Py.PList ms) ->
          length all = length ms)
  | Py.Raise e => Dashboard.top_contenders B event = Py.Raise e
  end.
Proof.
  destruct (Server._all_contenders B event) as [all|e] eqn:Hall.
  - split; [|intros ms Hms; eapply all_contenders_length; eassumption].
    revert Hall.
    unfold Server._all_contenders, Dashboard.top_contenders,
      Server.parsed_contenders, Dashboard.parsed_contenders.
    destruct (Py.py_get event "markets") as [ms|e]; [|discriminate]. simpl.
    destruct (Py.py_iter (Py.py_or ms (Py.PList []))) as [markets|e];
      [|discriminate].
    simpl.
    pose proof (mapM_agree (Server.parse_market B) (Dashboard.parse_market B)
                  Server.terminal_view markets (parse_market_agree B)) as Hm.
    destruct (mapM (Server.parse_market B) markets) as [parsed|e];
      [|discriminate].
    rewrite Hm. simpl. intros [= <-].
    rewrite (sort_reverse_map Server.yes Dashboard.yes Server.terminal_view);
      reflexivity.
  - revert Hall.
    unfold Server._all_contenders, Dashboard.top_contenders,
      Server.parsed_contenders, Dashboard.parsed_contenders.
    destruct (Py.py_get event "markets") as [ms|e'];
      [|intros [= <-]; reflexivity].
    simpl.
    destruct (Py.py_iter (Py.py_or ms (Py.PList []))) as [markets|e'];
      [|intros [= <-]; reflexivity].
    simpl.
    pose proof (mapM_agree (Server.parse_market B) (Dashboard.parse_market B)
                  Server.terminal_view markets (parse_market_agree B)) as Hm.
    destruct (mapM (Server.parse_market B) markets) as [parsed|e'];
      [discriminate|].
    rewrite Hm. intros [= <-]. reflexivity.
Qed.

(** ** The shape of the table and of the response *)

Section Shapes.
Import PyFloat Py.
Local Open Scope nat_scope.
Context (B : builtins).

(** A loop over [enumerate] that returns has returned at every index. *)
Lemma mapM_enumerated_lookup {X Y : Type} (k : nat -> X -> Result Y)
    (l : list X) :
  forall (f : nat -> nat) (ys : list Y),
    mapM (fun ie => k (fst ie) (snd ie)) (imap (fun i x => (f i, x)) l)
    = Ok ys ->
    length ys = length l
    /\ forall i x y, l !! i = Some x -> ys !! i = Some y ->
                     k (f i) x = Ok y.
Proof.
  induction l as [|x l IH]; intros f ys H.
  - injection H as <-. split; [reflexivity|]. intros i x y Hx. discriminate.
  - simpl in H. destruct (k (f 0) x) as [y|e] eqn:Hx; [|discriminate].
    simpl in H.
    destruct (mapM (fun ie => k (fst ie) (snd ie))
                   (imap ((fun i x => (f i, x)) ∘ S) l)) as [r|e] eqn:Hr;
      [|discriminate].
    simpl in H. injection H as <-.
    destruct (IH (f ∘ S) r Hr) as [Hlen Hat].
    split; [simpl; congruence|].
    intros [|i] x' y'; simpl.
    + intros [= <-] [= <-]. assumption.
    + apply Hat.
Qed.

Lemma count_of_range (W : Z) :
  (1 <= Layout.count_of (Layout.calc_layout W) <= 5)%Z.
Proof.
  pose proof (first_fit_cases W) as Hc. cbv zeta in Hc.
  unfold Layout.calc_layout, Layout.count_of. cbn [fst].
  destruct Hc as [[-> _] | (Hn & _)]; [cbn; lia|].
  destruct (Z.eqb_spec (Layout.first_fit W Layout.candidate_counts) 0); lia.
Qed.

(** Padding then cutting to [n] leaves exactly [n] contenders. *)
Lemma padded_slice_length (n : Z) (cs : list Dashboard.contender) :
  (0 <= n)%Z ->
  length (slice_to (Dashboard.pad_contenders n cs) n) = Z.to_nat n.
Proof.
  intros Hn. unfold slice_to, Dashboard.pad_contenders.
  assert ((n <? 0)%Z = false) as -> by lia.
  rewrite length_take, length_app, repeat_length. lia.
Qed.

Lemma concat_groups_length (name_w : Z) (cs : list Dashboard.contender)
    (groups : list (list Dashboard.cell)) :
  Forall2 (fun c g => Dashboard.contender_cells B name_w c = Ok g) cs groups ->
  length (concat groups) = 3 * length cs.
Proof.
  induction 1 as [|c g cs groups Hc _ IH]; [reflexivity|].
  unfold Dashboard.contender_cells in Hc.
  destruct (Dashboard.fmt_delta B (Dashboard.delta c)); [|discriminate].
  simpl in Hc. injection Hc as <-. simpl. rewrite IH. lia.
Qed.

Lemma build_row_shape (n_cont name_w event_w : Z) (idx : nat)
    (event : pyval) (row : list Dashboard.cell) :
  (0 <= n_cont)%Z ->
  Dashboard.build_row B n_cont name_w event_w idx event = Ok row ->
  length row = 4 + 3 * Z.to_nat n_cont
  /\ row !! 0 = Some (Dashboard.CStr (str_of_Znonneg (Z.of_nat idx))).
Proof.
  unfold Dashboard.build_row. intros Hn H.
  destruct (Dashboard.top_contenders B event) as [cs|e]; [|discriminate].
  simpl in H.
  destruct (py_get event "title") as [title|e]; [|discriminate]. simpl in H.
  destruct (py_get event "volume") as [vol|e]; [|discriminate]. simpl in H.
  destruct (Dashboard.fmt_vol B vol) as [fv|e]; [|discriminate]. simpl in H.
  destruct (py_get event "volume24hr") as [vol24|e]; [|discriminate].
  simpl in H.
  destruct (Dashboard.fmt_vol B vol24) as [fv24|e]; [|discriminate].
  simpl in H.
  destruct (mapM (Dashboard.contender_cells B name_w)
                 (slice_to (Dashboard.pad_contenders n_cont cs) n_cont))
    as [groups|e] eqn:Hg; [|discriminate].
  simpl in H. injection H as <-. split; [|reflexivity].
  simpl. apply mapM_Ok in Hg.
  rewrite (concat_groups_length _ _ _ Hg), padded_slice_length by assumption.
  reflexivity.
Qed.

Lemma event_json_shape (idx : nat) (event : pyval) (e : Server.api_event) :
  Server.event_json B idx event = Ok e ->
  Server.e_rank e = idx
  /\ Server.e_contenderCount e = length (Server.e_contenders e)
  /\ exists raw, Server._all_contenders B event = Ok raw
                 /\ Server.e_contenderCount e = length raw.
Proof.
  unfold Server.event_json. intros H.
  destruct (Server._all_contenders B event) as [raw|x]; [|discriminate].
  simpl in H.
  destruct (mapM (Server.contender_json B) raw) as [cs|x] eqn:Hcs;
    [|discriminate].
  simpl in H.
  repeat match type of H with
         | context [mbind _ ?m] =>
             destruct m; [|discriminate]; simpl in H
         end.
  injection H as <-. simpl. split; [reflexivity|]. split; [|eauto].
  symmetry. apply (mapM_length _ _ _ Hcs).
Qed.

End Shapes.

(** X11: every table that is built is rectangular: it has one row per
    event, in order, each row starts with the rank of its event,
    counted from 1, and has four cells followed by three cells for each
    of the contender columns of the layout, between one and five,
    however few markets the event has. *)
Theorem build_table_shape (B : Py.builtins) (console_width : Z)
    (events : list Py.pyval) (rows : list (list Dashboard.cell)) :
  Dashboard.build_table B console_width events = Py.Ok rows ->
  let width := if console_width =? 0 then 200 else console_width in
  let n_cont := Layout.count_of (Layout.calc_layout width) in
  1 <= n_cont <= 5
  /\ length rows = length events
  /\ forall (i : nat) row, rows !! i = Some row ->
       length row = (4 + 3 * Z.to_nat n_cont)%nat
       /\ row !! 0%nat
          = Some (Dashboard.CStr (Py.str_of_Znonneg (Z.of_nat (S i)))).
Proof.
  intros H. cbv zeta.
  pose proof (count_of_range (if console_width =? 0 then 200 else console_width))
    as Hn.
  split; [exact Hn|].
  unfold Dashboard.build_table in H. unfold Layout.count_of in *.
  destruct (Layout.calc_layout _) as [[n_cont name_w] event_w].
  cbn [fst] in *.
  apply (mapM_enumerated_lookup
           (fun i => Dashboard.build_row B n_cont name_w event_w (S i))
           events (fun i => i)) in H as [Hlen Hat].
  split; [exact Hlen|].
  intros i row Hrow.
  destruct (events !! i) as [event|] eqn:Hev.
  - eapply build_row_shape; [lia|]. eapply Hat; eassumption.
  - apply lookup_ge_None in Hev. apply lookup_lt_Some in Hrow. lia.
Qed.

Lemma build_table_shape_sample :
  exists rows,
    Dashboard.build_table Samples.sample_builtins 100
      [Samples.sample_event; Py.PDict []] = Py.Ok rows
    /\ length rows = 2%nat
    /\ forall (i : nat) row, rows !! i = Some row ->
         length row = (4 + 3 * Z.to_nat 1)%nat
         /\ row !! 0%nat
            = Some (Dashboard.CStr (Py.str_of_Znonneg (Z.of_nat (S i)))).
Proof.
  eexists. split; [vm_compute; reflexivity|].
  match goal with
  | |- context [length ?rows = 2%nat] =>
      pose proof (build_table_shape Samples.sample_builtins 100
                    [Samples.sample_event; Py.PDict []] rows) as H
  end.
  destruct H as (_ & Hlen & Hrows); [vm_compute; reflexivity|].
  split; [exact Hlen|exact Hrows].
Defined.

(** X12: the response document lists one object per event, in order,
    ranked from 1; each object's contender count is the number of
    contender objects it carries, which is the number of markets of
    the event when these form a list; the document carries the
    configured TTL. *)
Theorem events_to_json_shape (B : Py.builtins) (CACHE_TTL : Z) (ts : string)
    (events : list Py.pyval) (p : Server.payload) :
  Server.events_to_json B CACHE_TTL ts events = Py.Ok p ->
  Server.p_ttl p = CACHE_TTL
  /\ Server.p_ts p = ts
  /\ length (Server.p_events p) = length events
  /\ forall (i : nat) event e,
       events !! i = Some event -> Server.p_events p !! i = Some e ->
       Server.e_rank e = S i
       /\ Server.e_contenderCount e = length (Server.e_contenders e)
       /\ forall ms, Py.py_get event "markets" = Py.Ok (Py.PList ms) ->
            Server.e_contenderCount e = length ms.
Proof.
  unfold Server.events_to_json. intros H.
  destruct (mapM _ _) as [result|e] eqn:Hr; [|discriminate].
  simpl in H. injection H as <-. simpl.
  apply (mapM_enumerated_lookup (fun i => Server.event_json B (S i))
           events (fun i => i)) in Hr as [Hlen Hat].
  repeat split; try assumption.
  - eapply event_json_shape, Hat; eassumption.
  - eapply event_json_shape, Hat; eassumption.
  - intros ms Hms.
    destruct (event_json_shape B _ _ _ (Hat _ _ _ H H0))
      as (_ & _ & raw & Hraw & ->).
    eapply all_contenders_length; eassumption.
Qed.

Lemma events_to_json_shape_sample :
  exists p,
    Server.events_to_json Samples.sample_builtins Samples.ttl "ts"
      [Samples.sample_event] = Py.Ok p
    /\ Server.p_ttl p = Samples.ttl
    /\ length (Server.p_events p) = 1%nat.
Proof.
  eexists. split; [vm_compute; reflexivity|].
  match goal with
  | |- context [Server.p_ttl ?p] =>
      destruct (events_to_json_shape Samples.sample_builtins Samples.ttl "ts"
                  [Samples.sample_event] p) as (Httl & _ & Hlen & _)
  end.
  - vm_compute. reflexivity.
  - split; [exact Httl|exact Hlen].
Defined.

(** ** What the client returns *)

Section ClientBounds.
Import PyFloat Py.
Context (B : builtins).

Lemma slice_to_take {X : Type} (l : list X) (k : Z) :
  exists n, slice_to l k = take n l
            /\ ((0 <= k)%Z -> n = Z.to_nat k)
            /\ ((k < 0)%Z -> n = (length l - Z.to_nat (- k))%nat).
Proof.
  unfold slice_to. destruct (Z.ltb_spec k 0); eexists;
    (split; [reflexivity|]); split; intros; lia.
Qed.

Lemma ranking_Permutation (l ranked : list pyval) :
  Dashboard.ranking B l = Ok ranked -> Permutation ranked l.
Proof.
  unfold Dashboard.ranking.
  destruct (mapM (Dashboard.volume_key B) l) as [keys|e] eqn:Hk;
    [|discriminate].
  intros [= <-]. rewrite (sort_reverse_Permutation snd (zip l keys)).
  rewrite fst_zip; [reflexivity|]. apply mapM_length in Hk. lia.
Qed.

Lemma sort_and_truncate_Ok (data : pyval) (limit : Z) (r : list pyval) :
  Dashboard.sort_and_truncate B data limit = Ok r ->
  exists l ranked,
    data = PList l /\ Dashboard.ranking B l = Ok ranked
    /\ Permutation ranked l /\ r = slice_to ranked limit.
Proof.
  destruct data as [| | | | |l|]; try discriminate.
  unfold Dashboard.sort_and_truncate.
  destruct (Dashboard.ranking B l) as [ranked|e] eqn:Hr; [|discriminate].
  intros [= <-]. exists l, ranked. split; [reflexivity|].
  split; [exact Hr|]. split; [|reflexivity].
  apply ranking_Permutation, Hr.
Qed.

End ClientBounds.

(** X13: whatever the upstream answers, the events the client returns
    are the first events of the ranking of the decoded output (a
    rearrangement of its events): for a limit that is not negative the
    first [limit] of them, so at most [limit]; for a negative limit
    all but the last [-limit] events of the ranking. *)
Theorem fetch_events_bounds (B : Py.builtins) (limit : Z)
    (out : Dashboard.completed) (r : list Py.pyval) :
  Dashboard.fetch_events B limit out = Py.Ok r ->
  (0 <= limit -> (length r <= Z.to_nat limit)%nat)
  /\ (r <> [] ->
      Dashboard.returncode out = 0
      /\ exists l ranked rest,
           Py.json_loads B (Dashboard.stdout out) = Py.Ok (Py.PList l)
           /\ Dashboard.ranking B l = Py.Ok ranked
           /\ Permutation ranked l
           /\ ranked = (r ++ rest)%list
           /\ (0 <= limit -> r = take (Z.to_nat limit) ranked)
           /\ (limit < 0 ->
               length rest = (Z.to_nat (- limit) `min` length l)%nat)).
Proof.
  unfold Dashboard.fetch_events. intros H.
  destruct (Dashboard.returncode out =? 0) eqn:Hrc; simpl in H;
    [|injection H as <-; split; [simpl; lia|congruence]].
  apply Z.eqb_eq in Hrc. unfold Py.try_except in H.
  destruct (Py.json_loads B (Dashboard.stdout out)) as [data|e] eqn:Hj;
    cbn [mbind Py.Result_bind] in H.
  - destruct (Dashboard.sort_and_truncate B data limit) as [r'|e] eqn:Hs.
    + injection H as <-.
      apply sort_and_truncate_Ok in Hs
        as (l & ranked & -> & Hrank & Hperm & ->).
      destruct (slice_to_take ranked limit) as (n & Hn & Hpos & Hneg).
      rewrite Hn. split.
      * intros Hl. rewrite length_take, (Hpos Hl). lia.
      * intros _. split; [assumption|].
        exists l, ranked, (drop n ranked). split; [reflexivity|].
        split; [exact Hrank|]. split; [exact Hperm|].
        split; [now rewrite take_drop|]. split.
        -- intros Hl. now rewrite (Hpos Hl).
        -- intros Hl. rewrite length_drop, (Hneg Hl).
           rewrite (Permutation_length Hperm). lia.
    + destruct (Py.caught [Py.JSONDecodeError] e); [|discriminate].
      injection H as <-. split; [simpl; lia|congruence].
  - destruct (Py.caught [Py.JSONDecodeError] e); [|discriminate].
    injection H as <-. split; [simpl; lia|congruence].
Qed.

Lemma fetch_events_bounds_sample :
  (0 <= 1 ->
   (length [Py.PDict [("volume"%string, Py.PInt 5)]] <= Z.to_nat 1)%nat)
  /\ ([Py.PDict [("volume"%string, Py.PInt 5)]] <> [] ->
      Dashboard.returncode Samples.one_event = 0
      /\ exists l ranked rest,
           Py.json_loads Samples.sample_builtins
             (Dashboard.stdout Samples.one_event) = Py.Ok (Py.PList l)
           /\ Dashboard.ranking Samples.sample_builtins l = Py.Ok ranked
           /\ Permutation ranked l
           /\ ranked = ([Py.PDict [("volume"%string, Py.PInt 5)]] ++ rest)%list
           /\ (0 <= 1 -> [Py.PDict [("volume"%string, Py.PInt 5)]]
                         = take (Z.to_nat 1) ranked)
           /\ (1 < 0 -> length rest = (Z.to_nat (- 1) `min` length l)%nat)).
Proof.
  apply (fetch_events_bounds Samples.sample_builtins 1 Samples.one_event).
  vm_compute. reflexivity.
Defined.

(** ** Truncation *)

Section Truncation.
Import PyFloat Py.
Local Open Scope string_scope.

Lemma append_assoc (a b c : string) : (a ++ b) ++ c = a ++ (b ++ c).
Proof.
  induction a as [|x a IH]; [reflexivity|].
  change (String x ((a ++ b) ++ c) = String x (a ++ (b ++ c))).
  f_equal. exact IH.
Qed.

Lemma chars_String (a : ascii) (s : string) :
  chars (String a s)
  = if starts_with_cont s then
      match chars s with
      | g :: r => String a g :: r
      | [] => [String a EmptyString]
      end
    else String a EmptyString :: chars s.
Proof. reflexivity. Qed.

(** In front of text that starts a new code point, a group stays one
    code point. *)
Lemma chars_group_app (cs : string) :
  forall (a : ascii) (t : string),
    all_cont cs = true -> starts_with_cont t = false ->
    chars (String a cs ++ t) = String a cs :: chars t.
Proof.
  induction cs as [|c cs IH]; intros a t Hcs Ht.
  - change (String a "" ++ t) with (String a t).
    rewrite chars_String, Ht. reflexivity.
  - apply andb_prop in Hcs as [Hc Hcs].
    change (String a (String c cs) ++ t) with (String a (String c cs ++ t)).
    rewrite chars_String, (IH c t Hcs Ht).
    change (starts_with_cont (String c cs ++ t)) with (is_cont c).
    rewrite Hc. reflexivity.
Qed.

(** The code points of a string are groups; all but the first start
    with a byte that is no continuation byte, and the first starts as
    the string does. *)
Lemma chars_groups (s : string) :
  Forall (fun g => is_group g = true) (chars s)
  /\ Forall (fun g => starts_with_cont g = false) (tail (chars s))
  /\ (forall g r, chars s = g :: r ->
        starts_with_cont g = starts_with_cont s).
Proof.
  induction s as [|a s (Hg & Ht & Hh)].
  - split; [constructor|]. split; [constructor|]. discriminate.
  - rewrite chars_String. destruct (starts_with_cont s) eqn:Hs.
    + destruct (chars s) as [|g r] eqn:Hc.
      * split; [repeat constructor|]. split; [constructor|].
        intros g r [= <- <-]. reflexivity.
      * inversion Hg as [|? ? Hgg Hgr]; subst.
        split; [|split; [exact Ht|intros g' r' [= <- <-]; reflexivity]].
        constructor; [|assumption].
        pose proof (Hh g r eq_refl) as Hhead.
        destruct g as [|b g']; [discriminate|].
        change (is_cont b && all_cont g' = true).
        change (is_cont b = true) in Hhead. change (all_cont g' = true) in Hgg.
        rewrite Hhead, Hgg. reflexivity.
    + split; [constructor; [reflexivity|assumption]|].
      split; [|intros g r [= <- <-]; reflexivity].
      change (Forall (fun g => starts_with_cont g = false) (chars s)).
      destruct (chars s) as [|g r] eqn:Hc; [constructor|].
      constructor; [|exact Ht]. rewrite (Hh g r eq_refl). reflexivity.
Qed.

Lemma chars_join_app (gs : list string) (t : string) :
  Forall (fun g => is_group g = true) gs ->
  Forall (fun g => starts_with_cont g = false) (tail gs) ->
  starts_with_cont t = false ->
  chars (join gs ++ t) = (gs ++ chars t)%list.
Proof.
  intros Hg. revert t. induction Hg as [|g gs Hgg Hg IH]; intros t Ht Hst;
    [reflexivity|].
  change (join (g :: gs)) with (g ++ join gs). rewrite append_assoc.
  destruct g as [|a cs]; [discriminate|].
  change (all_cont cs = true) in Hgg.
  rewrite chars_group_app.
  - change ((String a cs :: gs) ++ chars t)%list
      with (String a cs :: (gs ++ chars t))%list.
    f_equal. apply IH; [|assumption].
    destruct gs; [constructor|]. inversion Ht; assumption.
  - exact Hgg.
  - destruct gs as [|g' gs']; [exact Hst|].
    inversion Ht as [|? ? Hh _]; subst. inversion Hg as [|? ? Hgg' _]; subst.
    destruct g'; [discriminate|]. exact Hh.
Qed.

(** Cutting after [k] code points and adding the ellipsis keeps these
    code points and adds one. *)
Lemma chars_cut (s : string) (k : nat) :
  chars (join (take k (chars s)) ++ "…") = (take k (chars s) ++ ["…"])%list.
Proof.
  destruct (chars_groups s) as (Hg & Ht & _).
  rewrite chars_join_app.
  - reflexivity.
  - apply Forall_take. exact Hg.
  - destruct k; [constructor|]. destruct (chars s) as [|g r]; [constructor|].
    apply Forall_take. exact Ht.
  - reflexivity.
Qed.

Lemma py_len_cut (s : string) (k : nat) :
  py_len (join (take k (chars s)) ++ "…")
  = Z.of_nat (length (take k (chars s)) + 1).
Proof. unfold py_len. rewrite chars_cut, length_app. reflexivity. Qed.

End Truncation.

(** X14: truncation counts code points. A text of at most [n] code
    points is returned as it is. A longer one is cut from the end and
    the ellipsis is added: for [n] at least 1 the result is the first
    [n - 1] code points of the text and the ellipsis, [n] code points
    in all. For a width of zero or less the result is longer than the
    width: all but the last [1 - n] code points of the text (one is
    dropped for zero, more for a negative width), and the ellipsis. *)
Theorem truncate_length (B : Py.builtins) (v : Py.pyval) (n : Z) :
  let s := Py.py_str B v in
  (Py.py_len s <= n -> Dashboard.truncate B v n = s)
  /\ (n < Py.py_len s -> 1 <= n ->
      Py.chars (Dashboard.truncate B v n)
      = (take (Z.to_nat (n - 1)) (Py.chars s) ++ ["…"%string])%list
      /\ Py.py_len (Dashboard.truncate B v n) = n)
  /\ (n < Py.py_len s -> n <= 0 ->
      Py.chars (Dashboard.truncate B v n)
      = (take (length (Py.chars s) - Z.to_nat (1 - n)) (Py.chars s)
           ++ ["…"%string])%list
      /\ Py.py_len (Dashboard.truncate B v n)
         = Z.max 0 (Py.py_len s + n - 1) + 1).
Proof.
  cbv zeta. unfold Dashboard.truncate, Dashboard.truncate_str.
  set (s := Py.py_str B v). split; [|split].
  - intros Hle. destruct (Z.leb_spec (Py.py_len s) n); [reflexivity|lia].
  - intros Hlt Hn. destruct (Z.leb_spec (Py.py_len s) n); [lia|].
    unfold Py.str_slice_to.
    destruct (slice_to_take (Py.chars s) (n - 1)) as (k & -> & Hk & _).
    rewrite py_len_cut, chars_cut, length_take, Hk by lia.
    split; [reflexivity|]. unfold Py.py_len in Hlt. lia.
  - intros Hlt Hn. destruct (Z.leb_spec (Py.py_len s) n); [lia|].
    unfold Py.str_slice_to.
    destruct (slice_to_take (Py.chars s) (n - 1)) as (k & -> & _ & Hk).
    rewrite py_len_cut, chars_cut, length_take, Hk by lia.
    split; [f_equal; f_equal; lia|]. unfold Py.py_len. lia.
Qed.

Lemma truncate_length_sample :
  Py.chars (Dashboard.truncate Samples.sample_builtins
              (Py.PStr "Zürich — Genève") 8)
  = (take (Z.to_nat (8 - 1)) (Py.chars "Zürich — Genève") ++ ["…"%string])%list
  /\ Py.py_len (Dashboard.truncate Samples.sample_builtins
                  (Py.PStr "Zürich — Genève") 8) = 8.
Proof.
  apply (proj1 (proj2 (truncate_length Samples.sample_builtins
                         (Py.PStr "Zürich — Genève") 8))).
  - vm_compute. reflexivity.
  - lia.
Defined.

(** ** When the extractors return *)

Section ExtractorReturns.
Import PyFloat Py.
Local Open Scope string_scope.
Context (B : builtins).

Lemma mapM_returns {X Y : Type} (f : X -> Result Y) (l : list X) :
  (exists ys, mapM f l = Ok ys) <-> Forall (fun x => exists y, f x = Ok y) l.
Proof.
  split.
  - intros [ys H]. apply mapM_Ok in H.
    induction H; constructor; eauto.
  - induction 1 as [|x l [y Hy] _ [ys IH]]; [exists []; reflexivity|].
    exists (y :: ys). simpl. rewrite Hy. simpl. rewrite IH. reflexivity.
Qed.

Lemma py_float_convertible (x : pyval) :
  Dashboard.convertible x = true <->
  ((exists y, py_float B x = Ok y) \/ py_float B x = Raise ValueError).
Proof.
  destruct x as [|b|z|f|s|l|d]; simpl; split; try discriminate; eauto;
    try (intros [[y H] | H]; discriminate).
  - destruct (is_inf (of_Z z)); [discriminate|eauto].
  - destruct (is_inf (of_Z z)); [|reflexivity].
    intros [[y H] | H]; discriminate.
  - destruct (float_of_str B s); eauto.
Qed.

Lemma yes_of_market_returns (m : pyval) :
  (exists y, Dashboard.yes_of_market B m = Ok y)
  <-> Dashboard.market_ok B m = true.
Proof.
  unfold Dashboard.yes_of_market, Dashboard.market_ok.
  destruct m as [| | | | | |fields]; simpl;
    try (split; [intros [y H]; discriminate|discriminate]).
  destruct (py_or (default PNone (assoc "outcomePrices" fields))
                  (PStr "[0,1]")) as [|b|z|f|txt|l|d]; simpl;
    try (split; [intros [y H]; discriminate|discriminate]).
  unfold Dashboard.price_text_ok.
  destruct (json_loads B txt) as [[|b|z|f|s|[|x l]|d]|e]; try destruct e;
    simpl;
    try (split; [intros [y H]; discriminate|discriminate]);
    try (split; eauto; fail).
  - destruct (chars s) as [|c cs]; simpl; [split; eauto|].
    destruct (float_of_str B c); simpl; split; eauto.
  - rewrite py_float_convertible.
    destruct (py_float B x) as [y|e] eqn:Hf; simpl.
    + split; eauto.
    + apply py_float_raises in Hf as [-> | [-> | (-> & _)]]; simpl; split;
        try (intros [y H]; discriminate);
        try (intros [[y H] | H]; discriminate); eauto.
Qed.

Lemma parse_market_returns (m : pyval) :
  (exists c, Dashboard.parse_market B m = Ok c)
  <-> Dashboard.market_ok B m = true.
Proof.
  rewrite <- yes_of_market_returns. unfold Dashboard.parse_market.
  destruct (Dashboard.yes_of_market B m) as [y|e] eqn:Hy; simpl.
  - split; [eauto|]. intros _.
    destruct m; try (unfold Dashboard.yes_of_market in Hy; discriminate).
    simpl. eauto.
  - split; intros [c H]; discriminate.
Qed.

End ExtractorReturns.

(** X15: for an event whose markets form a list, the extractors return
    exactly when every market is one the parsing copes with: a dict
    whose price field is absent, empty or a string, where the string is
    one on which [json.loads] raises [JSONDecodeError] or [ValueError],
    or decodes to a string, to an empty list, or to a list starting
    with a string, a float, a boolean or an integer within the floats.
    On any other market, and on a price text nested too deep for
    [json.loads], both extractors raise. *)
Theorem extractors_return_iff (B : Py.builtins) (event : Py.pyval)
    (ms : list Py.pyval) :
  Py.py_get event "markets" = Py.Ok (Py.PList ms) ->
  ((exists cs, Dashboard.top_contenders B event = Py.Ok cs)
   <-> forallb (Dashboard.market_ok B) ms = true)
  /\ ((exists all, Server._all_contenders B event = Py.Ok all)
      <-> forallb (Dashboard.market_ok B) ms = true).
Proof.
  intros Hms.
  assert (Py.py_iter (Py.py_or (Py.PList ms) (Py.PList [])) = Py.Ok ms) as Hit
    by (destruct ms; reflexivity).
  assert ((exists parsed, mapM (Dashboard.parse_market B) ms = Py.Ok parsed)
          <-> forallb (Dashboard.market_ok B) ms = true) as Hd.
  { rewrite mapM_returns, forallb_forall, Forall_forall.
    split; intros H m Hm.
    - apply parse_market_returns, H, list_elem_of_In, Hm.
    - apply parse_market_returns, H, list_elem_of_In, Hm. }
  assert ((exists cs, Dashboard.top_contenders B event = Py.Ok cs)
          <-> forallb (Dashboard.market_ok B) ms = true) as Htop.
  { rewrite <- Hd.
    unfold Dashboard.top_contenders, Dashboard.parsed_contenders.
    rewrite Hms. simpl. rewrite Hit. simpl.
    destruct (mapM (Dashboard.parse_market B) ms) as [parsed|e]; simpl;
      split; intros [x Hx]; try discriminate; eauto. }
  split; [exact Htop|].
  assert (forall m, (exists c, Server.parse_market B m = Py.Ok c)
                    <-> Dashboard.market_ok B m = true) as Hpm.
  { intros m. rewrite <- parse_market_returns.
    pose proof (parse_market_agree B m) as Hag.
    destruct (Server.parse_market B m) as [c|e]; rewrite Hag;
      split; intros [x Hx]; try discriminate; eauto. }
  unfold Server._all_contenders, Server.parsed_contenders.
  rewrite Hms. simpl. rewrite Hit. simpl.
  destruct (mapM (Server.parse_market B) ms) as [parsed|e] eqn:Hp; simpl.
  - split; [intros _|eauto].
    apply forallb_forall. intros m Hm. apply Hpm.
    assert (exists ys, mapM (Server.parse_market B) ms = Py.Ok ys) as Hex
      by eauto.
    apply mapM_returns in Hex. rewrite Forall_forall in Hex.
    apply Hex, list_elem_of_In, Hm.
  - split; [intros [x Hx]; discriminate|]. intros Hall. exfalso.
    assert (exists ys, mapM (Server.parse_market B) ms = Py.Ok ys)
      as [ys Hys].
    { apply mapM_returns, Forall_forall. intros m Hm. apply Hpm.
      rewrite forallb_forall in Hall. apply Hall, list_elem_of_In, Hm. }
    congruence.
Qed.

Lemma extractors_return_iff_sample :
  let ms := [Samples.market "A" "[null]"; Samples.market "B" "[0.5, 0.5]"] in
  ((exists cs, Dashboard.top_contenders Samples.sample_builtins
                 Samples.null_price_event = Py.Ok cs)
   <-> forallb (Dashboard.market_ok Samples.sample_builtins) ms = true)
  /\ ((exists all, Server._all_contenders Samples.sample_builtins
                     Samples.null_price_event = Py.Ok all)
      <-> forallb (Dashboard.market_ok Samples.sample_builtins) ms = true).
Proof.
  cbv zeta.
  apply (extractors_return_iff Samples.sample_builtins
           Samples.null_price_event
           [Samples.market "A" "[null]"; Samples.market "B" "[0.5, 0.5]"]).
  reflexivity.
Defined.

(** ** What is rendered *)

Section Rendering.
Import PyFloat Py.
Context (B : builtins).

Lemma fetch_events_length (limit : Z) (out : Dashboard.completed)
    (r : list pyval) :
  Dashboard.fetch_events B limit out = Ok r ->
  (0 <= limit)%Z -> (length r <= Z.to_nat limit)%nat.
Proof.
  unfold Dashboard.fetch_events. intros H Hl.
  destruct (Dashboard.returncode out =? 0)%Z; simpl in H;
    [|injection H as <-; simpl; lia].
  unfold try_except in H.
  destruct (json_loads B (Dashboard.stdout out)) as [data|e];
    cbn [mbind Result_bind] in H.
  - destruct (Dashboard.sort_and_truncate B data limit) as [r'|e] eqn:Hs.
    + injection H as <-.
      apply sort_and_truncate_Ok in Hs as (l & ranked & _ & _ & _ & ->).
      destruct (slice_to_take ranked limit) as (n & -> & Hn & _).
      rewrite length_take, (Hn Hl). lia.
    + destruct (caught [JSONDecodeError] e); [|discriminate].
      injection H as <-. simpl. lia.
  - destruct (caught [JSONDecodeError] e); [|discriminate].
    injection H as <-. simpl. lia.
Qed.

Lemma build_table_length (console_width : Z) (events : list pyval)
    (rows : list (list Dashboard.cell)) :
  Dashboard.build_table B console_width events = Ok rows ->
  length rows = length events.
Proof.
  unfold Dashboard.build_table.
  destruct (Layout.calc_layout _) as [[n_cont name_w] event_w]. intros H.
  apply (mapM_enumerated_lookup
           (fun i => Dashboard.build_row B n_cont name_w event_w (S i))
           events (fun i => i)) in H.
  apply H.
Qed.

End Rendering.

(** X16: what the terminal shows follows the fetch. The no-data panel
    is shown whenever the client returns no event, which it does for a
    failed upstream run, for an output on which [json.loads] raises
    [JSONDecodeError], and for the limit 0 whenever it returns; an
    exception of the client escapes [render]. When the client returns
    events, the group is shown if the table is built: its header
    counts the events fetched, its table has one row for each and its
    footer is the legend. Nothing else is ever shown. *)
Theorem render_follows_fetch (B : Py.builtins) (limit : Z) (stamp : string)
    (out : Dashboard.completed) (console_width : Z) :
  let shown := Dashboard.render B limit stamp out console_width in
  let no_data := Dashboard.NoData "[red]No data available.[/]" in
  (Dashboard.fetch_events B limit out = Py.Ok [] -> shown = Py.Ok no_data)
  /\ (Dashboard.returncode out <> 0 -> shown = Py.Ok no_data)
  /\ (Dashboard.returncode out = 0 ->
      Py.json_loads B (Dashboard.stdout out) = Py.Raise Py.JSONDecodeError ->
      shown = Py.Ok no_data)
  /\ (limit = 0 ->
      forall events, Dashboard.fetch_events B limit out = Py.Ok events ->
        shown = Py.Ok no_data)
  /\ (forall e, Dashboard.fetch_events B limit out = Py.Raise e ->
        shown = Py.Raise e)
  /\ (forall events table,
        Dashboard.fetch_events B limit out = Py.Ok events -> events <> [] ->
        Dashboard.build_table B console_width events = Py.Ok table ->
        shown = Py.Ok (Dashboard.Group
                         (Dashboard.build_header (length events) stamp)
                         table Dashboard.build_footer))
  /\ (forall r, shown = Py.Ok r ->
        match r with
        | Dashboard.NoData _ =>
            r = no_data /\ Dashboard.fetch_events B limit out = Py.Ok []
        | Dashboard.Group header table footer =>
            exists events,
              Dashboard.fetch_events B limit out = Py.Ok events
              /\ (1 <= length events)%nat
              /\ limit <> 0
              /\ Dashboard.build_table B console_width events = Py.Ok table
              /\ length table = length events
              /\ header = Dashboard.build_header (length events) stamp
              /\ footer = Dashboard.build_footer
        end).
Proof.
  cbv zeta.
  assert (Dashboard.fetch_events B limit out = Py.Ok [] ->
          Dashboard.render B limit stamp out console_width
          = Py.Ok (Dashboard.NoData "[red]No data available.[/]")) as Hempty.
  { unfold Dashboard.render. intros ->. reflexivity. }
  split; [exact Hempty|]. split; [|split; [|split; [|split; [|split]]]].
  - intros Hrc. apply Hempty, fetch_events_failed_run, Hrc.
  - intros Hrc Hj. apply Hempty. unfold Dashboard.fetch_events.
    rewrite Hrc. change (negb (0 =? 0)) with false. cbv iota.
    unfold Py.py_json_loads. rewrite Hj. reflexivity.
  - intros -> events Hf. apply Hempty.
    pose proof (fetch_events_length B 0 out events Hf) as Hlen.
    destruct events; [exact Hf|]. simpl in Hlen. lia.
  - intros e Hf. unfold Dashboard.render. rewrite Hf. reflexivity.
  - intros events table Hf Hne Ht. unfold Dashboard.render. rewrite Hf.
    destruct events as [|ev events]; [contradiction|].
    cbn [mbind Py.Result_bind]. rewrite Ht. reflexivity.
  - unfold Dashboard.render. intros r H.
    destruct (Dashboard.fetch_events B limit out) as [events|e] eqn:Hf;
      [|discriminate].
    cbn [mbind Py.Result_bind] in H. destruct events as [|ev events].
    + injection H as <-. split; reflexivity.
    + destruct (Dashboard.build_table B console_width (ev :: events))
        as [rows|e] eqn:Ht; [|discriminate].
      cbn [mbind Py.Result_bind mret Py.Result_ret] in H. injection H as <-.
      pose proof (build_table_length B _ _ _ Ht) as Hlen.
      exists (ev :: events). split; [reflexivity|].
      split; [simpl; lia|]. split.
      * intros ->. apply fetch_events_length in Hf; [|lia].
        simpl in Hf. lia.
      * split; [exact Ht|]. split; [exact Hlen|]. split; reflexivity.
Qed.

(** ** What the cache holds and what it costs *)

Section CacheContents.
Import PyFloat Py Server.
Context (B : builtins) (CACHE_TTL : Z).

Local Abbreviation step := (Server.step B CACHE_TTL).
Local Abbreviation run := (Server.run B CACHE_TTL).
Local Abbreviation reachable := (Server.reachable B CACHE_TTL).

(** A step changes the cache only by storing what a fetch for the key
    returned. *)
Lemma step_cache (a : action) (s s' : server) (k : Z) (ts : float)
    (data : list pyval) :
  step a s = Some s' ->
  s_cache s' !! k = Some (ts, data) ->
  s_cache s !! k = Some (ts, data)
  \/ exists out, Dashboard.fetch_events B k out = Ok data.
Proof.
  intros Hs Hk. destruct a as [t limit now| |t out]; simpl in Hs.
  - destruct (s_tasks s !! t); [discriminate|]. unfold Server.enter in Hs.
    destruct (lock_free s), (lookup_fresh CACHE_TTL (s_cache s) limit now);
      injection Hs as <-; left; exact Hk.
  - destruct (s_holder s); [discriminate|].
    destruct (s_waiters s) as [|t ws]; [discriminate|].
    destruct (s_tasks s !! t) as [[limit now|? ?|?]|]; try discriminate.
    unfold Server.enter in Hs. simpl in Hs.
    destruct (lookup_fresh CACHE_TTL (s_cache s) limit now);
      injection Hs as <-; left; exact Hk.
  - destruct (s_tasks s !! t) as [[? ?|limit now|?]|]; try discriminate.
    destruct (Dashboard.fetch_events B limit out) as [d|e] eqn:Hf;
      injection Hs as <-; simpl in Hk; [|left; exact Hk].
    rewrite lookup_insert in Hk. case_decide as Heq; [|left; exact Hk].
    injection Hk as <- <-. subst. right. eauto.
Qed.

(** The upstream invocations and the queued calls together grow by at
    most one with a call and not at all otherwise. *)
Lemma step_cost (a : action) (s s' : server) :
  step a s = Some s' ->
  (s_runs s' + length (s_waiters s')
   <= s_runs s + length (s_waiters s) + calls [a])%nat.
Proof.
  intros Hs. destruct a as [t limit now| |t out]; simpl in Hs.
  - destruct (s_tasks s !! t); [discriminate|]. unfold Server.enter in Hs.
    destruct (lock_free s), (lookup_fresh CACHE_TTL (s_cache s) limit now);
      injection Hs as <-; simpl; rewrite ?length_app; simpl; lia.
  - destruct (s_holder s); [discriminate|].
    destruct (s_waiters s) as [|t ws]; [discriminate|].
    destruct (s_tasks s !! t) as [[limit now|? ?|?]|]; try discriminate.
    unfold Server.enter in Hs. simpl in Hs.
    destruct (lookup_fresh CACHE_TTL (s_cache s) limit now);
      injection Hs as <-; simpl; lia.
  - destruct (s_tasks s !! t) as [[? ?|limit now|?]|]; try discriminate.
    destruct (Dashboard.fetch_events B limit out);
      injection Hs as <-; simpl; lia.
Qed.

Lemma run_cost (acts : list action) :
  forall s s' : server,
    run acts s = Some s' ->
    (s_runs s' + length (s_waiters s')
     <= s_runs s + length (s_waiters s) + calls acts)%nat.
Proof.
  induction acts as [|a acts IH]; intros s s' H.
  - injection H as <-. simpl. lia.
  - cbn [Server.run] in H. destruct (step a s) as [s1|] eqn:Hs; [|discriminate].
    pose proof (step_cost a s s1 Hs) as H1. pose proof (IH s1 s' H) as H2.
    assert (calls (a :: acts) = (calls [a] + calls acts)%nat) as ->
      by (destruct a; reflexivity).
    lia.
Qed.

End CacheContents.

(** X17: in every state the server can reach, the entry of a key holds
    what some fetch for that very key returned, so for a key that is
    not negative it holds at most that many events. *)
Theorem cache_entries_fetched (B : Py.builtins) (CACHE_TTL : Z)
    (s : Server.server) (k : Z) (ts : PyFloat.float)
    (data : list Py.pyval) :
  Server.reachable B CACHE_TTL s ->
  Server.s_cache s !! k = Some (ts, data) ->
  (exists out, Dashboard.fetch_events B k out = Py.Ok data)
  /\ (0 <= k -> (length data <= Z.to_nat k)%nat).
Proof.
  intros Hr Hk.
  assert (exists out, Dashboard.fetch_events B k out = Py.Ok data)
    as [out Hout].
  { revert Hk. induction Hr as [|a s s' _ IH Hs]; intros Hk.
    - simpl in Hk. rewrite lookup_empty in Hk. discriminate.
    - destruct (step_cache B CACHE_TTL a s s' k ts data Hs Hk) as [Hold|Hnew];
        [apply IH, Hold|exact Hnew]. }
  split; [eauto|]. intros Hpos. eapply fetch_events_length; eassumption.
Qed.

Lemma cache_entries_fetched_sample :
  let s := Samples.state_after
             [Server.Call 1 10 (PyFloat.of_Z 0);
              Server.FetchDone 1 Samples.one_event] in
  (exists out,
      Dashboard.fetch_events Samples.sample_builtins 10 out
      = Py.Ok [Py.PDict [("volume"%string, Py.PInt 5)]])
  /\ (0 <= 10 ->
      (length [Py.PDict [("volume"%string, Py.PInt 5)]] <= Z.to_nat 10)%nat).
Proof.
  cbv zeta.
  apply (cache_entries_fetched Samples.sample_builtins Samples.ttl
           (Samples.state_after
              [Server.Call 1 10 (PyFloat.of_Z 0);
               Server.FetchDone 1 Samples.one_event])
           10 (PyFloat.of_Z 0)).
  - apply (run_reachable Samples.sample_builtins Samples.ttl
             [Server.Call 1 10 (PyFloat.of_Z 0);
              Server.FetchDone 1 Samples.one_event] Server.initial);
      [apply Server.reachable_initial|].
    vm_compute. reflexivity.
  - vm_compute. reflexivity.
Defined.

(** X18: however the calls interleave, the upstream is invoked at most
    once per call made: the invocations made so far and the calls still
    queued together never exceed the number of calls. *)
Theorem upstream_runs_bounded (B : Py.builtins) (CACHE_TTL : Z)
    (acts : list Server.action) (s : Server.server) :
  Server.run B CACHE_TTL acts Server.initial = Some s ->
  (Server.s_runs s + length (Server.s_waiters s) <= Server.calls acts)%nat
  /\ (Server.s_runs s <= Server.calls acts)%nat.
Proof.
  intros Hrun.
  pose proof (run_cost B CACHE_TTL acts Server.initial s Hrun) as H.
  simpl in H. split; lia.
Qed.

Lemma upstream_runs_bounded_sample :
  let s := Samples.state_after Samples.same_key_calls in
  (Server.s_runs s + length (Server.s_waiters s)
   <= Server.calls Samples.same_key_calls)%nat
  /\ (Server.s_runs s <= Server.calls Samples.same_key_calls)%nat.
Proof.
  cbv zeta.
  apply (upstream_runs_bounded Samples.sample_builtins Samples.ttl).
  exact after_same_key_calls.
Defined.

(** ** When the client returns *)

Section ClientReturns.
Import PyFloat Py.
Local Open Scope string_scope.
Context (B : builtins).

Lemma volume_key_returns (e : pyval) :
  (exists k, Dashboard.volume_key B e = Ok k)
  <-> Dashboard.volume_ok B e = true.
Proof.
  unfold Dashboard.volume_key, Dashboard.volume_ok.
  destruct e as [| | | | | |fields]; simpl;
    try (split; [intros [k H]; discriminate|discriminate]).
  destruct (py_or (default PNone (assoc "volume" fields)) (PInt 0))
    as [|b|z|f|s|l|d]; simpl;
    try (split; [intros [k H]; discriminate|discriminate]);
    try (split; eauto; fail).
  - destruct (is_inf (of_Z z)); simpl; split; eauto;
      try (intros [k H]; discriminate); discriminate.
  - destruct (float_of_str B s); split; eauto;
      try (intros [k H]; discriminate); discriminate.
Qed.

Lemma volume_key_raises (e : pyval) (x : exn) :
  Dashboard.volume_key B e = Raise x -> caught [JSONDecodeError] x = false.
Proof.
  unfold Dashboard.volume_key.
  destruct e as [| | | | | |fields]; simpl; try (intros [= <-]; reflexivity).
  intros H. apply py_float_raises in H as [-> | [-> | (-> & _)]]; reflexivity.
Qed.

Lemma mapM_raises {X Y : Type} (f : X -> Result Y) (l : list X) (e : exn) :
  mapM f l = Raise e -> exists x, x ∈ l /\ f x = Raise e.
Proof.
  induction l as [|x l IH]; simpl; [discriminate|].
  destruct (f x) as [y|e'] eqn:Hx; simpl.
  - destruct (mapM f l) as [ys|e'']; simpl; [discriminate|].
    intros [= <-]. destruct (IH eq_refl) as (x' & Hin & Hx').
    exists x'. split; [now right|assumption].
  - intros [= <-]. exists x. split; [now left|assumption].
Qed.

Lemma sort_and_truncate_returns (data : pyval) (limit : Z) :
  match Dashboard.sort_and_truncate B data limit with
  | Ok _ => exists l, data = PList l
                      /\ forallb (Dashboard.volume_ok B) l = true
  | Raise x =>
      caught [JSONDecodeError] x = false
      /\ forall l, data = PList l ->
                   forallb (Dashboard.volume_ok B) l = false
  end.
Proof.
  unfold Dashboard.sort_and_truncate, Dashboard.ranking.
  destruct data as [| | | | |l|];
    try (split; [reflexivity|]; intros l' [=]).
  destruct (mapM (Dashboard.volume_key B) l) as [keys|x] eqn:Hk;
    cbn [mbind Result_bind mret Result_ret].
  - exists l. split; [reflexivity|].
    apply forallb_forall. intros e He. apply volume_key_returns.
    assert (exists ys, mapM (Dashboard.volume_key B) l = Ok ys) as Hex
      by eauto.
    apply mapM_returns in Hex. rewrite Forall_forall in Hex.
    apply Hex, list_elem_of_In, He.
  - apply mapM_raises in Hk as (e & Hin & He). split.
    + eapply volume_key_raises. exact He.
    + intros l' [= <-].
      destruct (forallb (Dashboard.volume_ok B) l) eqn:Hall; [|reflexivity].
      rewrite forallb_forall in Hall.
      apply list_elem_of_In, Hall, volume_key_returns in Hin as [k Hk].
      congruence.
Qed.

Lemma caught_decode_error (e : exn) :
  caught [JSONDecodeError] e = true <-> e = JSONDecodeError.
Proof. destruct e; simpl; split; congruence. Qed.

End ClientReturns.

(** X19: the client returns exactly in three cases: the upstream run
    failed, or [json.loads] raises [JSONDecodeError] on its output, in
    both of which it returns no event, or the output decodes to a list
    of events whose volume is each absent, null or otherwise false, a
    number within the floats, or a string that [float] accepts. In
    every other case it raises: an output that is no list, an event
    that is no object, a volume that is a list, an object or a string
    that is no number, and an output on which [json.loads] raises
    [RecursionError] or [ValueError], which the handler does not
    name. *)
Theorem fetch_events_returns_iff (B : Py.builtins) (limit : Z)
    (out : Dashboard.completed) :
  ((exists r, Dashboard.fetch_events B limit out = Py.Ok r)
   <-> (Dashboard.returncode out <> 0
        \/ Py.json_loads B (Dashboard.stdout out)
           = Py.Raise Py.JSONDecodeError
        \/ exists l,
             Py.json_loads B (Dashboard.stdout out) = Py.Ok (Py.PList l)
             /\ forallb (Dashboard.volume_ok B) l = true))
  /\ (Dashboard.returncode out <> 0 ->
      Dashboard.fetch_events B limit out = Py.Ok [])
  /\ (Py.json_loads B (Dashboard.stdout out) = Py.Raise Py.JSONDecodeError ->
      Dashboard.fetch_events B limit out = Py.Ok [])
  /\ (Dashboard.returncode out = 0 ->
      forall e, Py.json_loads B (Dashboard.stdout out) = Py.Raise e ->
        e <> Py.JSONDecodeError ->
        Dashboard.fetch_events B limit out = Py.Raise e).
Proof.
  assert (Dashboard.returncode out <> 0 ->
          Dashboard.fetch_events B limit out = Py.Ok []) as Hfail.
  { unfold Dashboard.fetch_events. intros Hrc.
    apply Z.eqb_neq in Hrc. rewrite Hrc. reflexivity. }
  assert (Py.json_loads B (Dashboard.stdout out) = Py.Raise Py.JSONDecodeError
          -> Dashboard.fetch_events B limit out = Py.Ok []) as Hbad.
  { unfold Dashboard.fetch_events, Py.py_json_loads. intros ->.
    destruct (negb _); reflexivity. }
  assert (Dashboard.returncode out = 0 ->
          forall e, Py.json_loads B (Dashboard.stdout out) = Py.Raise e ->
            e <> Py.JSONDecodeError ->
            Dashboard.fetch_events B limit out = Py.Raise e) as Hesc.
  { unfold Dashboard.fetch_events, Py.py_json_loads. intros -> e -> He.
    destruct e; try contradiction; reflexivity. }
  split; [|split; [exact Hfail|split; [exact Hbad|exact Hesc]]].
  destruct (Z.eq_dec (Dashboard.returncode out) 0) as [Hrc|Hrc];
    [|split; [tauto|intros _; rewrite (Hfail Hrc); eauto]].
  destruct (Py.json_loads B (Dashboard.stdout out)) as [data|e] eqn:Hj.
  - unfold Dashboard.fetch_events, Py.py_json_loads. rewrite Hrc, Hj.
    change (negb (0 =? 0)) with false. cbv iota.
    cbn [mbind Py.Result_bind]. unfold Py.try_except.
    pose proof (sort_and_truncate_returns B data limit) as Hs.
    destruct (Dashboard.sort_and_truncate B data limit) as [r|x].
    + split; [intros _|eauto]. right. right.
      destruct Hs as (l & -> & Hall). eauto.
    + destruct Hs as [-> Hno]. split; [intros [r Hr]; discriminate|].
      intros [Hne|[Hd|(l & [= ->] & Hall)]];
        [contradiction|discriminate|].
      rewrite (Hno l eq_refl) in Hall. discriminate.
  - destruct (Py.exn_eqb e Py.JSONDecodeError) eqn:He.
    + destruct e; try discriminate. rewrite (Hbad eq_refl).
      split; eauto.
    + rewrite (Hesc Hrc e eq_refl) by (intros ->; discriminate).
      split; [intros [r Hr]; discriminate|].
      intros [Hne|[[= ->]|(l & Hl & _)]];
        [contradiction|discriminate|discriminate].
Qed.

(** ** The table of the fetched events *)

Section FetchedRows.
Import PyFloat Py.
Local Open Scope string_scope.
Context (B : builtins).

Lemma fmt_vol_returns (v : pyval) :
  (exists t, Dashboard.fmt_vol B v = Ok t) <-> Dashboard.overflows v = false.
Proof.
  unfold Dashboard.fmt_vol. split.
  - intros [t H]. destruct v as [|b|z|f|s|l|d]; try reflexivity.
    simpl. destruct (is_inf (of_Z z)) eqn:Hz; [|reflexivity].
    unfold py_or in H. rewrite (big_int_truthy z Hz) in H. simpl in H.
    rewrite Hz in H. discriminate.
  - intros Hv.
    destruct (py_float B (py_or v (PInt 0))) as [n|e] eqn:Hf; [eauto|].
    apply py_float_raises in Hf as [-> | [-> | (-> & z & Hz & Hinf)]];
      [simpl; eauto..|].
    unfold py_or in Hz. destruct (truthy v).
    + subst v. simpl in Hv. congruence.
    + injection Hz as <-. discriminate.
Qed.

Lemma fmt_delta_returns (v : pyval) :
  (exists t, Dashboard.fmt_delta B v = Ok t) <-> Dashboard.overflows v = false.
Proof.
  unfold Dashboard.fmt_delta, Dashboard.delta_cents. split.
  - intros [t H]. destruct v as [|b|z|f|s|l|d]; try reflexivity.
    simpl in *. destruct (is_inf (of_Z z)); [discriminate|reflexivity].
  - intros Hv. destruct v as [|b|z|f|s|l|d]; [eauto|..];
      match goal with
      | |- context [py_float B ?v] =>
          destruct (py_float B v) as [x|e] eqn:Hf
      end;
      try (simpl; destruct (Dashboard.below_noise _); eauto; fail);
      apply py_float_raises in Hf as [-> | [-> | (-> & z' & Hz & Hinf)]];
      try (simpl; eauto; fail); try discriminate Hz.
    injection Hz as <-. simpl in Hv. congruence.
Qed.

Lemma contender_cells_returns (name_w : Z) (c : Dashboard.contender) :
  (exists g, Dashboard.contender_cells B name_w c = Ok g)
  <-> Dashboard.overflows (Dashboard.delta c) = false.
Proof.
  rewrite <- fmt_delta_returns. unfold Dashboard.contender_cells. split.
  - intros [g H].
    destruct (Dashboard.fmt_delta B (Dashboard.delta c)); [eauto|discriminate].
  - intros [t ->]. simpl. eauto.
Qed.

(** The filler entries have no delta, so only the contenders of the
    event matter. *)
Lemma padded_slice_deltas (n : Z) (cs : list Dashboard.contender) :
  (0 <= n)%Z ->
  Forall (fun c => Dashboard.overflows (Dashboard.delta c) = false)
         (slice_to (Dashboard.pad_contenders n cs) n)
  <-> Forall (fun c => Dashboard.overflows (Dashboard.delta c) = false)
             (take (Z.to_nat n) cs).
Proof.
  intros Hn. unfold slice_to, Dashboard.pad_contenders.
  assert ((n <? 0)%Z = false) as -> by lia.
  rewrite take_app, Forall_app. split; [tauto|]. intros H. split; [exact H|].
  apply Forall_take, Forall_forall. intros c Hc.
  apply list_elem_of_In, repeat_spec in Hc. subst c. reflexivity.
Qed.

Lemma build_row_returns (n_cont name_w event_w : Z) (idx : nat)
    (fields : list (string * pyval)) :
  (0 <= n_cont)%Z ->
  (exists row,
     Dashboard.build_row B n_cont name_w event_w idx (PDict fields) = Ok row)
  <-> (exists cs,
         Dashboard.top_contenders B (PDict fields) = Ok cs
         /\ Forall (fun c => Dashboard.overflows (Dashboard.delta c) = false)
                   (take (Z.to_nat n_cont) cs))
      /\ Dashboard.overflows (default PNone (assoc "volume" fields)) = false
      /\ Dashboard.overflows (default PNone (assoc "volume24hr" fields))
         = false.
Proof.
  intros Hn. unfold Dashboard.build_row.
  rewrite <- !fmt_vol_returns.
  destruct (Dashboard.top_contenders B (PDict fields)) as [cs|e]; simpl.
  2:{ split; [intros [row H]; discriminate|].
      intros [(cs & H & _) _]. discriminate. }
  pose proof (mapM_returns (Dashboard.contender_cells B name_w)
                (slice_to (Dashboard.pad_contenders n_cont cs) n_cont))
    as Hm.
  destruct (Dashboard.fmt_vol B (default PNone (assoc "volume" fields)))
    as [fv|e]; simpl.
  2:{ split; [intros [row H]; discriminate|].
      intros (_ & [t H] & _). discriminate. }
  destruct (Dashboard.fmt_vol B (default PNone (assoc "volume24hr" fields)))
    as [fv24|e]; simpl.
  2:{ split; [intros [row H]; discriminate|].
      intros (_ & _ & [t H]). discriminate. }
  split.
  - intros [row H].
    destruct (mapM (Dashboard.contender_cells B name_w)
                (slice_to (Dashboard.pad_contenders n_cont cs) n_cont))
      as [groups|e]; [|discriminate].
    split; [|eauto]. exists cs. split; [reflexivity|].
    assert (exists ys : list (list Dashboard.cell), Ok groups = Ok ys) as Hex
      by eauto.
    apply Hm in Hex. apply (padded_slice_deltas n_cont cs Hn).
    eapply Forall_impl; [exact Hex|].
    intros c Hc. apply (contender_cells_returns name_w), Hc.
  - intros [(cs' & [= <-] & Hall) _].
    assert (exists ys, mapM (Dashboard.contender_cells B name_w)
              (slice_to (Dashboard.pad_contenders n_cont cs) n_cont) = Ok ys)
      as [groups ->].
    { apply Hm. apply (padded_slice_deltas n_cont cs Hn) in Hall.
      eapply Forall_impl; [exact Hall|].
      intros c Hc. apply (contender_cells_returns name_w), Hc. }
    simpl. eauto.
Qed.

(** A loop over [enumerate] returns when every turn does, if whether a
    turn returns does not depend on the index. *)
Lemma mapM_enumerated_returns {X Y : Type} (k : nat -> X -> Result Y)
    (P : X -> Prop) (l : list X) :
  Forall (fun x => forall i, (exists y, k i x = Ok y) <-> P x) l ->
  forall f : nat -> nat,
    (exists ys,
       mapM (fun ie => k (fst ie) (snd ie)) (imap (fun i x => (f i, x)) l)
       = Ok ys)
    <-> Forall P l.
Proof.
  induction 1 as [|x l Hx _ IH]; intros f.
  - split; [constructor|]. intros _. exists []. reflexivity.
  - specialize (IH (f ∘ S)). simpl. split.
    + intros [ys H].
      destruct (k (f 0%nat) x) as [y|e] eqn:Hy; [|discriminate]. simpl in H.
      destruct (mapM (fun ie => k (fst ie) (snd ie))
                     (imap ((fun i x => (f i, x)) ∘ S) l)) as [r|e] eqn:Hr;
        [|discriminate].
      constructor; [apply (Hx (f 0%nat)); eauto|]. apply IH. eauto.
    + intros Hall. inversion Hall as [|? ? Hp Hl]; subst.
      apply (Hx (f 0%nat)) in Hp as [y Hy]. apply IH in Hl as [r Hr].
      exists (y :: r). rewrite Hy. simpl.
      change (imap ((fun i x => (f i, x)) ∘ S) l)
        with (imap (fun i x => ((f ∘ S) i, x)) l).
      rewrite Hr. reflexivity.
Qed.

(** What the client returns went through its sort key. *)
Lemma fetched_volume_ok (limit : Z) (out : Dashboard.completed)
    (r : list pyval) :
  Dashboard.fetch_events B limit out = Ok r ->
  Forall (fun e => Dashboard.volume_ok B e = true) r.
Proof.
  unfold Dashboard.fetch_events.
  destruct (negb (Dashboard.returncode out =? 0)%Z);
    [intros [= <-]; constructor|].
  unfold py_json_loads, try_except.
  destruct (json_loads B (Dashboard.stdout out)) as [data|x];
    cbn [mbind Result_bind].
  - pose proof (sort_and_truncate_returns B data limit) as Hs.
    destruct (Dashboard.sort_and_truncate B data limit) as [r'|x] eqn:Hr.
    + intros [= <-]. destruct Hs as (l & -> & Hall).
      apply sort_and_truncate_Ok in Hr
        as (l' & ranked & [= <-] & _ & Hperm & ->).
      rewrite forallb_forall in Hall.
      destruct (slice_to_take ranked limit) as (n & -> & _).
      apply Forall_take, Forall_forall. intros e He.
      apply Hall, list_elem_of_In. rewrite <- Hperm. exact He.
    + destruct Hs as [-> _]. discriminate.
  - destruct (caught [JSONDecodeError] x); [|discriminate].
    intros [= <-]. constructor.
Qed.

Lemma volume_ok_formats (e : pyval) :
  Dashboard.volume_ok B e = true ->
  exists fields,
    e = PDict fields
    /\ Dashboard.overflows (default PNone (assoc "volume" fields)) = false.
Proof.
  destruct e as [| | | | | |fields]; try discriminate. simpl.
  intros H. exists fields. split; [reflexivity|].
  destruct (default PNone (assoc "volume" fields)) as [|b|z|f|s|l|d];
    try reflexivity.
  simpl. destruct (is_inf (of_Z z)) eqn:Hz; [|reflexivity].
  unfold py_or in H. rewrite (big_int_truthy z Hz) in H.
  rewrite Hz in H. discriminate.
Qed.

End FetchedRows.

(** X20: on the events the client returned the total-volume cell is
    always formatted, since the sort of the client computed the same
    float; the table is built exactly when, for every event, the
    extractor returns, none of the contenders shown has a change that
    is an integer beyond the floats, and the 24-hour volume is no such
    integer either. *)
Theorem build_table_on_fetched (B : Py.builtins) (limit : Z)
    (out : Dashboard.completed) (console_width : Z)
    (events : list Py.pyval) :
  Dashboard.fetch_events B limit out = Py.Ok events ->
  let width := if console_width =? 0 then 200 else console_width in
  let n_cont := Layout.count_of (Layout.calc_layout width) in
  Forall (fun e => exists vol t,
            Py.py_get e "volume" = Py.Ok vol
            /\ Dashboard.fmt_vol B vol = Py.Ok t) events
  /\ ((exists rows, Dashboard.build_table B console_width events = Py.Ok rows)
      <-> Forall (fun e =>
            (exists cs,
               Dashboard.top_contenders B e = Py.Ok cs
               /\ Forall (fun c =>
                    Dashboard.overflows (Dashboard.delta c) = false)
                    (take (Z.to_nat n_cont) cs))
            /\ forall v, Py.py_get e "volume24hr" = Py.Ok v ->
                         Dashboard.overflows v = false) events).
Proof.
  intros Hf. cbv zeta. apply fetched_volume_ok in Hf.
  pose proof (count_of_range (if console_width =? 0 then 200 else console_width))
    as Hn.
  split.
  - eapply Forall_impl; [exact Hf|]. intros e He.
    apply volume_ok_formats in He as (fields & -> & Hv).
    apply (fmt_vol_returns B) in Hv as [t Ht]. simpl. eauto.
  - unfold Dashboard.build_table.
    destruct (Layout.calc_layout (if console_width =? 0 then 200 else console_width))
      as [[n_cont name_w] event_w] eqn:Hl.
    unfold Layout.count_of in *. cbn [fst] in *.
    apply (mapM_enumerated_returns
             (fun i => Dashboard.build_row B n_cont name_w event_w (S i))
             _ events).
    eapply Forall_impl; [exact Hf|]. intros e He i.
    apply volume_ok_formats in He as (fields & -> & Hv).
    rewrite build_row_returns by lia. simpl. split.
    + intros (Hcs & _ & H24). split; [exact Hcs|]. intros v [= <-]. exact H24.
    + intros [Hcs H24]. split; [exact Hcs|]. split; [exact Hv|].
      apply H24. reflexivity.
Qed.

Lemma build_table_on_fetched_sample :
  exists rows,
    Dashboard.build_table Samples.sample_builtins 120
      [Py.PDict [("volume"%string, Py.PInt 5)]] = Py.Ok rows.
Proof.
  apply (build_table_on_fetched Samples.sample_builtins 1 Samples.one_event
           120 [Py.PDict [("volume"%string, Py.PInt 5)]]).
  - vm_compute. reflexivity.
  - repeat constructor.
    + exists []. split; [vm_compute; reflexivity|constructor].
    + intros v. vm_compute. intros [= <-]. reflexivity.
Defined.

(** ** The response for the fetched events *)

Section FetchedObjects.
Import PyFloat Py.
Local Open Scope string_scope.
Context (B : builtins).

Lemma overflows_truthy (v : pyval) :
  Dashboard.overflows v = true -> truthy v = true.
Proof.
  destruct v as [|b|z|f|s|l|d]; try discriminate. apply big_int_truthy.
Qed.

(** [v or w] is beyond the floats when [v] is, or when [v] is false and
    [w] is. *)
Lemma overflows_or (v w : pyval) :
  Dashboard.overflows (py_or v w)
  = Dashboard.overflows v || (negb (truthy v) && Dashboard.overflows w).
Proof.
  unfold py_or. destruct (truthy v) eqn:Ht; simpl.
  - now rewrite orb_false_r.
  - destruct (Dashboard.overflows v) eqn:Hv; [|reflexivity].
    apply overflows_truthy in Hv. congruence.
Qed.

Lemma float_or_zero_returns (v : pyval) :
  (exists y, Server.float_or_zero B v = Ok y)
  <-> Dashboard.overflows v = false.
Proof.
  unfold Server.float_or_zero. split.
  - intros [y H]. destruct v as [|b|z|f|s|l|d]; try reflexivity.
    simpl in *. destruct (is_inf (of_Z z)); [discriminate|reflexivity].
  - intros Hv. destruct (py_float B v) as [y|e] eqn:Hf; [simpl; eauto|].
    apply py_float_raises in Hf as [-> | [-> | (-> & z & -> & Hz)]];
      [simpl; eauto..|].
    simpl in Hv. congruence.
Qed.

Lemma fmt_delta_plain_returns (v : pyval) :
  (exists j, Server.fmt_delta_plain B v = Ok j)
  <-> Dashboard.overflows v = false.
Proof.
  unfold Server.fmt_delta_plain, Dashboard.delta_cents. split.
  - intros [t H]. destruct v as [|b|z|f|s|l|d]; try reflexivity.
    simpl in *. destruct (is_inf (of_Z z)); [discriminate|reflexivity].
  - intros Hv. destruct v as [|b|z|f|s|l|d]; [eauto|..];
      match goal with
      | |- context [py_float B ?v] =>
          destruct (py_float B v) as [x|e] eqn:Hf
      end;
      try (simpl; destruct (Dashboard.below_noise _); eauto; fail);
      apply py_float_raises in Hf as [-> | [-> | (-> & z' & Hz & Hinf)]];
      try (simpl; eauto; fail); try discriminate Hz.
    injection Hz as <-. simpl in Hv. congruence.
Qed.

Lemma contender_json_returns (c : Server.web_contender) :
  (exists j, Server.contender_json B c = Ok j)
  <-> Dashboard.overflows (Server.delta c) = false.
Proof.
  rewrite <- fmt_delta_plain_returns. unfold Server.contender_json. split.
  - intros [g H].
    destruct (Server.fmt_delta_plain B (Server.delta c));
      [eauto|discriminate].
  - intros [t ->]. simpl. eauto.
Qed.

Lemma event_json_returns (idx : nat) (fields : list (string * pyval)) :
  Dashboard.overflows (default PNone (assoc "volume" fields)) = false ->
  (exists e, Server.event_json B idx (PDict fields) = Ok e)
  <-> (exists raw,
         Server._all_contenders B (PDict fields) = Ok raw
         /\ Forall (fun c => Dashboard.overflows (Server.delta c) = false)
                   raw)
      /\ Dashboard.overflows (default PNone (assoc "volumeNum" fields))
         = false
      /\ Dashboard.overflows (default PNone (assoc "volume24hr" fields))
         = false.
Proof.
  intros Hvol. unfold Server.event_json.
  destruct (Server._all_contenders B (PDict fields)) as [raw|x]; simpl.
  2:{ split; [intros [e H]; discriminate|].
      intros [(raw & H & _) _]. discriminate. }
  pose proof (mapM_returns (Server.contender_json B) raw) as Hm.
  pose proof (float_or_zero_returns
                (py_or (py_or (default PNone (assoc "volumeNum" fields))
                              (default PNone (assoc "volume" fields)))
                       (PInt 0))) as Hraw.
  pose proof (float_or_zero_returns
                (py_or (default PNone (assoc "volume24hr" fields)) (PInt 0)))
    as Hraw24.
  rewrite !overflows_or, Hvol in Hraw. rewrite overflows_or in Hraw24.
  simpl in Hraw, Hraw24. rewrite !andb_false_r, !orb_false_r in Hraw.
  rewrite andb_false_r, orb_false_r in Hraw24.
  pose proof (proj2 (fmt_vol_returns B _) Hvol) as [fv Hfv].
  pose proof (fmt_vol_returns B (default PNone (assoc "volume24hr" fields)))
    as H24.
  split.
  - intros [e H].
    destruct (mapM (Server.contender_json B) raw) as [cs|x]; [|discriminate].
    simpl in H.
    destruct (Server.float_or_zero B _) as [vr|x] in H, Hraw; [|discriminate].
    simpl in H.
    destruct (Server.float_or_zero B _) as [vr24|x] in H, Hraw24;
      [|discriminate].
    split; [|split].
    + exists raw. split; [reflexivity|].
      assert (exists ys : list Server.api_contender, Ok cs = Ok ys) as Hex
        by eauto.
      apply Hm in Hex. eapply Forall_impl; [exact Hex|].
      intros c Hc. apply contender_json_returns, Hc.
    + apply Hraw. eauto.
    + apply Hraw24. eauto.
  - intros ((raw' & [= <-] & Hall) & Hnum & Hv24).
    assert (exists ys, mapM (Server.contender_json B) raw = Ok ys)
      as [cs ->].
    { apply Hm. eapply Forall_impl; [exact Hall|].
      intros c Hc. apply contender_json_returns, Hc. }
    simpl. apply Hraw in Hnum as [vr ->]. simpl.
    pose proof Hv24 as Hv24'. apply Hraw24 in Hv24 as [vr24 ->]. simpl.
    rewrite Hfv. simpl. apply H24 in Hv24' as [fv24 ->]. simpl. eauto.
Qed.

End FetchedObjects.

(** X21: the response document for the events the client returned is
    built exactly when, for every event, the extractor returns, no
    contender has a change that is an integer beyond the floats, and
    neither the field [volumeNum] nor the 24-hour volume is such an
    integer; the handlers around the two raw volumes do not cover that
    case, which ends the request with an error. *)
Theorem events_to_json_on_fetched (B : Py.builtins) (CACHE_TTL limit : Z)
    (out : Dashboard.completed) (ts : string) (events : list Py.pyval) :
  Dashboard.fetch_events B limit out = Py.Ok events ->
  (exists p, Server.events_to_json B CACHE_TTL ts events = Py.Ok p)
  <-> Forall (fun e =>
        (exists raw,
           Server._all_contenders B e = Py.Ok raw
           /\ Forall (fun c => Dashboard.overflows (Server.delta c) = false)
                     raw)
        /\ forall k v, k = "volumeNum"%string \/ k = "volume24hr"%string ->
             Py.py_get e k = Py.Ok v -> Dashboard.overflows v = false) events.
Proof.
  intros Hf. apply fetched_volume_ok in Hf.
  unfold Server.events_to_json.
  transitivity
    (exists ys,
       mapM (fun ie => Server.event_json B (S (fst ie)) (snd ie))
            (imap (fun i x => (i, x)) events) = Py.Ok ys).
  { split.
    - intros [p H].
      destruct (mapM _ (imap pair events)) as [ys|x] eqn:Hm; [|discriminate].
      eauto.
    - intros [ys H]. change (imap pair events)
        with (imap (fun i (x : Py.pyval) => (i, x)) events).
      rewrite H. simpl. eauto. }
  apply (mapM_enumerated_returns
           (fun i => Server.event_json B (S i)) _ events).
  eapply Forall_impl; [exact Hf|]. intros e He i.
  apply volume_ok_formats in He as (fields & -> & Hv).
  rewrite (event_json_returns B (S i) fields Hv). simpl. split.
  - intros (Hcs & Hnum & H24). split; [exact Hcs|].
    intros k v [-> | ->] [= <-]; assumption.
  - intros [Hcs Hk]. split; [exact Hcs|].
    split.
    + apply (Hk "volumeNum"%string); [now left|reflexivity].
    + apply (Hk "volume24hr"%string); [now right|reflexivity].
Qed.

Lemma events_to_json_on_fetched_sample :
  exists p,
    Server.events_to_json Samples.sample_builtins 30 "2026-01-01T00:00:00Z"
      [Py.PDict [("volume"%string, Py.PInt 5)]] = Py.Ok p.
Proof.
  apply (events_to_json_on_fetched Samples.sample_builtins 30 1
           Samples.one_event).
  - vm_compute. reflexivity.
  - repeat constructor.
    + exists []. split; [vm_compute; reflexivity|constructor].
    + intros k v [-> | ->]; vm_compute; intros [= <-]; reflexivity.
Defined.
